(** * ARGUS wallet: the vault transaction orchestration layer

    A shallow embedding of [src/utils/squads.ts] (multisig provisioning,
    transaction index allocation, proposal status, transfer and swap
    proposals) and of the swap execution paths and the route and price
    impact helpers of [src/utils/swap.ts].

    The code is a sequence of awaited calls on a ledger connection.  It is
    embedded as a program tree ([Prog]): every awaited call is a node
    whose continuation receives the settled promise, so that the same
    definition can be run against any environment ([run]) and reasoned
    about along all of its paths ([paths]).  The functions of
    [@solana/web3.js] and [@sqds/multisig] that the code calls but does
    not define (key derivation, address derivation, account decoding,
    instruction builders) are the fields of the class [Sdk].

    Conventions of the embedding:
    - JS [number] and [bigint] values that hold lamports, indices and
      clock readings are [Z];
    - a public key is the list of its bytes, as [toBytes()] returns it;
    - a thrown value is an [Error] object ([JsError]), hence truthy;
    - the library calls that can throw on their input return a [Settled]
      value: a derivation or an instruction that takes a number which may
      not fit its field, the decoders, and the building and signing of a
      transaction ([Tx_sign]); a [Tx] describes a transaction by what it
      is built from and who signs it;
    - a JS [number] that holds a percentage is a [Number]: a rational,
      an infinity or NaN;
    - [console.log] and friends are left out: they never influence the
      control flow. *)

From Stdlib Require Import ZArith QArith String Ascii List Lia.
From stdpp Require Import base option list gmap sets strings pretty.

Local Open Scope string_scope.
Local Open Scope Z_scope.

(** ** Values of the platform *)

Module Js.

(** A thrown [Error]: its [message] and the text that
    [JSON.stringify] produces for it. *)
Record JsError := mkError {
  message : string;
  stringified : string;
  instanceofError : bool
}.

(** [new Error(msg)]: no enumerable property, so it stringifies to
    an empty object. *)
Definition Error (msg : string) : JsError :=
  {| message := msg; stringified := "{}"; instanceofError := true |}.

(** A promise once settled. *)
Inductive Settled (X : Type) : Type :=
| Resolved (x : X)
| Rejected (e : JsError).
Arguments Resolved {X} x.
Arguments Rejected {X} e.

(** [hay.includes(needle)] *)
Fixpoint includes (hay needle : string) : bool :=
  if String.prefix needle hay then true
  else match hay with
       | EmptyString => false
       | String _ rest => includes rest needle
       end.

Definition lowerChar (c : ascii) : ascii :=
  let n := N_of_ascii c in
  if ((65 <=? n) && (n <=? 90))%N then ascii_of_N (n + 32) else c.

(** [s.toLowerCase()] on a text of ASCII characters: the letters A to Z
    are lowered and every other character is kept.  The platform also
    lowers the letters outside of ASCII, which this definition leaves as
    they are. *)
Fixpoint toLowerCase (s : string) : string :=
  match s with
  | EmptyString => EmptyString
  | String c rest => String (lowerChar c) (toLowerCase rest)
  end.

(** [a || b] on an optional object *)
Definition orElse {X} (a : option X) (b : X) : X :=
  match a with Some x => x | None => b end.

End Js.
Export Js.

(** ** Public keys and their base58 text *)

Module Base58.

Definition alphabet : string :=
  "123456789ABCDEFGHJKLMNPQRSTUVWXYZabcdefghijkmnopqrstuvwxyz".

Definition digit (d : Z) : ascii :=
  match String.get (Z.to_nat d) alphabet with
  | Some c => c
  | None => "1"%char
  end.

(** Big-endian value of a byte string. *)
Definition valueOf (bytes : list Z) : Z :=
  fold_left (fun acc b => acc * 256 + b) bytes 0.

Fixpoint leadingZeros (bytes : list Z) : nat :=
  match bytes with
  | b :: rest => if b =? 0 then S (leadingZeros rest) else O
  | [] => O
  end.

Fixpoint digits (fuel : nat) (n : Z) (acc : string) : string :=
  match fuel with
  | O => acc
  | S fuel' =>
      if n <=? 0 then acc
      else digits fuel' (n / 58) (String (digit (n mod 58)) acc)
  end.

Fixpoint ones (n : nat) (rest : string) : string :=
  match n with
  | O => rest
  | S n' => String "1"%char (ones n' rest)
  end.

(** [bs58.encode]: one ['1'] per leading zero byte, then the value in
    base 58.  Two digits per byte are always enough. *)
Definition encode (bytes : list Z) : string :=
  ones (leadingZeros bytes)
       (digits (2 * List.length bytes) (valueOf bytes) EmptyString).

Fixpoint find (c : ascii) (s : string) (i : Z) : option Z :=
  match s with
  | EmptyString => None
  | String d rest => if Ascii.eqb c d then Some i else find c rest (i + 1)
  end.

Fixpoint valueOfText (s : string) (acc : Z) : option Z :=
  match s with
  | EmptyString => Some acc
  | String c rest =>
      match find c alphabet 0 with
      | Some d => valueOfText rest (acc * 58 + d)
      | None => None
      end
  end.

Fixpoint leadingOnes (s : string) : nat :=
  match s with
  | String c rest => if Ascii.eqb c "1" then S (leadingOnes rest) else O
  | EmptyString => O
  end.

Fixpoint bytesOf (fuel : nat) (n : Z) (acc : list Z) : list Z :=
  match fuel with
  | O => acc
  | S fuel' =>
      if n <=? 0 then acc
      else bytesOf fuel' (n / 256) (n mod 256 :: acc)
  end.

(** [bs58.decode]: nothing for a text with a character outside of the
    alphabet. *)
Definition decode (s : string) : option (list Z) :=
  match valueOfText s 0 with
  | Some n => Some (repeat 0 (leadingOnes s) ++ bytesOf (String.length s) n [])%list
  | None => None
  end.

End Base58.

Abbreviation PublicKey := (list Z) (only parsing).

(** [a.equals(b)] *)
Definition equals (a b : PublicKey) : bool := bool_decide (a = b).

(** [pk.toBase58()] *)
Definition toBase58 (pk : PublicKey) : string := Base58.encode pk.

Record Keypair := mkKeypair {
  publicKey : PublicKey;
  secretKey : list Z
}.

Record AccountInfo := mkAccountInfo {
  owner : PublicKey;
  lamports : Z;
  data : list Z
}.

(** [TransactionError]: an opaque JSON value of the cluster; the code only
    tests its presence and searches its [JSON.stringify] text, which is
    what the record holds. *)
Record TransactionError := mkTransactionError { errJson : string }.

Record AccountMeta := mkAccountMeta {
  pubkey : PublicKey;
  isSigner : bool;
  isWritable : bool
}.

Record TransactionInstruction := mkInstruction {
  programId : PublicKey;
  keys : list AccountMeta;
  ixData : list Z
}.

Record TransactionMessage := mkMessage {
  payerKey : PublicKey;
  recentBlockhash : string;
  instructions : list TransactionInstruction
}.

Record SendOptions := mkSendOptions {
  skipPreflight : bool;
  preflightCommitment : option string;
  maxRetries : option Z
}.

(** Arguments of [multisig.transactions.vaultTransactionCreate] *)
Record VaultTransactionCreateArgs := mkVaultTransactionCreate {
  vtc_blockhash : string;
  vtc_feePayer : PublicKey;
  vtc_multisigPda : PublicKey;
  vtc_transactionIndex : Z;
  vtc_creator : PublicKey;
  vtc_vaultIndex : Z;
  vtc_ephemeralSigners : Z;
  vtc_transactionMessage : TransactionMessage;
  vtc_programId : PublicKey
}.

(** Arguments of [multisig.transactions.proposalCreate] *)
Record ProposalCreateArgs := mkProposalCreate {
  pc_blockhash : string;
  pc_feePayer : PublicKey;
  pc_multisigPda : PublicKey;
  pc_transactionIndex : Z;
  pc_creator : PublicKey;
  pc_programId : PublicKey
}.

(** A signed transaction as handed to the connection: what was built and
    who signed it. *)
Inductive Tx :=
| V0Tx (msg : TransactionMessage) (signers : list Keypair)
| VaultTransactionCreateTx (args : VaultTransactionCreateArgs) (signers : list Keypair)
| ProposalCreateTx (args : ProposalCreateArgs) (signers : list Keypair)
| DeserializedTx (base64 : string) (signers : list Keypair).

Inductive ConfirmationStatus := processed | confirmed | finalized.

Record SignatureStatus := mkSignatureStatus {
  statusErr : option TransactionError;
  confirmationStatus : option ConfirmationStatus
}.

(** The part of a [fetch] response that the relay loop looks at:
    [response.ok] and the [result] member of [await response.json()]. *)
Record FetchResponse := mkFetchResponse {
  ok : bool;
  jsonResult : Settled (option string)
}.

(** The decoded multisig account; only the counter is read. *)
Record MultisigAccount := mkMultisigAccount { transactionIndex : Z }.

(** ** The libraries the code calls *)

Inductive Permission := Initiate | Vote | Execute.

(** [multisig.types.Permissions.all()] *)
Definition Permissions_all : list Permission := [Initiate; Vote; Execute].

(** [multisig.types.Permissions.fromPermissions(list)] *)
Definition Permissions_fromPermissions (l : list Permission) : list Permission := l.

Record Member := mkMember {
  key : PublicKey;
  permissions : list Permission
}.

Record MultisigCreateV2Accounts := mkCreateAccounts {
  acc_programConfig : PublicKey;
  acc_treasury : PublicKey;
  acc_multisig : PublicKey;
  acc_createKey : PublicKey;
  acc_creator : PublicKey;
  acc_systemProgram : PublicKey
}.

Record MultisigCreateV2Args := mkCreateArgs {
  arg_configAuthority : option PublicKey;
  arg_threshold : Z;
  arg_members : list Member;
  arg_timeLock : Z;
  arg_rentCollector : option PublicKey;
  arg_memo : option string
}.

(** What [@solana/web3.js], [@sqds/multisig] and the JS runtime compute
    for the code: none of it is defined in the repository. *)
Class Sdk := {
  (** [Keypair.fromSeed(seed)] *)
  Keypair_fromSeed : list Z -> Keypair;
  (** [new PublicKey(text)]: throws on a text that is not a key *)
  PublicKey_new : string -> Settled PublicKey;
  (** [Buffer.from(text, "base64")] *)
  Buffer_from_base64 : string -> list Z;
  (** [multisig.getMultisigPda({createKey, programId})[0]] *)
  getMultisigPda : PublicKey -> PublicKey -> PublicKey;
  (** [multisig.getVaultPda({multisigPda, index, programId})[0]] *)
  getVaultPda : PublicKey -> Z -> PublicKey -> PublicKey;
  (** [multisig.getTransactionPda({multisigPda, index, programId})[0]]:
      throws on an index that does not fit in 64 bits *)
  getTransactionPda : PublicKey -> Z -> PublicKey -> Settled PublicKey;
  (** [multisig.getProgramConfigPda({programId})[0]] *)
  getProgramConfigPda : PublicKey -> PublicKey;
  (** [multisig.accounts.Multisig.fromAccountInfo(info)[0]] *)
  Multisig_fromAccountInfo : AccountInfo -> Settled MultisigAccount;
  (** [SystemProgram.transfer({fromPubkey, toPubkey, lamports})]: throws
      on an amount that does not encode *)
  SystemProgram_transfer :
    PublicKey -> PublicKey -> Z -> Settled TransactionInstruction;
  (** [multisig.generated.createMultisigCreateV2Instruction]: the
      instruction, and what serializing its arguments throws on a field
      that does not fit (a threshold that is no 16-bit number) *)
  createMultisigCreateV2Instruction :
    MultisigCreateV2Accounts -> MultisigCreateV2Args -> PublicKey -> TransactionInstruction;
  multisigCreateV2Struct_serialize : MultisigCreateV2Args -> Settled unit;
  (** Building the transaction that a [Tx] describes and signing it
      ([compileToV0Message] and [new VersionedTransaction], or
      [multisig.transactions.vaultTransactionCreate] and [proposalCreate];
      then [tx.sign(signers)] and, before a raw send, [tx.serialize()]):
      throws on a field that does not encode, on a blockhash that is no
      base58 text and on a transaction over the size limit *)
  Tx_sign : Tx -> Settled unit;
  (** the text of [x / 1e9] inside a template string *)
  solText : Z -> string;
  (** [VersionedTransaction.deserialize]: the recent blockhash of the
      message, or the exception of a malformed buffer *)
  VersionedTransaction_deserialize : string -> Settled string;
  (** [transaction.sign([signer])]: throws for a key the message does
      not require *)
  VersionedTransaction_sign : string -> Keypair -> Settled unit;
  (** [bs58.encode(transaction.signatures[0])] of a signed transaction *)
  firstSignature : Tx -> string
}.

(** ** Programs over a connection *)

(** The awaited calls whose promise may reject. *)
Inductive Rpc :=
| getAccountInfo (address : PublicKey) (commitment : option string)
| getBalance (address : PublicKey)
| getLatestBlockhash
| sendTransaction (tx : Tx) (opts : SendOptions)
| sendRawTransaction (tx : Tx) (opts : SendOptions)
| confirmTransaction (signature : string) (commitment : string)
| confirmTransactionRace (signature blockhash : string) (lastValidBlockHeight timeoutMs : Z)
    (* [Promise.race] of [confirmTransaction] with the timeout promise *)
| getSignatureStatus (signature : string)
| fetch (endpoint : string) (tx : Tx).

(** What each call resolves to. *)
Definition Resp (c : Rpc) : Type :=
  match c with
  | getAccountInfo _ _ => option AccountInfo
  | getBalance _ => Z
  | getLatestBlockhash => string
  | sendTransaction _ _ => string
  | sendRawTransaction _ _ => string
  | confirmTransaction _ _ => option TransactionError
  | confirmTransactionRace _ _ _ _ => option TransactionError
  | getSignatureStatus _ => option SignatureStatus
  | fetch _ _ => FetchResponse
  end.

Inductive Prog (A : Type) : Type :=
| Ret (a : A)
| Throw (e : JsError)
| Await (c : Rpc) (k : Settled (Resp c) -> Prog A)
| Sleep (ms : Z) (k : Prog A)
| Now (k : Z -> Prog A).
Arguments Ret {A} a.
Arguments Throw {A} e.
Arguments Await {A} c k.
Arguments Sleep {A} ms k.
Arguments Now {A} k.

Fixpoint bind {A B} (p : Prog A) (f : A -> Prog B) : Prog B :=
  match p with
  | Ret a => f a
  | Throw e => Throw e
  | Await c k => Await c (fun r => bind (k r) f)
  | Sleep ms k => Sleep ms (bind k f)
  | Now k => Now (fun t => bind (k t) f)
  end.

(** [try { p } catch (e) { h e }] *)
Fixpoint try_catch {A} (p : Prog A) (h : JsError -> Prog A) : Prog A :=
  match p with
  | Ret a => Ret a
  | Throw e => h e
  | Await c k => Await c (fun r => try_catch (k r) h)
  | Sleep ms k => Sleep ms (try_catch k h)
  | Now k => Now (fun t => try_catch (k t) h)
  end.

(** [await conn.call(...)]: a rejection is thrown at the await. *)
Definition await (c : Rpc) : Prog (Resp c) :=
  Await c (fun r => match r with Resolved x => Ret x | Rejected e => Throw e end).

(** [await new Promise(r => setTimeout(r, ms))] *)
Definition sleep (ms : Z) : Prog unit := Sleep ms (Ret tt).

(** [Date.now()] *)
Definition Date_now : Prog Z := Now Ret.

(** The value or the exception of a library call. *)
Definition settle {X} (r : Settled X) : Prog X :=
  match r with Resolved x => Ret x | Rejected e => Throw e end.

Declare Scope prog_scope.
Delimit Scope prog_scope with prog.
Notation "'let*' x ':=' p 'in' q" := (bind p (fun x => q))
  (at level 10, x name, p at level 100, q at level 200,
   format "'[v' 'let*'  x  ':='  p  'in' '/' q ']'") : prog_scope.
Local Open Scope prog_scope.

(** ** Running a program *)

Inductive Event :=
| EGetAccountInfo (address : PublicKey) (commitment : option string)
    (r : Settled (option AccountInfo))
| EGetBalance (address : PublicKey) (r : Settled Z)
| EGetLatestBlockhash (r : Settled string)
| ESendTransaction (tx : Tx) (opts : SendOptions) (r : Settled string)
| ESendRawTransaction (tx : Tx) (opts : SendOptions) (r : Settled string)
| EConfirmTransaction (signature : string) (commitment : string)
    (r : Settled (option TransactionError))
| EConfirmTransactionRace (signature blockhash : string)
    (lastValidBlockHeight timeoutMs : Z) (r : Settled (option TransactionError))
| EGetSignatureStatus (signature : string) (r : Settled (option SignatureStatus))
| EFetch (endpoint : string) (tx : Tx) (r : Settled FetchResponse)
| ESleep (ms : Z)
| ENow (t : Z).

Definition mkEvent (c : Rpc) : Settled (Resp c) -> Event :=
  match c with
  | getAccountInfo a cm => EGetAccountInfo a cm
  | getBalance a => EGetBalance a
  | getLatestBlockhash => EGetLatestBlockhash
  | sendTransaction tx o => ESendTransaction tx o
  | sendRawTransaction tx o => ESendRawTransaction tx o
  | confirmTransaction sg cm => EConfirmTransaction sg cm
  | confirmTransactionRace sg bh h t => EConfirmTransactionRace sg bh h t
  | getSignatureStatus sg => EGetSignatureStatus sg
  | fetch ep tx => EFetch ep tx
  end.

Inductive Outcome (A : Type) : Type :=
| Returned (a : A)
| Thrown (e : JsError).
Arguments Returned {A} a.
Arguments Thrown {A} e.

(** The world a program runs in: how each call is answered, what the clock
    shows, and what the passing of time does, all over a state of the
    environment's own. *)
Record Env (S : Type) := mkEnv {
  respond : forall c : Rpc, S -> Settled (Resp c) * S;
  clock : S -> Z * S;
  elapse : Z -> S -> S
}.
Arguments respond {S} e c s.
Arguments clock {S} e s.
Arguments elapse {S} e ms s.

Record Run (S A : Type) := mkRun {
  outcome : Outcome A;
  trace : list Event;
  final : S
}.
Arguments mkRun {S A} outcome trace final.
Arguments outcome {S A} r.
Arguments trace {S A} r.
Arguments final {S A} r.

Definition after {S A} (pre : list Event) (r : Run S A) : Run S A :=
  mkRun (outcome r) (pre ++ trace r) (final r).

Fixpoint run {S A} (env : Env S) (p : Prog A) (s : S) : Run S A :=
  match p with
  | Ret a => mkRun (Returned a) [] s
  | Throw e => mkRun (Thrown e) [] s
  | Await c k =>
      let rs := respond env c s in
      after [mkEvent c (fst rs)] (run env (k (fst rs)) (snd rs))
  | Sleep ms k => after [ESleep ms] (run env k (elapse env ms s))
  | Now k =>
      let ts := clock env s in
      after [ENow (fst ts)] (run env (k (fst ts)) (snd ts))
  end.

(** [paths p Q]: [Q] holds of the trace and outcome of [p] whatever the
    answers are. *)
Fixpoint paths {A} (p : Prog A) (Q : list Event -> Outcome A -> Prop) : Prop :=
  match p with
  | Ret a => Q [] (Returned a)
  | Throw e => Q [] (Thrown e)
  | Await c k => forall r, paths (k r) (fun tr o => Q (mkEvent c r :: tr) o)
  | Sleep ms k => paths k (fun tr o => Q (ESleep ms :: tr) o)
  | Now k => forall t, paths (k t) (fun tr o => Q (ENow t :: tr) o)
  end.

(** ** src/utils/squads.ts *)

(** [new PublicKey("SQDS4ep65T869zMMBKyuUq6aD6EgTu8psMjkvj52pCf")] *)
Definition SQUADS_PROGRAM_ID : PublicKey :=
  [6; 129; 196; 206; 71; 226; 35; 104; 184; 177; 85; 94; 200; 135; 175; 9;
   46; 252; 126; 251; 182; 108; 163; 245; 47; 191; 104; 212; 172; 156; 183; 168].

(** [new PublicKey("5DH2e3cJmFpyi6mk65EGFediunm4ui6BiKNUNrhWtD1b")] *)
Definition programTreasury : PublicKey :=
  [62; 147; 215; 50; 196; 72; 36; 39; 144; 210; 219; 181; 49; 164; 10; 189;
   25; 241; 108; 85; 227; 19; 44; 255; 82; 119; 173; 201; 214; 147; 171; 90].

(** [SystemProgram.programId], the key of 32 zero bytes *)
Definition SystemProgram_programId : PublicKey := repeat 0 32.

Record SquadResult := mkSquadResult {
  signature : string;
  multisigPda : PublicKey;
  vaultPda : PublicKey
}.

(** [info && info.owner.toBase58() === SQUADS_PROGRAM_ID.toBase58()] *)
Definition ownedBySquads (info : option AccountInfo) : bool :=
  match info with
  | Some i => String.eqb (toBase58 (owner i)) (toBase58 SQUADS_PROGRAM_ID)
  | None => false
  end.

(** The seed of attempt [i]:
    [const seed = creator.publicKey.toBytes(); seed[i % 32] ^= 0xFF].
    [toBytes()] hands out a fresh array at every call, so every attempt
    starts from the unmodified key; a [Uint8Array] stores the result
    modulo 256 and ignores a write outside of its bounds. *)
Definition seedOf (creator : Keypair) (i : Z) : list Z :=
  let seed := publicKey creator in
  alter (fun b => Z.lxor b 255 mod 256) (Z.to_nat (i mod 32)) seed.

(** The three polling loops
    [while (retries > 0) { info = await getAccountInfo(pda, "confirmed");
       if (info) break; await sleep(ms); retries-- }]
    of lines 184-190 (10 rounds of 1000 ms), 251-261 and 393-403
    (15 rounds of 2000 ms). *)
Fixpoint untilVisible (pda : PublicKey) (ms : Z) (retries : nat) : Prog unit :=
  match retries with
  | O => Ret tt
  | S retries' =>
      let* info := await (getAccountInfo pda (Some "confirmed")) in
      match info with
      | Some _ => Ret tt
      | None => let* _ := sleep ms in untilVisible pda ms retries'
      end
  end.

(** The re-verification loop of the 6014 handler (lines 209-219); the
    result is [verified]. *)
Fixpoint verifyOwnership (pda : PublicKey) (retries : nat) : Prog bool :=
  match retries with
  | O => Ret false
  | S retries' =>
      let* check := await (getAccountInfo pda (Some "confirmed")) in
      if ownedBySquads check then Ret true
      else let* _ := sleep 1000 in verifyOwnership pda retries'
  end.

Section Squads.
Context {sdk : Sdk}.

(** *** getNextTransactionIndex *)

(** The loop [for (let offset = 0; offset < 10; offset++)]; [remaining]
    is [10 - offset]. *)
Fixpoint probeFrom (multisigPda : PublicKey) (nextIndex : Z)
    (remaining : nat) (offset : Z) : Prog Z :=
  match remaining with
  | O => Throw (Error "Could not find free transaction index after 10 attempts")
  | S remaining' =>
      let testIndex := nextIndex + offset in
      let* vaultTransactionPda :=
        settle (getTransactionPda multisigPda testIndex SQUADS_PROGRAM_ID) in
      let* txAccount := await (getAccountInfo vaultTransactionPda None) in
      match txAccount with
      | None => Ret testIndex
      | Some _ => probeFrom multisigPda nextIndex remaining' (offset + 1)
      end
  end.

Definition getNextTransactionIndex (multisigPda : PublicKey) : Prog Z :=
  let* multisigInfo := await (getAccountInfo multisigPda (Some "confirmed")) in
  match multisigInfo with
  | None => Throw (Error "Multisig account not found")
  | Some info =>
      let* multisigAccount := settle (Multisig_fromAccountInfo info) in
      let currentIndex := transactionIndex multisigAccount in
      let nextIndex := currentIndex + 1 in
      probeFrom multisigPda nextIndex 10 0
  end.

(** *** createSquad *)

Definition createKeyOf (creator : Keypair) (i : Z) : Keypair :=
  Keypair_fromSeed (seedOf creator i).

Definition multisigPdaOf (creator : Keypair) (i : Z) : PublicKey :=
  getMultisigPda (publicKey (createKeyOf creator i)) SQUADS_PROGRAM_ID.

Definition vaultPdaOf (creator : Keypair) (i : Z) : PublicKey :=
  getVaultPda (multisigPdaOf creator i) 0 SQUADS_PROGRAM_ID.

Definition createOpts : SendOptions :=
  {| skipPreflight := false; preflightCommitment := None; maxRetries := None |}.

(** The [args] of the creation instruction (lines 127-133 and 153-160). *)
Definition creationArgs (creator : Keypair) (member2 : PublicKey) (threshold : Z)
    : MultisigCreateV2Args :=
  let members :=
    [ {| key := publicKey creator; permissions := Permissions_all |};
      {| key := member2;
         permissions := Permissions_fromPermissions [Vote; Initiate] |} ] in
  {| arg_configAuthority := None;
     arg_threshold := threshold;
     arg_members := members;
     arg_timeLock := 0;
     arg_rentCollector := None;
     arg_memo := None |}.

(** The transaction that the [try] block signs and sends. *)
Definition creationTx (creator : Keypair) (member2 : PublicKey) (threshold : Z)
    (i : Z) (blockhash : string) : Tx :=
  let createKey := createKeyOf creator i in
  let programConfigPda := getProgramConfigPda SQUADS_PROGRAM_ID in
  let ix :=
    createMultisigCreateV2Instruction
      {| acc_programConfig := programConfigPda;
         acc_treasury := programTreasury;
         acc_multisig := multisigPdaOf creator i;
         acc_createKey := publicKey createKey;
         acc_creator := publicKey creator;
         acc_systemProgram := SystemProgram_programId |}
      (creationArgs creator member2 threshold)
      SQUADS_PROGRAM_ID in
  let message :=
    {| payerKey := publicKey creator;
       recentBlockhash := blockhash;
       instructions := [ix] |} in
  V0Tx message [creator; createKey].

(** The body of the [try] block (lines 126-193): the instruction is built
    before the blockhash is read, the transaction is compiled and signed
    after it. *)
Definition tryCreate (creator : Keypair) (member2 : PublicKey) (threshold : Z)
    (i : Z) : Prog SquadResult :=
  let* _ :=
    settle (multisigCreateV2Struct_serialize
              (creationArgs creator member2 threshold)) in
  let* latestBlockhash := await getLatestBlockhash in
  let tx := creationTx creator member2 threshold i latestBlockhash in
  let* _ := settle (Tx_sign tx) in
  let* signature := await (sendTransaction tx createOpts) in
  let* confirmation := await (confirmTransaction signature "confirmed") in
  match confirmation with
  | Some err =>
      Throw (Error ("Creation Transaction Failed on-chain: " ++ errJson err))
  | None =>
      let* _ := untilVisible (multisigPdaOf creator i) 1000 10 in
      Ret {| signature := signature;
             multisigPda := multisigPdaOf creator i;
             vaultPda := vaultPdaOf creator i |}
  end.

(** How one turn of the [for] loop ends: with a [return], or by moving on
    to the next index with the value that [lastError] then has. *)
Inductive Step :=
| Return (r : SquadResult)
| Continue (lastError : option JsError).

(** [errMsg.includes("6014") || errMsg.includes("already in use")] for
    [errMsg = (e.message || empty) + JSON.stringify(e)] *)
Definition alreadyInitialized (e : JsError) : bool :=
  let errMsg := message e ++ stringified e in
  includes errMsg "6014" || includes errMsg "already in use".

(** The [catch] block (lines 195-232). *)
Definition onCreateError (creator : Keypair) (i : Z) (e : JsError) : Prog Step :=
  if alreadyInitialized e then
    let* verified := verifyOwnership (multisigPdaOf creator i) 5 in
    if verified then
      Ret (Return {| signature := "RECOVERED_6014";
                     multisigPda := multisigPdaOf creator i;
                     vaultPda := vaultPdaOf creator i |})
    else Ret (Continue (Some e))
  else Ret (Continue (Some e)).

(** One turn of [for (let i = 0; i < MAX_ATTEMPTS; i++)]. *)
Definition attempt (creator : Keypair) (member2 : PublicKey) (threshold : Z)
    (i : Z) (lastError : option JsError) : Prog Step :=
  let* existingInfo := await (getAccountInfo (multisigPdaOf creator i) None) in
  if ownedBySquads existingInfo then
    Ret (Return {| signature := "RECOVERED";
                   multisigPda := multisigPdaOf creator i;
                   vaultPda := vaultPdaOf creator i |})
  else
    match existingInfo with
    | None =>
        try_catch
          (let* r := tryCreate creator member2 threshold i in Ret (Return r))
          (onCreateError creator i)
    | Some _ => Ret (Continue lastError)
    end.

(** The loop from index [i] on, with [remaining = MAX_ATTEMPTS - i], and
    the [throw] that follows it. *)
Fixpoint attemptsFrom (creator : Keypair) (member2 : PublicKey) (threshold : Z)
    (remaining : nat) (i : Z) (lastError : option JsError) : Prog SquadResult :=
  match remaining with
  | O =>
      Throw (orElse lastError
               (Error "Failed to find a valid Vault slot after multiple attempts."))
  | S remaining' =>
      let* step := attempt creator member2 threshold i lastError in
      match step with
      | Return r => Ret r
      | Continue lastError' =>
          attemptsFrom creator member2 threshold remaining' (i + 1) lastError'
      end
  end.

Definition MAX_ATTEMPTS : nat := 10.

Definition insufficientFunds (balance : Z) : JsError :=
  Error ("Insufficient funds. You have " ++ solText balance
         ++ " SOL, but need ~0.01 SOL for network fees and rent.").

(** [threshold] is the optional fourth parameter, 1 when left out.  The
    bound of the balance check, [0.01 * 1e9], is the double 10000000. *)
Definition createSquad (creator : Keypair) (member2 : PublicKey) (threshold : Z)
    : Prog SquadResult :=
  let* balance := await (getBalance (publicKey creator)) in
  if balance <? 10000000 then Throw (insufficientFunds balance)
  else attemptsFrom creator member2 threshold MAX_ATTEMPTS 0 None.

End Squads.

(** *** createTransferProposal and createSwapProposal *)

(** From src/utils/swap.ts: the instruction bundle of the routing
    service. *)
Record SwapInstructionAccount := mkSwapAccount {
  sia_pubkey : string;
  sia_isSigner : bool;
  sia_isWritable : bool
}.

Record SwapInstructionData := mkSwapInstruction {
  sid_programId : string;
  sid_accounts : list SwapInstructionAccount;
  sid_data : string
}.

Record SwapInstructionsResponse := mkSwapInstructions {
  computeBudgetInstructions : list SwapInstructionData;
  setupInstructions : list SwapInstructionData;
  swapInstruction : SwapInstructionData;
  cleanupInstruction : option SwapInstructionData;
  otherInstructions : list SwapInstructionData;
  addressLookupTableAddresses : list string
}.

Definition andThen {X Y} (r : Settled X) (f : X -> Settled Y) : Settled Y :=
  match r with
  | Resolved x => f x
  | Rejected e => Rejected e
  end.

(** [xs.map(f)] for an [f] that may throw: the first exception wins. *)
Fixpoint mapSettled {X Y} (f : X -> Settled Y) (xs : list X) : Settled (list Y) :=
  match xs with
  | [] => Resolved []
  | x :: rest =>
      andThen (f x) (fun y =>
      andThen (mapSettled f rest) (fun ys => Resolved (y :: ys)))
  end.

(** Both proposal builders send with
    [{ skipPreflight: false, preflightCommitment: 'confirmed' }]. *)
Definition proposalOpts : SendOptions :=
  {| skipPreflight := false;
     preflightCommitment := Some "confirmed";
     maxRetries := None |}.

(** The signer scan of lines 447-462: one visit of [key] with the counter
    and the set of addresses seen so far. *)
Definition visitKey (vaultPda creatorKey : PublicKey)
    (st : Z * gset string) (key : AccountMeta) : Z * gset string :=
  let pubkeyStr := toBase58 (pubkey key) in
  if negb (isSigner key) then st
  else if equals (pubkey key) vaultPda then st
  else if equals (pubkey key) creatorKey then st
  else if bool_decide (pubkeyStr ∈ snd st) then st
  else (fst st + 1, {[pubkeyStr]} ∪ snd st).

Definition scanSigners (vaultPda creatorKey : PublicKey)
    (allInstructions : list TransactionInstruction) : Z * gset string :=
  fold_left
    (fun st ix => fold_left (visitKey vaultPda creatorKey) (keys ix) st)
    allInstructions (0, ∅).

Section Proposals.
Context {sdk : Sdk}.

Definition insufficientVaultBalance (vaultBalance amountLamports : Z) : JsError :=
  Error ("Insufficient vault balance. Has " ++ solText vaultBalance
         ++ " SOL, need " ++ solText amountLamports ++ " SOL").

Definition createTransferProposal (creator : Keypair)
    (multisigPda vaultPda recipient : PublicKey)
    (amountLamports : Z) (transactionIndex : Z) : Prog string :=
  let* _ := untilVisible multisigPda 2000 15 in
  let* vaultBalance := await (getBalance vaultPda) in
  if vaultBalance <? amountLamports then
    Throw (insufficientVaultBalance vaultBalance amountLamports)
  else
    let* transferIx :=
      settle (SystemProgram_transfer vaultPda recipient amountLamports) in
    let* messageBlockhash := await getLatestBlockhash in
    let transactionMessage :=
      {| payerKey := vaultPda;
         recentBlockhash := messageBlockhash;
         instructions := [transferIx] |} in
    let* expectedTxPda :=
      settle (getTransactionPda multisigPda transactionIndex SQUADS_PROGRAM_ID) in
    try_catch
      (let* blockhash := await getLatestBlockhash in
       let vaultTx :=
         VaultTransactionCreateTx
           {| vtc_blockhash := blockhash;
              vtc_feePayer := publicKey creator;
              vtc_multisigPda := multisigPda;
              vtc_transactionIndex := transactionIndex;
              vtc_creator := publicKey creator;
              vtc_vaultIndex := 0;
              vtc_ephemeralSigners := 0;
              vtc_transactionMessage := transactionMessage;
              vtc_programId := SQUADS_PROGRAM_ID |}
           [creator] in
       let* _ := settle (Tx_sign vaultTx) in
       let* vaultTxSig := await (sendRawTransaction vaultTx proposalOpts) in
       let* _ := await (confirmTransaction vaultTxSig "confirmed") in
       let* proposalBlockhash := await getLatestBlockhash in
       let proposalTx :=
         ProposalCreateTx
           {| pc_blockhash := proposalBlockhash;
              pc_feePayer := publicKey creator;
              pc_multisigPda := multisigPda;
              pc_transactionIndex := transactionIndex;
              pc_creator := publicKey creator;
              pc_programId := SQUADS_PROGRAM_ID |}
           [creator] in
       let* _ := settle (Tx_sign proposalTx) in
       let* proposalTxSig := await (sendRawTransaction proposalTx proposalOpts) in
       let* _ := await (confirmTransaction proposalTxSig "confirmed") in
       Ret proposalTxSig)
      (fun e => Throw e).

Definition convertAccount (acc : SwapInstructionAccount) : Settled AccountMeta :=
  andThen (PublicKey_new (sia_pubkey acc)) (fun pk =>
  Resolved {| pubkey := pk;
              isSigner := sia_isSigner acc;
              isWritable := sia_isWritable acc |}).

Definition convertSwapInstruction (ix : SwapInstructionData)
    : Settled TransactionInstruction :=
  andThen (PublicKey_new (sid_programId ix)) (fun pid =>
  andThen (mapSettled convertAccount (sid_accounts ix)) (fun ks =>
  Resolved {| programId := pid;
              keys := ks;
              ixData := Buffer_from_base64 (sid_data ix) |})).

(** Steps 1 to 5 of createSwapProposal: [allInstructions] once every
    [push] is done. *)
Definition assemble (swapInstructions : SwapInstructionsResponse)
    : Settled (list TransactionInstruction) :=
  andThen (mapSettled convertSwapInstruction
             (computeBudgetInstructions swapInstructions)) (fun budget =>
  andThen (mapSettled convertSwapInstruction
             (setupInstructions swapInstructions)) (fun setup =>
  andThen (convertSwapInstruction (swapInstruction swapInstructions)) (fun swap =>
  andThen (match cleanupInstruction swapInstructions with
           | Some ix => andThen (convertSwapInstruction ix) (fun c => Resolved [c])
           | None => Resolved []
           end) (fun cleanup =>
  andThen (mapSettled convertSwapInstruction
             (otherInstructions swapInstructions)) (fun other =>
  Resolved (budget ++ setup ++ [swap] ++ cleanup ++ other)%list))))).

Definition createSwapProposal (creator : Keypair)
    (multisigPda vaultPda : PublicKey)
    (swapInstructions : SwapInstructionsResponse)
    (transactionIndex : Z) : Prog string :=
  let* _ := untilVisible multisigPda 2000 15 in
  let* allInstructions := settle (assemble swapInstructions) in
  let ephemeralSignersNeeded :=
    fst (scanSigners vaultPda (publicKey creator) allInstructions) in
  let* messageBlockhash := await getLatestBlockhash in
  let transactionMessage :=
    {| payerKey := vaultPda;
       recentBlockhash := messageBlockhash;
       instructions := allInstructions |} in
  let* expectedTxPda :=
    settle (getTransactionPda multisigPda transactionIndex SQUADS_PROGRAM_ID) in
  try_catch
    (let* blockhash := await getLatestBlockhash in
     let vaultTx :=
       VaultTransactionCreateTx
         {| vtc_blockhash := blockhash;
            vtc_feePayer := publicKey creator;
            vtc_multisigPda := multisigPda;
            vtc_transactionIndex := transactionIndex;
            vtc_creator := publicKey creator;
            vtc_vaultIndex := 0;
            vtc_ephemeralSigners := ephemeralSignersNeeded;
            vtc_transactionMessage := transactionMessage;
            vtc_programId := SQUADS_PROGRAM_ID |}
         [creator] in
     let* _ := settle (Tx_sign vaultTx) in
     let* vaultTxSig := await (sendRawTransaction vaultTx proposalOpts) in
     let* _ := await (confirmTransaction vaultTxSig "confirmed") in
     let* proposalBlockhash := await getLatestBlockhash in
     let proposalTx :=
       ProposalCreateTx
         {| pc_blockhash := proposalBlockhash;
            pc_feePayer := publicKey creator;
            pc_multisigPda := multisigPda;
            pc_transactionIndex := transactionIndex;
            pc_creator := publicKey creator;
            pc_programId := SQUADS_PROGRAM_ID |}
         [creator] in
     let* _ := settle (Tx_sign proposalTx) in
     let* proposalTxSig := await (sendRawTransaction proposalTx proposalOpts) in
     let* _ := await (confirmTransaction proposalTxSig "confirmed") in
     Ret proposalTxSig)
    (fun e => Throw e).

End Proposals.

(** ** src/utils/swap.ts: execution *)

Record SwapTransaction := mkSwapTransaction {
  transaction : string;
  lastValidBlockHeight : Z;
  prioritizationFeeLamports : Z
}.

Record SwapResult := mkSwapResult {
  success : bool;
  resultSignature : option string;
  error : option string;
  errorCode : option string
}.

Definition SWAP_TIMEOUT_MS : Z := 90000.

Definition JITO_TX_ENDPOINTS : list string :=
  [ "https://mainnet.block-engine.jito.wtf/api/v1/transactions";
    "https://amsterdam.mainnet.block-engine.jito.wtf/api/v1/transactions";
    "https://frankfurt.mainnet.block-engine.jito.wtf/api/v1/transactions";
    "https://ny.mainnet.block-engine.jito.wtf/api/v1/transactions";
    "https://tokyo.mainnet.block-engine.jito.wtf/api/v1/transactions" ].

(** [if (data.result)]: a present, non-empty text *)
Definition truthy (result : option string) : bool :=
  match result with
  | Some EmptyString => false
  | Some _ => true
  | None => false
  end.

Definition slippageExceeded (signature : string) : SwapResult :=
  {| success := false;
     resultSignature := Some signature;
     error := Some "Price moved too much - slippage exceeded";
     errorCode := Some "SLIPPAGE_EXCEEDED" |}.

Definition failedOnChain (signature : string) : SwapResult :=
  {| success := false;
     resultSignature := Some signature;
     error := Some "Transaction failed on-chain";
     errorCode := Some "TX_FAILED" |}.

Definition succeeded (signature : string) : SwapResult :=
  {| success := true;
     resultSignature := Some signature;
     error := None;
     errorCode := None |}.

Definition failure (msg code : string) : SwapResult :=
  {| success := false;
     resultSignature := None;
     error := Some msg;
     errorCode := Some code |}.

(** The [catch] block of executeSwap (lines 1104-1146). *)
Definition explainError (e : JsError) : SwapResult :=
  if instanceofError e then
    let msg := toLowerCase (message e) in
    if includes msg "insufficient funds" || includes msg "insufficient lamports"
    then failure "Insufficient SOL for transaction fees" "INSUFFICIENT_SOL"
    else if includes msg "slippage" || includes msg "0x1788"
    then failure "Price changed too much. Try increasing slippage." "SLIPPAGE_EXCEEDED"
    else if includes msg "blockhash" || includes msg "expired"
    then failure "Transaction expired. Please try again." "TX_EXPIRED"
    else failure (message e) "EXECUTION_ERROR"
  else failure "Unknown error during swap" "UNKNOWN".

(** [status?.value?.confirmationStatus === "confirmed" ||
     status?.value?.confirmationStatus === "finalized"] *)
Definition isSettled (st : SignatureStatus) : bool :=
  match confirmationStatus st with
  | Some confirmed | Some finalized => true
  | _ => false
  end.

(** The result for a confirmed status that carries [err] (lines
    1240-1261): [errStr] is [JSON.stringify(status.value.err)]. *)
Definition decodeFailure (signature : string) (err : TransactionError)
    : SwapResult :=
  let errStr := errJson err in
  if includes errStr "6024" || includes errStr "1788"
  then slippageExceeded signature
  else failedOnChain signature.

Section Execution.
Context {sdk : Sdk}.

Definition swapOpts : SendOptions :=
  {| skipPreflight := false;
     preflightCommitment := Some "confirmed";
     maxRetries := Some 3 |}.

Definition executeSwap (swapTx : SwapTransaction) (signer : Keypair)
    : Prog SwapResult :=
  try_catch
    (let* recentBlockhash :=
       settle (VersionedTransaction_deserialize (transaction swapTx)) in
     let* _ := settle (VersionedTransaction_sign (transaction swapTx) signer) in
     let tx := DeserializedTx (transaction swapTx) [signer] in
     let* signature := await (sendTransaction tx swapOpts) in
     let* err :=
       await (confirmTransactionRace signature recentBlockhash
                (lastValidBlockHeight swapTx) SWAP_TIMEOUT_MS) in
     match err with
     | Some _ => Ret (failedOnChain signature)
     | None => Ret (succeeded signature)
     end)
    (fun e => Ret (explainError e)).

(** The loop over the relay endpoints; the result is [sent]. *)
Fixpoint sendViaJito (tx : Tx) (endpoints : list string) : Prog bool :=
  match endpoints with
  | [] => Ret false
  | endpoint :: rest =>
      let* accepted :=
        try_catch
          (let* response := await (fetch endpoint tx) in
           if ok response then
             let* result := settle (jsonResult response) in
             Ret (truthy result)
           else Ret false)
          (fun _ => Ret false) in
      if accepted then Ret true else sendViaJito tx rest
  end.

Definition jitoOpts : SendOptions :=
  {| skipPreflight := true;
     preflightCommitment := Some "confirmed";
     maxRetries := Some 0 |}.

(** [while (Date.now() - startTime < timeout)]: the loop is bounded by
    the clock only, so the embedding counts its turns with [fuel] and
    answers [None] when the count runs out before the clock does.
    [verdict] is the result that a turn returns, if it returns one; the
    [catch] of the turn ignores a failed poll. *)
Fixpoint pollStatus (fuel : nat) (signature : string) (startTime timeout : Z)
    : Prog (option SwapResult) :=
  match fuel with
  | O => Ret None
  | S fuel' =>
      let* now := Date_now in
      if now - startTime <? timeout then
        let* verdict :=
          try_catch
            (let* status := await (getSignatureStatus signature) in
             match status with
             | Some st =>
                 if isSettled st then
                   match statusErr st with
                   | Some err => Ret (Some (decodeFailure signature err))
                   | None =>
                       (* the elapsed time is read for the log line *)
                       let* _ := Date_now in
                       Ret (Some (succeeded signature))
                   end
                 else Ret None
             | None => Ret None
             end)
            (fun _ => Ret None) in
        match verdict with
        | Some res => Ret (Some res)
        | None =>
            let* _ := sleep 200 in
            pollStatus fuel' signature startTime timeout
        end
      else Ret (Some (succeeded signature))
  end.

Definition executeSwapJito (fuel : nat) (swapTx : SwapTransaction)
    (signer : Keypair) (tipLamports : Z) : Prog (option SwapResult) :=
  try_catch
    (let* _ := settle (VersionedTransaction_deserialize (transaction swapTx)) in
     let* _ := settle (VersionedTransaction_sign (transaction swapTx) signer) in
     let tx := DeserializedTx (transaction swapTx) [signer] in
     let signature := firstSignature tx in
     let* sent := sendViaJito tx JITO_TX_ENDPOINTS in
     let* _ :=
       if sent then Ret tt
       else let* _ := await (sendRawTransaction tx jitoOpts) in Ret tt in
     let* startTime := Date_now in
     pollStatus fuel signature startTime 8000)
    (fun _ => let* r := executeSwap swapTx signer in Ret (Some r)).

End Execution.

(** ** More of src/utils/squads.ts and src/utils/swap.ts *)

(** *** getProposalStatus *)

(** [multisig.getProposalPda] and
    [multisig.accounts.Proposal.fromAccountInfo]: the decoded account is
    handed back as it is, the code reads none of its fields. *)
Class ProposalSdk := {
  Proposal : Type;
  (** [multisig.getProposalPda({multisigPda, transactionIndex, programId})[0]]:
      throws on an index that does not fit in 64 bits *)
  getProposalPda : PublicKey -> Z -> PublicKey -> Settled PublicKey;
  (** [multisig.accounts.Proposal.fromAccountInfo(info)[0]] *)
  Proposal_fromAccountInfo : AccountInfo -> Settled Proposal
}.

Section ProposalStatus.
Context {proposals : ProposalSdk}.

(** [programId] is the optional fourth parameter, [SQUADS_PROGRAM_ID]
    when left out. *)
Definition getProposalStatus (multisigPda : PublicKey) (transactionIndex : Z)
    (programId : PublicKey) : Prog (option Proposal) :=
  try_catch
    (let* proposalPda :=
       settle (getProposalPda multisigPda transactionIndex programId) in
     let* proposalInfo := await (getAccountInfo proposalPda (Some "confirmed")) in
     match proposalInfo with
     | None => Ret None
     | Some info =>
         let* proposal := settle (Proposal_fromAccountInfo info) in
         Ret (Some proposal)
     end)
    (fun _ => Ret None).

End ProposalStatus.

(** *** The route of a quote (src/utils/swap.ts) *)

Record SwapRoute := mkSwapRoute {
  ammKey : string;
  label : string;
  inputMint : string;
  outputMint : string;
  inAmount : string;
  outAmount : string;
  feeAmount : string;
  feeMint : string;
  percent : Z
}.

(** [Boolean(text)]: only the empty text is falsy. *)
Definition Boolean (text : string) : bool :=
  match text with
  | EmptyString => false
  | String _ _ => true
  end.

(** [set.add(x)] on a [Set] of texts, kept in insertion order. *)
Definition Set_add (set : list string) (x : string) : list string :=
  if bool_decide (x ∈ set) then set else (set ++ [x])%list.

(** [[...new Set(labels)]] *)
Definition Set_of (labels : list string) : list string :=
  fold_left Set_add labels [].

(** [texts.join(separator)] *)
Definition join (separator : string) (texts : list string) : string :=
  match texts with
  | [] => EmptyString
  | first :: rest => fold_left (fun acc text => acc ++ separator ++ text) rest first
  end.

(** The separator of formatRoute: a space, U+2192 in UTF-8, a space. *)
Definition arrow : string :=
  String " " (String (ascii_of_nat 226) (String (ascii_of_nat 134)
    (String (ascii_of_nat 146) (String " " EmptyString)))).

(** [routePlan] is [None] for a plan that is [null] or [undefined]. *)
Definition formatRoute (routePlan : option (list SwapRoute)) : string :=
  match routePlan with
  | None => "Direct"
  | Some plan =>
      if (List.length plan =? 0)%nat then "Direct"
      else
        let labels := List.filter Boolean (map label plan) in
        match labels with
        | [] => "Direct"
        | [only] => only
        | _ => join arrow (Set_of labels)
        end
  end.

Definition getRouteDexes (routePlan : option (list SwapRoute)) : list string :=
  match routePlan with
  | None => []
  | Some plan => Set_of (List.filter Boolean (map label plan))
  end.

(** *** getPriceImpactLevel *)

Inductive PriceImpactLevel := safe | warning | danger | extreme.

(** A JS number as far as [>=] can tell: not a number, an infinity, or a
    finite value (every finite double is a rational). *)
Inductive Number :=
| NaN
| NegativeInfinity
| Finite (q : Q)
| Infinity.

(** [x >= bound] for an integer bound *)
Definition atLeast (x : Number) (bound : Z) : bool :=
  match x with
  | Finite q => Qle_bool (inject_Z bound) q
  | Infinity => true
  | NaN | NegativeInfinity => false
  end.

Definition MAX_PRICE_IMPACT_WARNING : Z := 1.
Definition MAX_PRICE_IMPACT_DANGER : Z := 5.
Definition MAX_PRICE_IMPACT_BLOCK : Z := 15.

(** [priceImpactPct] is a text or a number; [parseFloat] is the one of
    the JS runtime. *)
Definition getPriceImpactLevel (parseFloat : string -> Number)
    (priceImpactPct : string + Number) : PriceImpactLevel :=
  let impact :=
    match priceImpactPct with
    | inl text => parseFloat text
    | inr x => x
    end in
  if atLeast impact MAX_PRICE_IMPACT_BLOCK then extreme
  else if atLeast impact MAX_PRICE_IMPACT_DANGER then danger
  else if atLeast impact MAX_PRICE_IMPACT_WARNING then warning
  else safe.

(** ** A concrete library and a simulated ledger

    Used to run the programs on concrete inputs.  The derivations of
    [demoSdk] stand in for the hash-based ones of the real libraries; no
    theorem depends on them. *)

Module Demo.

Definition tagged (tag : Z) (k : PublicKey) : PublicKey :=
  map (fun b => Z.lxor b tag) k.

Definition publicKeyOfText (text : string) : Settled PublicKey :=
  match Base58.decode text with
  | Some bytes =>
      if (List.length bytes =? 32)%nat then Resolved bytes
      else Rejected (Error "Invalid public key input")
  | None => Rejected (Error "Non-base58 character")
  end.

(** The address of the transaction slot [index], for an index that fits
    in 64 bits. *)
Definition transactionPdaOf (multisigPda : PublicKey) (index : Z) : PublicKey :=
  alter (fun b => (b + index) mod 256) 31%nat (tagged 60 multisigPda).

(** The exception of a number that does not fit its field. *)
Definition outOfRange (value : Z) : JsError :=
  Error ("The value is out of range. Received " ++ pretty value).

#[local] Instance demoSdk : Sdk := {|
  Keypair_fromSeed seed := {| publicKey := tagged 17 seed; secretKey := seed |};
  PublicKey_new := publicKeyOfText;
  Buffer_from_base64 text :=
    map (fun c => Z.of_N (N_of_ascii c)) (list_ascii_of_string text);
  getMultisigPda createKey _ := tagged 90 createKey;
  getVaultPda multisigPda index _ :=
    alter (fun b => (b + index + 1) mod 256) 0%nat (tagged 165 multisigPda);
  getTransactionPda multisigPda index _ :=
    if (0 <=? index) && (index <? 2 ^ 64)
    then Resolved (transactionPdaOf multisigPda index)
    else Rejected (outOfRange index);
  getProgramConfigPda programId := tagged 3 programId;
  Multisig_fromAccountInfo info :=
    if equals (owner info) SQUADS_PROGRAM_ID
    then Resolved {| transactionIndex := Base58.valueOf (data info) |}
    else Rejected (Error "Invalid account discriminator");
  SystemProgram_transfer fromPubkey toPubkey lamports :=
    if (0 <=? lamports) && (lamports <? 2 ^ 64)
    then Resolved
           {| programId := SystemProgram_programId;
              keys := [ {| pubkey := fromPubkey; isSigner := true; isWritable := true |};
                        {| pubkey := toPubkey; isSigner := false; isWritable := true |} ];
              ixData := [2; lamports] |}
    else Rejected (outOfRange lamports);
  createMultisigCreateV2Instruction accounts args programId :=
    {| programId := programId;
       keys := [ {| pubkey := acc_programConfig accounts; isSigner := false; isWritable := false |};
                 {| pubkey := acc_treasury accounts; isSigner := false; isWritable := true |};
                 {| pubkey := acc_multisig accounts; isSigner := false; isWritable := true |};
                 {| pubkey := acc_createKey accounts; isSigner := true; isWritable := false |};
                 {| pubkey := acc_creator accounts; isSigner := true; isWritable := true |};
                 {| pubkey := acc_systemProgram accounts; isSigner := false; isWritable := false |} ];
       ixData := [arg_threshold args] |};
  multisigCreateV2Struct_serialize args :=
    if (0 <=? arg_threshold args) && (arg_threshold args <? 2 ^ 16)
    then Resolved tt
    else Rejected (outOfRange (arg_threshold args));
  Tx_sign tx :=
    match tx with
    | VaultTransactionCreateTx args _ =>
        if (List.length (instructions (vtc_transactionMessage args)) <=? 8)%nat
        then Resolved tt
        else Rejected (Error "encoding overruns Uint8Array")
    | _ => Resolved tt
    end;
  solText lamports := pretty lamports ++ "e-9";
  VersionedTransaction_deserialize text :=
    match text with
    | EmptyString => Rejected (Error "Reached end of buffer unexpectedly")
    | _ => Resolved "EkSnNWid2cvwEVnVx9aBqawnmiCNiDgp3gUdkDPTKN1N"
    end;
  VersionedTransaction_sign _ _ := Resolved tt;
  firstSignature tx :=
    match tx with
    | DeserializedTx text _ => "sig-" ++ text
    | _ => "sig"
    end
|}.

(** The ledger as the connection shows it. *)
Record Ledger := mkLedger {
  accounts : gmap PublicKey AccountInfo;
  (** the fate of the next submissions, in order: rejected with an error,
      or accepted; accepted once the list is used up *)
  faults : list (option JsError);
  (** what [getSignatureStatus] reports *)
  status : option SignatureStatus;
  (** whether the relay endpoints accept a transaction *)
  relayUp : bool;
  time : Z;
  submitted : nat
}.

Definition balanceOf (l : Ledger) (a : PublicKey) : Z :=
  match accounts l !! a with
  | Some info => lamports info
  | None => 0
  end.

Definition rentOfMultisig : Z := 2500000.
Definition networkFee : Z := 5000.

Definition debit (payer : PublicKey) (amount : Z)
    (accs : gmap PublicKey AccountInfo) : gmap PublicKey AccountInfo :=
  alter (fun info => {| owner := owner info;
                        lamports := lamports info - amount;
                        data := data info |}) payer accs.

(** A multisig creation makes the account at the third key of its
    instruction, owned by the program, and charges the payer. *)
Definition applyInstruction (payer : PublicKey) (ix : TransactionInstruction)
    (accs : gmap PublicKey AccountInfo) : gmap PublicKey AccountInfo :=
  match keys ix with
  | [_; _; target; _; _; _] =>
      if equals (programId ix) SQUADS_PROGRAM_ID then
        <[pubkey target := {| owner := SQUADS_PROGRAM_ID;
                              lamports := rentOfMultisig;
                              data := [0] |}]>
          (debit payer rentOfMultisig accs)
      else accs
  | _ => accs
  end.

Definition applyTx (tx : Tx) (accs : gmap PublicKey AccountInfo)
    : gmap PublicKey AccountInfo :=
  match tx with
  | V0Tx msg _ =>
      fold_right (applyInstruction (payerKey msg))
        (debit (payerKey msg) networkFee accs) (instructions msg)
  | VaultTransactionCreateTx args _ => debit (vtc_feePayer args) networkFee accs
  | ProposalCreateTx args _ => debit (pc_feePayer args) networkFee accs
  | DeserializedTx _ _ => accs
  end.

Definition submit (tx : Tx) (l : Ledger) : Settled string * Ledger :=
  match faults l with
  | Some e :: later =>
      (Rejected e,
       {| accounts := accounts l;
          faults := later;
          status := status l;
          relayUp := relayUp l;
          time := time l;
          submitted := submitted l |})
  | _ =>
      (Resolved ("signature-" ++ pretty (submitted l)),
       {| accounts := applyTx tx (accounts l);
          faults := tail (faults l);
          status := status l;
          relayUp := relayUp l;
          time := time l;
          submitted := S (submitted l) |})
  end.

Definition ledgerRespond (c : Rpc) : Ledger -> Settled (Resp c) * Ledger :=
  match c with
  | getAccountInfo a _ => fun l => (Resolved (accounts l !! a), l)
  | getBalance a => fun l => (Resolved (balanceOf l a), l)
  | getLatestBlockhash => fun l => (Resolved "EkSnNWid2cvwEVnVx9aBqawnmiCNiDgp3gUdkDPTKN1N", l)
  | sendTransaction tx _ => submit tx
  | sendRawTransaction tx _ => submit tx
  | confirmTransaction _ _ => fun l => (Resolved None, l)
  | confirmTransactionRace _ _ _ _ => fun l => (Resolved None, l)
  | getSignatureStatus _ => fun l => (Resolved (status l), l)
  | fetch _ _ => fun l =>
      (Resolved {| ok := relayUp l; jsonResult := Resolved (Some "accepted") |}, l)
  end.

Definition ledgerEnv : Env Ledger := {|
  respond := ledgerRespond;
  clock l := (time l, l);
  elapse ms l :=
    {| accounts := accounts l;
       faults := faults l;
       status := status l;
       relayUp := relayUp l;
       time := time l + ms;
       submitted := submitted l |}
|}.

Definition bytesFrom (start : nat) : list Z := map Z.of_nat (seq start 32).

Definition alice : Keypair :=
  {| publicKey := bytesFrom 1; secretKey := bytesFrom 101 |}.

(** the server-held approval key *)
Definition server : PublicKey := bytesFrom 40.

Definition funded (a : PublicKey) (amount : Z) : gmap PublicKey AccountInfo :=
  {[ a := {| owner := SystemProgram_programId; lamports := amount; data := [] |} ]}.

Definition ledgerWith (accs : gmap PublicKey AccountInfo)
    (script : list (option JsError)) (st : option SignatureStatus) : Ledger :=
  {| accounts := accs;
     faults := script;
     status := st;
     relayUp := true;
     time := 1700000000000;
     submitted := 0 |}.

(** *** Scenarios *)

Definition sol : Z := 1000000000.

Definition systemAccount (amount : Z) : AccountInfo :=
  {| owner := SystemProgram_programId; lamports := amount; data := [] |}.

Definition multisig0 : PublicKey := multisigPdaOf alice 0.
Definition vault0 : PublicKey := vaultPdaOf alice 0.
Definition recipient : PublicKey := bytesFrom 150.

Definition networkError : JsError :=
  {| message := "failed to send transaction: Network request failed";
     stringified := "{}";
     instanceofError := true |}.

Definition alreadyInUse : JsError :=
  {| message := "Simulation failed: custom program error: 0x177e (6014)";
     stringified := "{}";
     instanceofError := true |}.

(** the creator holds exactly 0.01 SOL *)
Definition tightLedger : Ledger :=
  ledgerWith (funded (publicKey alice) 10000000) [] None.

(** the creator holds 1 SOL *)
Definition plainLedger : Ledger :=
  ledgerWith (funded (publicKey alice) sol) [] None.

(** the first submission meets a network error *)
Definition flakyLedger : Ledger :=
  ledgerWith (funded (publicKey alice) sol) [Some networkError] None.

(** every submission meets a network error *)
Definition downLedger : Ledger :=
  ledgerWith (funded (publicKey alice) sol) (repeat (Some networkError) 10) None.

(** the first creation is refused as already initialized, while nothing
    is visible at its address *)
Definition zombieLedger : Ledger :=
  ledgerWith (funded (publicKey alice) sol) [Some alreadyInUse] None.

(** every address of the ten attempts is taken by a system account *)
Definition crowdedLedger : Ledger :=
  ledgerWith
    (fold_right
       (fun i accs => <[multisigPdaOf alice (Z.of_nat i) := systemAccount 1]> accs)
       (funded (publicKey alice) sol) (seq 0 10))
    [] None.

(** a provisioned multisig whose counter is 3, with the slots 4 and 5
    taken, and half a SOL in the vault *)
Definition vaultLedger : Ledger :=
  ledgerWith
    (<[multisig0 := {| owner := SQUADS_PROGRAM_ID; lamports := rentOfMultisig; data := [3] |}]>
       (<[vault0 := systemAccount (sol / 2)]>
          (<[transactionPdaOf multisig0 4 := systemAccount 1]>
             (<[transactionPdaOf multisig0 5 := systemAccount 1]>
                (funded (publicKey alice) sol)))))
    [] None.

Definition quote : string := String (ascii_of_nat 34) EmptyString.

(** [{"InstructionError":[2,{"Custom":6024}]}] *)
Definition slippageError : TransactionError :=
  {| errJson := "{" ++ quote ++ "InstructionError" ++ quote ++ ":[2,{"
                ++ quote ++ "Custom" ++ quote ++ ":6024}]}" |}.

Definition slippageLedger : Ledger :=
  ledgerWith (funded (publicKey alice) sol) []
    (Some {| statusErr := Some slippageError;
             confirmationStatus := Some confirmed |}).

Definition signerAccount (text : string) : SwapInstructionAccount :=
  {| sia_pubkey := text; sia_isSigner := true; sia_isWritable := true |}.

Definition aliceText : string := "4wBqpZM9xaSheZzJSMawUKKwhdpChKbZ5eu5ky4Vigw".
Definition vaultText : string := "2CyUQ8n5Cvq734ms5pybYKZQrc5TZn4PR3ET26w3gZjK".
Definition wsolText : string := "549dHb2x3Z6ovzKw34bo77rLM53gwSpyX9ycXBcQaNie".
Definition tempText : string := "75iVad1FnW1c7hqA82PMqP1DfqMj9MRaHPyJGaxNzNPr".
Definition poolText : string := "97HMseyZXSvQJRLPCzAvZeA6zbfmMG2B3dxz1zJMQN54".
Definition systemText : string := "11111111111111111111111111111111".

(** A bundle whose signers are the creator, the vault, and two temporary
    accounts, one of them named in two instructions. *)
Definition bundle : SwapInstructionsResponse :=
  {| computeBudgetInstructions :=
       [ {| sid_programId := systemText; sid_accounts := []; sid_data := "AsBcFQA=" |} ];
     setupInstructions :=
       [ {| sid_programId := systemText;
            sid_accounts := [signerAccount aliceText; signerAccount wsolText;
                             signerAccount vaultText];
            sid_data := "AQ==" |} ];
     swapInstruction :=
       {| sid_programId := poolText;
          sid_accounts := [signerAccount vaultText; signerAccount wsolText;
                           signerAccount tempText;
                           {| sia_pubkey := poolText; sia_isSigner := false;
                              sia_isWritable := true |}];
          sid_data := "5RfLl3rjrSo=" |};
     cleanupInstruction :=
       Some {| sid_programId := systemText;
               sid_accounts := [signerAccount tempText; signerAccount vaultText];
               sid_data := "CQ==" |};
     otherInstructions := [];
     addressLookupTableAddresses := [] |}.

Definition swapTx : SwapTransaction :=
  {| transaction := "AQAAAAAAAAAAAAAA";
     lastValidBlockHeight := 250000000;
     prioritizationFeeLamports := 10000 |}.

(** The programs of the scenarios. *)
Definition provision : Prog SquadResult := createSquad alice server 1.
Definition allocate : Prog Z := getNextTransactionIndex multisig0.
Definition transfer (amount index : Z) : Prog string :=
  createTransferProposal alice multisig0 vault0 recipient amount index.
Definition swap (index : Z) : Prog string :=
  createSwapProposal alice multisig0 vault0 bundle index.
Definition execute : Prog (option SwapResult) :=
  executeSwapJito 50 swapTx alice 1000000.

(** *** More scenarios *)

(** A connection that loses the cluster after [n] answered calls: every
    later call rejects with the network error. *)
Definition droppingRespond (c : Rpc) (s : nat * Ledger)
    : Settled (Resp c) * (nat * Ledger) :=
  match fst s with
  | O => (Rejected networkError, s)
  | S n => (fst (ledgerRespond c (snd s)), (n, snd (ledgerRespond c (snd s))))
  end.

Definition droppingEnv : Env (nat * Ledger) := {|
  respond := droppingRespond;
  clock s := (time (snd s), s);
  elapse ms s := (fst s, elapse ledgerEnv ms (snd s))
|}.

(** Another device creates the same multisig first: the creation is
    refused as already initialized, and the account is there from then
    on. *)
Definition racingRespond (c : Rpc) : Ledger -> Settled (Resp c) * Ledger :=
  match c with
  | sendTransaction tx _ => fun l => (Rejected alreadyInUse, snd (submit tx l))
  | c' => ledgerRespond c'
  end.

Definition racingEnv : Env Ledger := {|
  respond := racingRespond;
  clock := clock ledgerEnv;
  elapse := elapse ledgerEnv
|}.

(** The bundle with a swap program id that is not base58 text. *)
Definition brokenBundle : SwapInstructionsResponse :=
  {| computeBudgetInstructions := computeBudgetInstructions bundle;
     setupInstructions := setupInstructions bundle;
     swapInstruction :=
       {| sid_programId := "0OIl";
          sid_accounts := sid_accounts (swapInstruction bundle);
          sid_data := sid_data (swapInstruction bundle) |};
     cleanupInstruction := cleanupInstruction bundle;
     otherInstructions := otherInstructions bundle;
     addressLookupTableAddresses := addressLookupTableAddresses bundle |}.

(** The bundle with eight more instructions: a transaction that the
    library does not encode. *)
Definition oversizeBundle : SwapInstructionsResponse :=
  {| computeBudgetInstructions := computeBudgetInstructions bundle;
     setupInstructions := setupInstructions bundle;
     swapInstruction := swapInstruction bundle;
     cleanupInstruction := cleanupInstruction bundle;
     otherInstructions := repeat (swapInstruction bundle) 8;
     addressLookupTableAddresses := addressLookupTableAddresses bundle |}.

(** The first nine creations meet a network error, and the address of the
    last attempt is taken by a system account. *)
Definition failingLedger : Ledger :=
  ledgerWith
    (<[multisigPdaOf alice 9 := systemAccount 1]> (funded (publicKey alice) sol))
    (repeat (Some networkError) 9) None.

(** A multisig whose counter is the last 64-bit number. *)
Definition lastIndexLedger : Ledger :=
  ledgerWith
    (<[multisig0 := {| owner := SQUADS_PROGRAM_ID;
                       lamports := rentOfMultisig;
                       data := repeat 255 8 |}]>
       (funded (publicKey alice) sol))
    [] None.

Definition lackOfFunds : JsError :=
  {| message := "Transaction simulation failed: Insufficient Funds for fee";
     stringified := "{}";
     instanceofError := true |}.

(** the submission is refused for lack of funds *)
Definition brokeLedger : Ledger :=
  ledgerWith (funded (publicKey alice) 0) [Some lackOfFunds] None.

(** no relay endpoint takes the transaction, and the cluster reports it
    confirmed *)
Definition relayDownLedger : Ledger :=
  {| accounts := funded (publicKey alice) sol;
     faults := [];
     status := Some {| statusErr := None; confirmationStatus := Some confirmed |};
     relayUp := false;
     time := 1700000000000;
     submitted := 0 |}.

(** a transaction text that does not deserialize *)
Definition emptySwapTx : SwapTransaction :=
  {| transaction := EmptyString;
     lastValidBlockHeight := 250000000;
     prioritizationFeeLamports := 10000 |}.

(** A [parseFloat] for the scenarios: a text of decimal digits is read as
    the integer it spells, every other text is not a number. *)
Fixpoint digitsValue (text : string) (acc : Z) : option Z :=
  match text with
  | EmptyString => Some acc
  | String c rest =>
      let n := Z.of_N (N_of_ascii c) in
      if (48 <=? n) && (n <=? 57) then digitsValue rest (acc * 10 + (n - 48))
      else None
  end.

Definition parseDigits (text : string) : Number :=
  match text with
  | EmptyString => NaN
  | _ => match digitsValue text 0 with
         | Some n => Finite (inject_Z n)
         | None => NaN
         end
  end.

End Demo.

(** * Specification vocabulary *)

(** ** What a trace shows *)

(** Every account read of the trace was answered from [view]. *)
Definition answersFrom (view : PublicKey -> option AccountInfo) (tr : list Event) : Prop :=
  forall a cm r, In (EGetAccountInfo a cm r) tr -> r = Resolved (view a).

Definition isBalanceRead (ev : Event) : bool :=
  match ev with EGetBalance _ _ => true | _ => false end.

Definition isBlockhashRead (ev : Event) : bool :=
  match ev with EGetLatestBlockhash _ => true | _ => false end.

Definition isStatusRead (ev : Event) : bool :=
  match ev with EGetSignatureStatus _ _ => true | _ => false end.

(** A transaction leaves the client: through the connection or through a
    relay endpoint. *)
Definition isSubmission (ev : Event) : bool :=
  match ev with
  | ESendTransaction _ _ _ | ESendRawTransaction _ _ _ | EFetch _ _ _ => true
  | _ => false
  end.

(** The visibility polls: account reads and the pauses between them. *)
Definition isPoll (ev : Event) : bool :=
  match ev with
  | EGetAccountInfo _ _ _ | ESleep _ => true
  | _ => false
  end.

(** The exception that the awaited call of the event raised, if any. *)
Definition rejection (ev : Event) : option JsError :=
  match ev with
  | EGetAccountInfo _ _ (Rejected e) | EGetBalance _ (Rejected e)
  | EGetLatestBlockhash (Rejected e) | ESendTransaction _ _ (Rejected e)
  | ESendRawTransaction _ _ (Rejected e) | EConfirmTransaction _ _ (Rejected e)
  | EConfirmTransactionRace _ _ _ _ (Rejected e)
  | EGetSignatureStatus _ (Rejected e) | EFetch _ _ (Rejected e) => Some e
  | _ => None
  end.

(** [only P p]: every event of every run of [p] satisfies [P]. *)
Definition only {A} (P : Event -> bool) (p : Prog A) : Prop :=
  paths p (fun tr _ => forallb P tr = true).

Definition noSubmission (tr : list Event) : Prop :=
  forallb (fun ev => negb (isSubmission ev)) tr = true.

(** The writes of one proposal as a trace may show them, for the creator
    key, multisig and transaction index of the call: no write at all; or
    the vault-transaction write alone; or the vault-transaction write,
    resolved, then its awaited confirmation, then the proposal write.
    Nothing else is ever submitted. *)
Definition pairedWrites (creator : Keypair) (multisigPda : PublicKey)
    (transactionIndex : Z) (tr : list Event) : Prop :=
  noSubmission tr
  \/ exists pre args r post,
       tr = (pre ++ ESendRawTransaction (VaultTransactionCreateTx args [creator])
                     proposalOpts r :: post)%list
       /\ noSubmission pre
       /\ vtc_multisigPda args = multisigPda
       /\ vtc_transactionIndex args = transactionIndex
       /\ (noSubmission post
           \/ exists sig confirmation mid pargs r' post',
                r = Resolved sig
                /\ post = (EConfirmTransaction sig "confirmed" (Resolved confirmation)
                            :: mid
                            ++ ESendRawTransaction (ProposalCreateTx pargs [creator])
                                 proposalOpts r' :: post')%list
                /\ noSubmission mid
                /\ noSubmission post'
                /\ pc_multisigPda pargs = multisigPda
                /\ pc_transactionIndex pargs = transactionIndex).

Definition isRejected (ev : Event) : bool :=
  match rejection ev with Some _ => true | None => false end.

(** Every awaited call of the trace resolved. *)
Definition noRejection (tr : list Event) : Prop :=
  forallb (fun ev => negb (isRejected ev)) tr = true.

(** The accounts that the spec calls ephemeral signers: marked as
    signers, and neither the vault nor the creator. *)
Definition isEphemeralSigner (vaultPda creatorKey : PublicKey)
    (key : AccountMeta) : bool :=
  isSigner key
  && negb (equals (pubkey key) vaultPda)
  && negb (equals (pubkey key) creatorKey).

(** Their addresses, as a set: each distinct base58 address once, over
    all the instructions. *)
Definition ephemeralSignerSet (vaultPda creatorKey : PublicKey)
    (allInstructions : list TransactionInstruction) : gset string :=
  list_to_set
    (map (fun key => toBase58 (pubkey key))
       (List.filter (isEphemeralSigner vaultPda creatorKey)
          (concat (map keys allInstructions)))).

(** The polls that ask for the confirmed commitment. *)
Definition isConfirmedPoll (ev : Event) : bool :=
  match ev with
  | EGetAccountInfo _ (Some _) _ | ESleep _ => true
  | _ => false
  end.

(** The addresses looked up without a commitment, in the order of the
    trace: in createSquad, the first lookup of each attempt. *)
Fixpoint probed (tr : list Event) : list PublicKey :=
  match tr with
  | EGetAccountInfo a None _ :: rest => a :: probed rest
  | _ :: rest => probed rest
  | [] => []
  end.

(** A lookup of [pda] in the trace showed an account owned by the Squads
    program. *)
Definition verifiedAt (pda : PublicKey) (tr : list Event) : Prop :=
  exists cm info,
    In (EGetAccountInfo pda cm (Resolved (Some info))) tr
    /\ ownedBySquads (Some info) = true.

(** Every balance read of the trace resolved to at least [lo]. *)
Definition balanceAtLeast (lo : Z) (tr : list Event) : Prop :=
  forall a r, In (EGetBalance a r) tr -> exists b, r = Resolved b /\ lo <= b.

(** Every lookup of [pda] in the trace resolved to a value satisfying
    [P]. *)
Definition readsAs (P : option AccountInfo -> Prop) (pda : PublicKey)
    (tr : list Event) : Prop :=
  forall cm r, In (EGetAccountInfo pda cm r) tr -> exists x, r = Resolved x /\ P x.

(** An account that exists and is not owned by the Squads program. *)
Definition foreign (x : option AccountInfo) : Prop :=
  exists info, x = Some info /\ ownedBySquads (Some info) = false.

Definition slotError : JsError :=
  Error "Failed to find a valid Vault slot after multiple attempts.".

(** A signature status that is confirmed (or finalized) and carries an
    on-chain error whose JSON text contains the slippage code, in decimal
    (6024) or in hexadecimal (0x1788). *)
Definition slippageStatus (st : SignatureStatus) : Prop :=
  (confirmationStatus st = Some confirmed \/ confirmationStatus st = Some finalized)
  /\ exists err,
       statusErr st = Some err
       /\ (includes (errJson err) "6024" = true
           \/ includes (errJson err) "0x1788" = true).

Definition capacityError : JsError :=
  Error "Could not find free transaction index after 10 attempts".

Section Vocabulary.
Context {sdk : Sdk}.

(** The slot of [index] is free: no account at the address derived for
    it. *)
Definition freeSlot (view : PublicKey -> option AccountInfo)
    (multisigPda : PublicKey) (index : Z) : Prop :=
  exists pda,
    getTransactionPda multisigPda index SQUADS_PROGRAM_ID = Resolved pda
    /\ view pda = None.

(** The slot of [index] is occupied: an account at the address derived
    for it. *)
Definition takenSlot (view : PublicKey -> option AccountInfo)
    (multisigPda : PublicKey) (index : Z) : Prop :=
  exists pda info,
    getTransactionPda multisigPda index SQUADS_PROGRAM_ID = Resolved pda
    /\ view pda = Some info.

(** What the probing loop can end with: the first free slot, the capacity
    error after ten occupied slots, or the exception of the derivation at
    the first index that the library does not take. *)
Definition probeResult (view : PublicKey -> option AccountInfo)
    (multisigPda : PublicKey) (lo hi : Z) (o : Outcome Z) : Prop :=
  match o with
  | Returned index =>
      lo <= index < hi
      /\ freeSlot view multisigPda index
      /\ forall j, lo <= j < index -> takenSlot view multisigPda j
  | Thrown e =>
      (e = capacityError
       /\ forall j, lo <= j < hi -> takenSlot view multisigPda j)
      \/ exists k,
           lo <= k < hi
           /\ getTransactionPda multisigPda k SQUADS_PROGRAM_ID = Rejected e
           /\ forall j, lo <= j < k -> takenSlot view multisigPda j
  end.

(** The creation of attempt [i] was submitted, resolved to the signature
    of the result, and was confirmed without error. *)
Definition createdAt (creator : Keypair) (member2 : PublicKey) (threshold : Z)
    (i : Z) (tr : list Event) (r : SquadResult) : Prop :=
  exists blockhash,
    In (ESendTransaction (creationTx creator member2 threshold i blockhash)
          createOpts (Resolved (signature r))) tr
    /\ In (EConfirmTransaction (signature r) "confirmed" (Resolved None)) tr.

(** The recovered outcome for the addresses of attempt [i]. *)
Definition recovered (creator : Keypair) (i : Z) : SquadResult :=
  {| signature := "RECOVERED";
     multisigPda := multisigPdaOf creator i;
     vaultPda := vaultPdaOf creator i |}.

(** What the trace of attempt [i] shows, whatever the connection answers:
    one lookup without commitment, at the address derived for [i], and no
    other transaction than the creation for [i]. *)
Definition attemptShows (creator : Keypair) (member2 : PublicKey)
    (threshold : Z) (i : Z) (tr : list Event) : Prop :=
  probed tr = [multisigPdaOf creator i]
  /\ forall tx opts r,
       In (ESendTransaction tx opts r) tr ->
       exists blockhash,
         tx = creationTx creator member2 threshold i blockhash /\ opts = createOpts.

(** [r] is the address pair of attempt [i], verified or freshly created
    in the trace. *)
Definition resultOf (creator : Keypair) (member2 : PublicKey)
    (threshold : Z) (i : Z) (tr : list Event) (r : SquadResult) : Prop :=
  multisigPda r = multisigPdaOf creator i
  /\ vaultPda r = vaultPdaOf creator i
  /\ (verifiedAt (multisigPda r) tr \/ createdAt creator member2 threshold i tr r).

(** The result is the address pair of one of the ten attempts, and the
    trace shows that its multisig was either verified to be owned by the
    Squads program or freshly created. *)
Definition verifiedOrCreated (creator : Keypair) (member2 : PublicKey)
    (threshold : Z) (tr : list Event) (r : SquadResult) : Prop :=
  exists i,
    0 <= i < 10
    /\ multisigPda r = multisigPdaOf creator i
    /\ vaultPda r = vaultPdaOf creator i
    /\ (verifiedAt (multisigPda r) tr
        \/ createdAt creator member2 threshold i tr r).

(** Attempt [i], started in the state [s], ends without a result, as
    the answers of the environment show it: the first lookup finds an
    account that is not owned by the Squads program, and nothing is tried
    ([raised] is [None]); or it finds no account and the try block throws
    [e] ([raised] is [Some e]), after which, for an already-initialized
    error, no read of the re-verification shows an account owned by the
    Squads program.  [s'] is the state that the attempt leaves. *)
Definition failedAttempt {S} (env : Env S) (creator : Keypair)
    (member2 : PublicKey) (threshold : Z) (i : Z) (s : S)
    (raised : option JsError) (s' : S) : Prop :=
  let read := respond env (getAccountInfo (multisigPdaOf creator i) None) s in
  let try := run env (tryCreate creator member2 threshold i) (snd read) in
  let check := run env (verifyOwnership (multisigPdaOf creator i) 5) (final try) in
  (exists info,
      fst read = Resolved (Some info)
      /\ ownedBySquads (Some info) = false
      /\ raised = None
      /\ s' = snd read)
  \/ (exists e,
        fst read = Resolved None
        /\ outcome try = Thrown e
        /\ raised = Some e
        /\ if alreadyInitialized e
           then readsAs (fun x => ownedBySquads x = false)
                  (multisigPdaOf creator i) (trace check)
                /\ s' = final check
           else s' = final try).

(** The attempts [i], [i+1], ... all end without a result, one entry of
    [raised] each. *)
Fixpoint failedAttempts {S} (env : Env S) (creator : Keypair)
    (member2 : PublicKey) (threshold : Z) (i : Z) (s : S)
    (raised : list (option JsError)) (s' : S) : Prop :=
  match raised with
  | [] => s' = s
  | x :: rest =>
      exists s1,
        failedAttempt env creator member2 threshold i s x s1
        /\ failedAttempts env creator member2 threshold (i + 1) s1 rest s'
  end.

(** The error on record after an attempt that raised [x], when [last]
    was on record before it. *)
Definition recordedAfter (last x : option JsError) : option JsError :=
  match x with Some e => Some e | None => last end.

(** The error of the last attempt that raised one. *)
Definition lastRaised (raised : list (option JsError)) : option JsError :=
  fold_left recordedAfter raised None.




End Vocabulary.

(** ** Vocabulary of the further properties *)

Definition isAccountRead (ev : Event) : bool :=
  match ev with EGetAccountInfo _ _ _ => true | _ => false end.

(** An account lookup without a commitment: in createSquad, the existence
    check at the head of an attempt. *)
Definition isBareLookup (ev : Event) : bool :=
  match ev with EGetAccountInfo _ None _ => true | _ => false end.

(** The events of an attempt after its first lookup: neither a
    submission nor another existence check. *)
Definition quiet (ev : Event) : bool :=
  negb (isSubmission ev) && negb (isBareLookup ev).

(** A rejected existence check is the last step of the trace, and its
    exception is what the call throws. *)
Definition abortsOn {A} (tr : list Event) (o : Outcome A) : Prop :=
  forall a e,
    In (EGetAccountInfo a None (Rejected e)) tr ->
    o = Thrown e /\ exists pre, tr = (pre ++ [EGetAccountInfo a None (Rejected e)])%list.

Section MoreVocabulary.
Context {sdk : Sdk}.

(** What one attempt does, whatever the answers. *)
Definition attemptShape (creator : Keypair) (member2 : PublicKey)
    (threshold : Z) (i : Z) (tr : list Event) (o : Outcome Step) : Prop :=
  exists r0 rest,
    tr = EGetAccountInfo (multisigPdaOf creator i) None r0 :: rest
    /\ (forall e, r0 = Rejected e -> rest = [] /\ o = Thrown e)
    /\ (forallb quiet rest = true
        \/ exists bh res tail,
             r0 = Resolved None
             /\ rest = EGetLatestBlockhash (Resolved bh)
                       :: ESendTransaction
                            (creationTx creator member2 threshold i bh) createOpts res
                       :: tail
             /\ forallb quiet tail = true).


(** The submission of the creation of attempt [i], built on [blockhash]
    and answered by [res]. *)
Definition creationEvent (creator : Keypair) (member2 : PublicKey)
    (threshold : Z) (x : nat * string * Settled string) : Event :=
  ESendTransaction
    (creationTx creator member2 threshold (Z.of_nat (fst (fst x))) (snd (fst x)))
    createOpts (snd x).

(** Every creation in the trace comes right after a lookup that found
    nothing at the address of its attempt and the read of the blockhash it
    is built on. *)
Definition creationsGuarded (creator : Keypair) (member2 : PublicKey)
    (threshold : Z) (lo hi : Z) (tr : list Event) : Prop :=
  forall pre tx opts res post,
    tr = (pre ++ ESendTransaction tx opts res :: post)%list ->
    exists i blockhash pre',
      lo <= i < hi
      /\ tx = creationTx creator member2 threshold i blockhash
      /\ opts = createOpts
      /\ pre = (pre' ++ [EGetAccountInfo (multisigPdaOf creator i) None (Resolved None);
                         EGetLatestBlockhash (Resolved blockhash)])%list.

End MoreVocabulary.

(** The time spent in the pauses of a trace, in milliseconds. *)
Fixpoint sleepTime (tr : list Event) : Z :=
  match tr with
  | [] => 0
  | ESleep ms :: rest => ms + sleepTime rest
  | _ :: rest => sleepTime rest
  end.

Definition isPause (ev : Event) : bool :=
  match ev with ESleep _ => true | _ => false end.

(** The re-reads of an address that showed no account owned by the
    Squads program, each followed by its pause of one second. *)
Definition rereads (pda : PublicKey) (answers : list (option AccountInfo))
    : list Event :=
  concat (map (fun x => [EGetAccountInfo pda (Some "confirmed") (Resolved x);
                         ESleep 1000])
            answers).

(** How the re-verification of at most [retries] reads can go: no read
    showed an account owned by the Squads program, and the verdict is
    [false] after [retries] reads and as many pauses; or a read showed
    one, and the verdict is [true] at once; or a read rejected, and the
    rejection is thrown. *)
Definition verifyShape (pda : PublicKey) (retries : nat)
    (tr : list Event) (o : Outcome bool) : Prop :=
  exists unowned,
    Forall (fun x => ownedBySquads x = false) unowned
    /\ ((List.length unowned = retries
         /\ tr = rereads pda unowned
         /\ o = Returned false)
        \/ (exists info,
              (List.length unowned < retries)%nat
              /\ ownedBySquads (Some info) = true
              /\ tr = (rereads pda unowned
                       ++ [EGetAccountInfo pda (Some "confirmed")
                             (Resolved (Some info))])%list
              /\ o = Returned true)
        \/ (exists e,
              (List.length unowned < retries)%nat
              /\ tr = (rereads pda unowned
                       ++ [EGetAccountInfo pda (Some "confirmed") (Rejected e)])%list
              /\ o = Thrown e)).

(** [k] rounds of a visibility poll that found nothing: the read, then
    the pause. *)
Definition emptyPolls (pda : PublicKey) (ms : Z) (k : nat) : list Event :=
  concat (repeat [EGetAccountInfo pda (Some "confirmed") (Resolved None);
                  ESleep ms] k).

(** How a visibility poll of at most [retries] rounds can go: every round
    found nothing; or a round found the account; or a read rejected. *)
Definition waitShape (pda : PublicKey) (ms : Z) (retries : nat)
    (tr : list Event) (o : Outcome unit) : Prop :=
  (tr = emptyPolls pda ms retries /\ o = Returned tt)
  \/ (exists k info,
        (k < retries)%nat
        /\ tr = (emptyPolls pda ms k
                 ++ [EGetAccountInfo pda (Some "confirmed") (Resolved (Some info))])%list
        /\ o = Returned tt)
  \/ (exists k e,
        (k < retries)%nat
        /\ tr = (emptyPolls pda ms k
                 ++ [EGetAccountInfo pda (Some "confirmed") (Rejected e)])%list
        /\ o = Thrown e).

(** The last two events of a trace. *)
Definition lastTwo (tr : list Event) : option (Event * Event) :=
  match rev tr with
  | b :: a :: _ => Some (a, b)
  | _ => None
  end.

(** The instructions of a bundle in the order in which createSwapProposal
    pushes them. *)
Definition bundleOrder (swapInstructions : SwapInstructionsResponse)
    : list SwapInstructionData :=
  (computeBudgetInstructions swapInstructions
   ++ setupInstructions swapInstructions
   ++ [swapInstruction swapInstructions]
   ++ match cleanupInstruction swapInstructions with
      | Some ix => [ix]
      | None => []
      end
   ++ otherInstructions swapInstructions)%list.

(** The trace ends with the proposal write resolving to [sig] and the
    await of its confirmation resolving. *)
Definition endsWithProposal (creator : Keypair) (sig : string)
    (tr : list Event) : Prop :=
  exists pre pargs confirmation,
    tr = (pre ++ [ESendRawTransaction (ProposalCreateTx pargs [creator])
                    proposalOpts (Resolved sig);
                  EConfirmTransaction sig "confirmed" (Resolved confirmation)])%list.

(** The call returns [sig] exactly when its last two steps were the
    proposal write resolving to [sig] and the await of its confirmation
    resolving, whatever the confirmation reports. *)
Definition returnsProposalSignature (creator : Keypair)
    (tr : list Event) (o : Outcome string) : Prop :=
  forall sig,
    o = Returned sig <->
    exists pargs confirmation,
      lastTwo tr
      = Some (ESendRawTransaction (ProposalCreateTx pargs [creator]) proposalOpts
                (Resolved sig),
              EConfirmTransaction sig "confirmed" (Resolved confirmation)).

(** A relay endpoint took the transaction: the response is [ok] and the
    [result] member of its JSON body is truthy. *)
Definition accepted (r : Settled FetchResponse) : bool :=
  match r with
  | Resolved response =>
      ok response
      && match jsonResult response with
         | Resolved result => truthy result
         | Rejected _ => false
         end
  | Rejected _ => false
  end.

(** The requests that carry [tx] to the first endpoints of the list, one
    per answer, in the order of the list. *)
Definition relayed (tx : Tx) (endpoints : list string)
    (answers : list (Settled FetchResponse)) : list Event :=
  zip_with (fun endpoint answer => EFetch endpoint tx answer) endpoints answers.

(** How the relay loop can go: every endpoint was asked and refused; or
    the endpoints were asked in order up to the first that accepted. *)
Definition relayShape (tx : Tx) (endpoints : list string)
    (tr : list Event) (o : Outcome bool) : Prop :=
  exists refused,
    Forall (fun a => accepted a = false) refused
    /\ ((List.length refused = List.length endpoints
         /\ tr = relayed tx endpoints refused
         /\ o = Returned false)
        \/ exists a,
             accepted a = true
             /\ (List.length refused < List.length endpoints)%nat
             /\ tr = relayed tx endpoints (refused ++ [a])
             /\ o = Returned true).

(** What follows the first accepted relay request of a trace. *)
Fixpoint afterAccepted (tr : list Event) : option (list Event) :=
  match tr with
  | [] => None
  | EFetch _ _ a :: rest => if accepted a then Some rest else afterAccepted rest
  | _ :: rest => afterAccepted rest
  end.

Definition isRelayRequest (ev : Event) : bool :=
  match ev with EFetch _ _ _ => true | _ => false end.

(** The steps of the confirmation polling: clock readings, status reads
    and pauses. *)
Definition isPolling (ev : Event) : bool :=
  match ev with
  | EGetSignatureStatus _ _ | ESleep _ | ENow _ => true
  | _ => false
  end.

(** A status read of the trace showed [signature] confirmed (or
    finalized) without error. *)
Definition confirmedIn (signature : string) (tr : list Event) : Prop :=
  exists st,
    In (EGetSignatureStatus signature (Resolved (Some st))) tr
    /\ isSettled st = true
    /\ statusErr st = None.

(** The polling ran out of time: its last step is a clock reading at
    least [timeout] after [startTime], and no status read showed a
    settled status. *)
Definition timedOut (startTime timeout : Z) (tr : list Event) : Prop :=
  (exists before t,
      tr = (before ++ [ENow t])%list /\ timeout <= t - startTime)
  /\ forall sig st,
       In (EGetSignatureStatus sig (Resolved (Some st))) tr -> isSettled st = false.

(** What a verdict of the polling means when it reports success. *)
Definition pollVerdict (signature : string) (startTime timeout : Z)
    (polls : list Event) (verdict : option SwapResult) : Prop :=
  forallb isPolling polls = true
  /\ forall res,
       verdict = Some res ->
       success res = true ->
       res = succeeded signature
       /\ (confirmedIn signature polls \/ timedOut startTime timeout polls).

Definition isRaceConfirmation (ev : Event) : bool :=
  match ev with EConfirmTransactionRace _ _ _ _ _ => true | _ => false end.

Section EngineVocabulary.
Context {sdk : Sdk}.

(** The four ways in which a run of executeSwapJito can go: the
    transaction cannot be deserialized or signed; a relay accepted it;
    every relay refused it and the direct send resolved; every relay
    refused it and the direct send rejected, which hands over to
    executeSwap. *)
Definition jitoShape (swapTx : SwapTransaction) (signer : Keypair)
    (tr : list Event) (o : Outcome (option SwapResult)) : Prop :=
  let tx := DeserializedTx (transaction swapTx) [signer] in
  let signature := firstSignature tx in
  (exists e,
      (VersionedTransaction_deserialize (transaction swapTx) = Rejected e
       \/ VersionedTransaction_sign (transaction swapTx) signer = Rejected e)
      /\ tr = []
      /\ o = Returned (Some (explainError e)))
  \/ (exists refused a start polls verdict,
        Forall (fun a => accepted a = false) refused
        /\ accepted a = true
        /\ (List.length refused < List.length JITO_TX_ENDPOINTS)%nat
        /\ tr = (relayed tx JITO_TX_ENDPOINTS (refused ++ [a])
                 ++ ENow start :: polls)%list
        /\ pollVerdict signature start 8000 polls verdict
        /\ o = Returned verdict)
  \/ (exists refused sig start polls verdict,
        Forall (fun a => accepted a = false) refused
        /\ List.length refused = List.length JITO_TX_ENDPOINTS
        /\ tr = (relayed tx JITO_TX_ENDPOINTS refused
                 ++ ESendRawTransaction tx jitoOpts (Resolved sig)
                 :: ENow start :: polls)%list
        /\ pollVerdict signature start 8000 polls verdict
        /\ o = Returned verdict)
  \/ (exists refused e answer rest res,
        Forall (fun a => accepted a = false) refused
        /\ List.length refused = List.length JITO_TX_ENDPOINTS
        /\ tr = (relayed tx JITO_TX_ENDPOINTS refused
                 ++ ESendRawTransaction tx jitoOpts (Rejected e)
                 :: ESendTransaction tx swapOpts answer :: rest)%list
        /\ forallb isRaceConfirmation rest = true
        /\ o = Returned (Some res)
        /\ (success res = true ->
            exists sig blockhash,
              rest = [EConfirmTransactionRace sig blockhash
                        (lastValidBlockHeight swapTx) SWAP_TIMEOUT_MS
                        (Resolved None)]
              /\ res = succeeded sig)).

End EngineVocabulary.

(** The number of status reads of a trace. *)
Definition statusReads (tr : list Event) : nat :=
  List.length (List.filter isStatusRead tr).

(** The clock of the environment keeps pace with [now]: a reading is at
    least [now] of the state it is taken in and at most [now] of the
    state it leaves; no call moves [now] back; and a pause of [ms] moves
    it on by at least [ms]. *)
Definition clockAdvances {S} (env : Env S) (now : S -> Z) : Prop :=
  (forall s, now s <= fst (clock env s) <= now (snd (clock env s)))
  /\ (forall c s, now s <= now (snd (respond env c s)))
  /\ (forall ms s, now s + ms <= now (elapse env ms s)).

(** The bytes of a key: 0 to 255 each. *)
Definition isBytes (bytes : list Z) : Prop := Forall (fun b => 0 <= b < 256) bytes.

(** The keys of the accounts that the spec calls ephemeral signers, as a
    set. *)
Definition ephemeralSignerKeys (vaultPda creatorKey : PublicKey)
    (allInstructions : list TransactionInstruction) : gset (list Z) :=
  list_to_set
    (map pubkey
       (List.filter (isEphemeralSigner vaultPda creatorKey)
          (concat (map keys allInstructions)))).

Definition severity (level : PriceImpactLevel) : Z :=
  match level with
  | safe => 0
  | warning => 1
  | danger => 2
  | extreme => 3
  end.

(** [x <= y] on the numbers that are ordered. *)
Definition numberLe (x y : Number) : Prop :=
  match x, y with
  | NaN, _ | _, NaN => False
  | NegativeInfinity, _ => True
  | _, Infinity => True
  | Finite p, Finite q => Qle p q
  | _, _ => False
  end.

(** * Proofs *)

(** ** Reasoning along the paths of a program *)

Lemma after_outcome {S A} pre (r : Run S A) : outcome (after pre r) = outcome r.
Proof. reflexivity. Qed.

Lemma after_final {S A} pre (r : Run S A) : final (after pre r) = final r.
Proof. reflexivity. Qed.

Lemma paths_run {A} (p : Prog A) :
  forall Q, paths p Q ->
  forall S (env : Env S) s, Q (trace (run env p s)) (outcome (run env p s)).
Proof.
  induction p as [a|e|c k IH|ms k IH|k IH]; intros Q HQ S env s; simpl in *.
  - exact HQ.
  - exact HQ.
  - apply (IH _ _ (HQ _)).
  - apply (IH _ HQ).
  - apply (IH _ _ (HQ _)).
Qed.

Lemma paths_mono {A} (p : Prog A) :
  forall (Q Q' : list Event -> Outcome A -> Prop),
  (forall tr o, Q tr o -> Q' tr o) -> paths p Q -> paths p Q'.
Proof.
  induction p as [a|e|c k IH|ms k IH|k IH]; intros Q Q' Himp HQ; simpl in *.
  - auto.
  - auto.
  - intros r. eapply IH; [|apply HQ]. intros tr o; apply Himp.
  - eapply IH; [|apply HQ]. intros tr o; apply Himp.
  - intros t. eapply IH; [|apply HQ]. intros tr o; apply Himp.
Qed.

Lemma paths_any {A} (p : Prog A) (Q : list Event -> Outcome A -> Prop) :
  (forall tr o, Q tr o) -> paths p Q.
Proof.
  revert Q. induction p as [a|e|c k IH|ms k IH|k IH]; intros Q HQ; cbn [paths]; auto.
Qed.

Lemma paths_bind {A B} (p : Prog A) (f : A -> Prog B) :
  forall Q,
  paths p (fun tr o =>
             match o with
             | Returned a => paths (f a) (fun tr' o' => Q (tr ++ tr')%list o')
             | Thrown e => Q tr (Thrown e)
             end) ->
  paths (bind p f) Q.
Proof.
  induction p as [a|e|c k IH|ms k IH|k IH]; intros Q HQ; simpl in *.
  - exact HQ.
  - exact HQ.
  - intros r. apply IH. apply HQ.
  - apply IH. apply HQ.
  - intros t. apply IH. apply HQ.
Qed.

Lemma paths_try_catch {A} (p : Prog A) (h : JsError -> Prog A) :
  forall Q,
  paths p (fun tr o =>
             match o with
             | Returned a => Q tr (Returned a)
             | Thrown e => paths (h e) (fun tr' o' => Q (tr ++ tr')%list o')
             end) ->
  paths (try_catch p h) Q.
Proof.
  induction p as [a|e|c k IH|ms k IH|k IH]; intros Q HQ; simpl in *.
  - exact HQ.
  - exact HQ.
  - intros r. apply IH. apply HQ.
  - apply IH. apply HQ.
  - intros t. apply IH. apply HQ.
Qed.

Lemma paths_await_bind {B} (c : Rpc) (f : Resp c -> Prog B) Q :
  (forall r,
      match r with
      | Resolved x => paths (f x) (fun tr o => Q (mkEvent c r :: tr) o)
      | Rejected e => Q [mkEvent c r] (Thrown e)
      end) ->
  paths (bind (await c) f) Q.
Proof.
  intros H. unfold await. cbn [bind paths]. intros r.
  specialize (H r). destruct r; exact H.
Qed.

Lemma run_bind {S A B} (env : Env S) (p : Prog A) (f : A -> Prog B) :
  forall s,
  run env (bind p f) s =
  match outcome (run env p s) with
  | Returned a => after (trace (run env p s)) (run env (f a) (final (run env p s)))
  | Thrown e => mkRun (Thrown e) (trace (run env p s)) (final (run env p s))
  end.
Proof.
  induction p as [a|e|c k IH|ms k IH|k IH]; intros s; simpl.
  - destruct (run env (f a) s); reflexivity.
  - reflexivity.
  - rewrite IH. destruct (outcome (run env (k _) _)); reflexivity.
  - rewrite IH. destruct (outcome (run env k _)); reflexivity.
  - rewrite IH. destruct (outcome (run env (k _) _)); reflexivity.
Qed.

Lemma run_try_catch {S A} (env : Env S) (p : Prog A) (h : JsError -> Prog A) :
  forall s,
  run env (try_catch p h) s =
  match outcome (run env p s) with
  | Returned a => mkRun (Returned a) (trace (run env p s)) (final (run env p s))
  | Thrown e => after (trace (run env p s)) (run env (h e) (final (run env p s)))
  end.
Proof.
  induction p as [a|e|c k IH|ms k IH|k IH]; intros s; simpl.
  - reflexivity.
  - destruct (run env (h e) s); reflexivity.
  - rewrite IH. destruct (outcome (run env (k _) _)); reflexivity.
  - rewrite IH. destruct (outcome (run env k _)); reflexivity.
  - rewrite IH. destruct (outcome (run env (k _) _)); reflexivity.
Qed.

Lemma answersFrom_cons view ev tr :
  answersFrom view (ev :: tr) -> answersFrom view tr.
Proof. intros H a cm r Hin. apply (H a cm r). right. exact Hin. Qed.

Lemma answersFrom_head view a cm r tr :
  answersFrom view (EGetAccountInfo a cm r :: tr) -> r = Resolved (view a).
Proof. intros H. apply (H a cm r). left. reflexivity. Qed.

(** ** Transaction Index Allocator *)

Section Allocator.
Context {sdk : Sdk}.

Lemma free_not_taken view multisigPda index :
  freeSlot view multisigPda index -> takenSlot view multisigPda index -> False.
Proof.
  intros (pda & Hpda & Hnone) (pda' & info & Hpda' & Hsome). congruence.
Qed.

Lemma taken_derived view multisigPda index e :
  takenSlot view multisigPda index ->
  getTransactionPda multisigPda index SQUADS_PROGRAM_ID = Rejected e -> False.
Proof. intros (pda & info & Hpda & _) Hthrows. congruence. Qed.

Lemma free_derived view multisigPda index e :
  freeSlot view multisigPda index ->
  getTransactionPda multisigPda index SQUADS_PROGRAM_ID = Rejected e -> False.
Proof. intros (pda & Hpda & _) Hthrows. congruence. Qed.

Lemma probeResult_step view multisigPda lo hi pda info o :
  lo < hi ->
  getTransactionPda multisigPda lo SQUADS_PROGRAM_ID = Resolved pda ->
  view pda = Some info ->
  probeResult view multisigPda (lo + 1) hi o ->
  probeResult view multisigPda lo hi o.
Proof.
  intros Hlt Hpda Hinfo Ho.
  assert (Htaken : takenSlot view multisigPda lo) by (exists pda, info; auto).
  assert (Hbelow : forall k, (forall j, lo + 1 <= j < k -> takenSlot view multisigPda j) ->
                             forall j, lo <= j < k -> takenSlot view multisigPda j).
  { intros k Hk j Hj. destruct (Z.eq_dec j lo) as [->|Hne]; [exact Htaken|].
    apply Hk. lia. }
  destruct o as [index|e]; cbn [probeResult] in *.
  - destruct Ho as (Hrange & Hfree & Hsmall). split; [lia|]. split; [exact Hfree|].
    apply Hbelow, Hsmall.
  - destruct Ho as [[-> Hall]|(k & Hk & Hthrows & Hsmall)].
    + left. split; [reflexivity|]. apply Hbelow, Hall.
    + right. exists k. split; [lia|]. split; [exact Hthrows|].
      apply Hbelow, Hsmall.
Qed.

Lemma probeFrom_paths view multisigPda nextIndex remaining :
  forall offset,
  paths (probeFrom multisigPda nextIndex remaining offset)
    (fun tr o =>
       answersFrom view tr ->
       probeResult view multisigPda (nextIndex + offset)
         (nextIndex + offset + Z.of_nat remaining) o).
Proof.
  induction remaining as [|n IH]; intros offset.
  - simpl. intros _. left. split; [reflexivity|]. intros j Hj. lia.
  - cbn [probeFrom].
    destruct (getTransactionPda multisigPda (nextIndex + offset) SQUADS_PROGRAM_ID)
      as [pda|e] eqn:Hpda; cbn [settle bind].
    + unfold await. cbn [bind paths]. intros r.
      destruct r as [[info|]|e]; cbn [bind paths mkEvent].
      * eapply paths_mono; [|apply (IH (offset + 1))].
        intros tr o Ho Hview. pose proof (answersFrom_head _ _ _ _ _ Hview) as Hr.
        specialize (Ho (answersFrom_cons _ _ _ Hview)).
        apply (probeResult_step view multisigPda _ _ pda info); [lia|exact Hpda| |].
        -- congruence.
        -- replace (nextIndex + offset + 1) with (nextIndex + (offset + 1)) by lia.
           replace (nextIndex + offset + Z.of_nat (S n))
             with (nextIndex + (offset + 1) + Z.of_nat n) by lia.
           exact Ho.
      * intros Hview. pose proof (answersFrom_head _ _ _ _ _ Hview) as Hr.
        split; [lia|]. split.
        -- exists pda. split; [exact Hpda|congruence].
        -- intros j Hj. lia.
      * intros Hview. pose proof (answersFrom_head _ _ _ _ _ Hview) as Hr.
        discriminate.
    + cbn [paths]. intros _. right. exists (nextIndex + offset).
      split; [lia|]. split; [exact Hpda|]. intros j Hj. lia.
Qed.

Lemma getNextTransactionIndex_paths view multisigPda info account :
  view multisigPda = Some info ->
  Multisig_fromAccountInfo info = Resolved account ->
  paths (getNextTransactionIndex multisigPda)
    (fun tr o =>
       answersFrom view tr ->
       let c := transactionIndex account in
       probeResult view multisigPda (c + 1) (c + 11) o).
Proof.
  intros Hinfo Hdecode.
  unfold getNextTransactionIndex, await. cbn [bind paths mkEvent].
  intros r.
  destruct r as [found|e].
  - cbn [bind].
    destruct found as [info'|].
    + destruct (Multisig_fromAccountInfo info') as [account'|e] eqn:Hdecode';
        cbn [settle bind paths].
      * eapply paths_mono; [|apply (probeFrom_paths view multisigPda
                                      (transactionIndex account' + 1) 10 0)].
        intros tr o Ho Hview.
        pose proof (answersFrom_head _ _ _ _ _ Hview) as Hr.
        assert (info' = info) by congruence. subst info'.
        assert (account' = account) by congruence. subst account'.
        specialize (Ho (answersFrom_cons _ _ _ Hview)). cbv zeta.
        replace (transactionIndex account + 1 + 0)
          with (transactionIndex account + 1) in Ho by lia.
        replace (transactionIndex account + 1 + Z.of_nat 10)
          with (transactionIndex account + 11) in Ho by lia.
        exact Ho.
      * intros Hview. pose proof (answersFrom_head _ _ _ _ _ Hview) as Hr.
        assert (info' = info) by congruence. subst info'. congruence.
    + cbn [paths]. intros Hview.
      pose proof (answersFrom_head _ _ _ _ _ Hview) as Hr. congruence.
  - cbn [bind paths]. intros Hview.
    pose proof (answersFrom_head _ _ _ _ _ Hview) as Hr. discriminate.
Qed.

(** C2. For a multisig whose account exists and decodes to the counter
    [c], and a run whose account reads are answered from the ledger view:
    getNextTransactionIndex returns the smallest index of [c+1 .. c+10]
    whose derived vault-transaction address has no account, throws the
    capacity error when all ten are occupied, and whatever index it
    returns is free in that view, the indices before it being occupied.
    The only other way for it to end is the exception of the address
    derivation, at the first index that the library does not take, the
    indices before it being occupied. *)
Theorem getNextTransactionIndex_smallest_free
    S (env : Env S) (s : S) (view : PublicKey -> option AccountInfo)
    (multisigPda : PublicKey) (info : AccountInfo) (account : MultisigAccount) :
  let r := run env (getNextTransactionIndex multisigPda) s in
  let c := transactionIndex account in
  view multisigPda = Some info ->
  Multisig_fromAccountInfo info = Resolved account ->
  answersFrom view (trace r) ->
  (forall index,
      c + 1 <= index <= c + 10 ->
      freeSlot view multisigPda index ->
      (forall j, c + 1 <= j < index -> takenSlot view multisigPda j) ->
      outcome r = Returned index)
  /\ ((forall j, c + 1 <= j <= c + 10 -> takenSlot view multisigPda j) ->
      outcome r = Thrown capacityError)
  /\ (forall index, outcome r = Returned index ->
      c + 1 <= index <= c + 10
      /\ freeSlot view multisigPda index
      /\ forall j, c + 1 <= j < index -> takenSlot view multisigPda j)
  /\ (forall e, outcome r = Thrown e ->
      (e = capacityError
       /\ forall j, c + 1 <= j <= c + 10 -> takenSlot view multisigPda j)
      \/ exists k,
           c + 1 <= k <= c + 10
           /\ getTransactionPda multisigPda k SQUADS_PROGRAM_ID = Rejected e
           /\ forall j, c + 1 <= j < k -> takenSlot view multisigPda j).
Proof.
  intros r c Hinfo Hdecode Hview.
  pose proof (paths_run _ _ (getNextTransactionIndex_paths view multisigPda
                               info account Hinfo Hdecode) S env s Hview) as H.
  fold r c in H. cbv zeta in H.
  destruct (outcome r) as [index|e]; cbn [probeResult] in H.
  - destruct H as (Hrange & Hfree & Hsmall). split; [|split; [|split]].
    + intros index' Hrange' Hfree' Hsmall'. f_equal.
      destruct (Z.lt_total index index') as [Hlt|[Heq|Hgt]]; [|exact Heq|].
      * exfalso. apply (free_not_taken view multisigPda index Hfree).
        apply Hsmall'. lia.
      * exfalso. apply (free_not_taken view multisigPda index' Hfree').
        apply Hsmall. lia.
    + intros Hall. exfalso.
      apply (free_not_taken view multisigPda index Hfree). apply Hall. lia.
    + intros index' Heq. injection Heq as <-.
      split; [lia|]. split; [exact Hfree|exact Hsmall].
    + intros e Heq. discriminate.
  - split; [|split; [|split]].
    + intros index Hrange Hfree Hsmall. exfalso.
      destruct H as [[_ Hall]|(k & Hk & Hthrows & Hbelow)].
      * apply (free_not_taken view multisigPda index Hfree). apply Hall. lia.
      * destruct (Z.lt_total k index) as [Hlt|[->|Hgt]].
        -- apply (taken_derived view multisigPda k e); [|exact Hthrows].
           apply Hsmall. lia.
        -- apply (free_derived view multisigPda index e Hfree Hthrows).
        -- apply (free_not_taken view multisigPda index Hfree).
           apply Hbelow. lia.
    + intros Hall. destruct H as [[-> _]|(k & Hk & Hthrows & _)]; [reflexivity|].
      exfalso. apply (taken_derived view multisigPda k e); [|exact Hthrows].
      apply Hall. lia.
    + intros index Heq. discriminate.
    + intros e' Heq. injection Heq as <-.
      destruct H as [[-> Hall]|(k & Hk & Hthrows & Hbelow)].
      * left. split; [reflexivity|]. intros j Hj. apply Hall. lia.
      * right. exists k. split; [lia|]. split; [exact Hthrows|exact Hbelow].
Qed.

End Allocator.

(** ** Event classes *)

Lemma forallb_In {X} (P : X -> bool) l x :
  forallb P l = true -> In x l -> P x = true.
Proof. intros H Hin. rewrite forallb_forall in H. apply H, Hin. Qed.

Lemma forallb_weaken {X} (P P' : X -> bool) l :
  (forall x, P x = true -> P' x = true) ->
  forallb P l = true -> forallb P' l = true.
Proof.
  intros Himp H. rewrite forallb_forall in *. intros x Hx. apply Himp, H, Hx.
Qed.

Lemma only_Ret {A} P (a : A) : only P (Ret a).
Proof. reflexivity. Qed.

Lemma only_Throw {A} P e : only P (@Throw A e).
Proof. reflexivity. Qed.

Lemma only_settle {A} P (r : Settled A) : only P (settle r).
Proof. destruct r; reflexivity. Qed.

Lemma only_await P c :
  (forall r, P (mkEvent c r) = true) -> only P (await c).
Proof.
  intros H r. destruct r; simpl; rewrite H; reflexivity.
Qed.

Lemma only_Await {A} P c (k : Settled (Resp c) -> Prog A) :
  (forall r, P (mkEvent c r) = true /\ only P (k r)) -> only P (Await c k).
Proof.
  intros H r. destruct (H r) as [Hev Hk].
  eapply paths_mono; [|exact Hk]. intros tr o Htr. simpl. rewrite Hev. exact Htr.
Qed.

Lemma only_Sleep {A} P ms (k : Prog A) :
  P (ESleep ms) = true -> only P k -> only P (Sleep ms k).
Proof.
  intros Hev Hk. unfold only. cbn [paths].
  eapply paths_mono; [|exact Hk]. intros tr o Htr. simpl. rewrite Hev. exact Htr.
Qed.

Lemma only_Now {A} P (k : Z -> Prog A) :
  (forall t, P (ENow t) = true /\ only P (k t)) -> only P (Now k).
Proof.
  intros H t. destruct (H t) as [Hev Hk].
  eapply paths_mono; [|exact Hk]. intros tr o Htr. simpl. rewrite Hev. exact Htr.
Qed.

Lemma only_sleep P ms : P (ESleep ms) = true -> only P (sleep ms).
Proof. intros H. unfold only. simpl. rewrite H. reflexivity. Qed.

Lemma only_Date_now P : (forall t, P (ENow t) = true) -> only P Date_now.
Proof. intros H t. simpl. rewrite H. reflexivity. Qed.

Lemma only_bind {A B} P (p : Prog A) (f : A -> Prog B) :
  only P p -> (forall a, only P (f a)) -> only P (bind p f).
Proof.
  intros Hp Hf. apply paths_bind. eapply paths_mono; [|exact Hp].
  intros tr [a|e] Htr; simpl in *.
  - eapply paths_mono; [|apply Hf]. intros tr' o' Htr'.
    rewrite forallb_app, Htr, Htr'. reflexivity.
  - exact Htr.
Qed.

Lemma only_try_catch {A} P (p : Prog A) (h : JsError -> Prog A) :
  only P p -> (forall e, only P (h e)) -> only P (try_catch p h).
Proof.
  intros Hp Hh. apply paths_try_catch. eapply paths_mono; [|exact Hp].
  intros tr [a|e] Htr; simpl in *.
  - exact Htr.
  - eapply paths_mono; [|apply Hh]. intros tr' o' Htr'.
    rewrite forallb_app, Htr, Htr'. reflexivity.
Qed.

Lemma only_untilVisible P pda ms retries :
  (forall ev, isConfirmedPoll ev = true -> P ev = true) ->
  only P (untilVisible pda ms retries).
Proof.
  intros HP. induction retries as [|n IH]; cbn [untilVisible].
  - reflexivity.
  - apply only_bind.
    + apply only_await. intros r. apply HP. reflexivity.
    + intros [info|].
      * reflexivity.
      * apply only_bind; [apply only_sleep, HP; reflexivity|]. intros _. exact IH.
Qed.

Lemma only_verifyOwnership P pda retries :
  (forall ev, isConfirmedPoll ev = true -> P ev = true) ->
  only P (verifyOwnership pda retries).
Proof.
  intros HP. induction retries as [|n IH]; cbn [verifyOwnership].
  - reflexivity.
  - apply only_bind.
    + apply only_await. intros r. apply HP. reflexivity.
    + intros check. destruct (ownedBySquads check).
      * reflexivity.
      * apply only_bind; [apply only_sleep, HP; reflexivity|]. intros _. exact IH.
Qed.

(** One step of a proof that a program only raises events of a class. *)
Ltac only_step :=
  lazymatch goal with
  | |- only _ (bind _ _) => apply only_bind; [|intros ?]
  | |- only _ (try_catch _ _) => apply only_try_catch; [|intros ?]
  | |- only _ (await _) => apply only_await; intros ?; reflexivity
  | |- only _ (settle _) => apply only_settle
  | |- only _ (sleep _) => apply only_sleep; reflexivity
  | |- only _ Date_now => apply only_Date_now; intros ?; reflexivity
  | |- only _ (Await _ _) => apply only_Await; intros ?; split; [reflexivity|]
  | |- only _ (Sleep _ _) => apply only_Sleep; [reflexivity|]
  | |- only _ (Now _) => apply only_Now; intros ?; split; [reflexivity|]
  | |- only _ (Ret _) => apply only_Ret
  | |- only _ (Throw _) => apply only_Throw
  | |- only _ (untilVisible _ _ _) =>
      apply only_untilVisible; intros [] ?; (reflexivity || discriminate)
  | |- only _ (verifyOwnership _ _) =>
      apply only_verifyOwnership; intros [] ?; (reflexivity || discriminate)
  | |- only _ (match ?x with _ => _ end) => destruct x
  | |- only _ (if ?x then _ else _) => destruct x
  end.

Ltac only_tac := repeat only_step.

(** A library call that may throw: both cases. *)
Ltac settled :=
  lazymatch goal with
  | |- paths (bind (settle ?x) _) _ =>
      destruct x as [?|?] eqn:?; cbn [settle bind]
  end.

(** ** Vault Transaction Builder *)

Section Builder.
Context {sdk : Sdk}.

Lemma createTransferProposal_paths creator multisigPda vaultPda recipient
    amountLamports transactionIndex :
  paths (createTransferProposal creator multisigPda vaultPda recipient
           amountLamports transactionIndex)
    (fun tr o =>
       forall vaultBalance,
         In (EGetBalance vaultPda (Resolved vaultBalance)) tr ->
         vaultBalance < amountLamports ->
         o = Thrown (insufficientVaultBalance vaultBalance amountLamports)
         /\ exists polls,
              tr = (polls ++ [EGetBalance vaultPda (Resolved vaultBalance)])%list
              /\ forallb isPoll polls = true).
Proof.
  unfold createTransferProposal.
  apply paths_bind.
  eapply paths_mono; [|apply (only_untilVisible isPoll); intros [] ?; (reflexivity || discriminate)].
  intros polls [[]|e] Hpolls; cbn beta iota.
  - apply paths_await_bind. intros [vb'|e]; cbn [mkEvent].
    + destruct (vb' <? amountLamports) eqn:Hcmp.
      * cbn [paths]. intros vb Hin Hlt.
        apply in_app_or in Hin as [Hin|[Hin|[]]].
        { apply (forallb_In _ _ _ Hpolls) in Hin. discriminate. }
        injection Hin as ->. split; [reflexivity|]. exists polls. auto.
      * match goal with
        | |- paths ?p _ =>
            assert (Htail : only (fun ev => negb (isBalanceRead ev)) p)
              by only_tac
        end.
        eapply paths_mono; [|exact Htail].
        intros tr o Htr vb Hin Hlt. exfalso.
        apply in_app_or in Hin as [Hin|[Hin|Hin]].
        { apply (forallb_In _ _ _ Hpolls) in Hin. discriminate. }
        { injection Hin as ->. apply Z.ltb_ge in Hcmp. lia. }
        { apply (forallb_In _ _ _ Htr) in Hin. discriminate. }
    + intros vb Hin Hlt. exfalso.
      apply in_app_or in Hin as [Hin|[Hin|[]]].
      * apply (forallb_In _ _ _ Hpolls) in Hin. discriminate.
      * discriminate.
  - intros vb Hin Hlt. exfalso.
    apply (forallb_In _ _ _ Hpolls) in Hin. discriminate.
Qed.

Lemma pairedWrites_after creator multisigPda transactionIndex pre tr :
  noSubmission pre ->
  pairedWrites creator multisigPda transactionIndex tr ->
  pairedWrites creator multisigPda transactionIndex (pre ++ tr).
Proof.
  unfold noSubmission. intros Hpre [Hquiet|(pre' & args & r & post & -> & Hpre' & H)].
  - left. unfold noSubmission. rewrite forallb_app, Hpre, Hquiet. reflexivity.
  - right. exists (pre ++ pre')%list, args, r, post. split.
    + rewrite <- app_assoc. reflexivity.
    + split; [|exact H]. unfold noSubmission in *.
      rewrite forallb_app, Hpre, Hpre'. reflexivity.
Qed.

Lemma polls_noSubmission polls : forallb isPoll polls = true -> noSubmission polls.
Proof. apply forallb_weaken. intros [] ?; (reflexivity || discriminate). Qed.

(** Walking down a straight-line program, one awaited call at a time. *)
Ltac walk :=
  repeat first
    [ apply paths_try_catch
    | apply paths_await_bind; intros [?|?]; cbn [mkEvent]
    | settled
    | progress cbn [paths app] ].

(** Closing a leaf of [pairedWrites]: the trace is explicit. *)
Ltac paired_leaf :=
  first
    [ left; reflexivity
    | right; eexists [_], _, _, _;
      split; [reflexivity|];
      split; [reflexivity|]; split; [reflexivity|]; split; [reflexivity|];
      first
        [ left; reflexivity
        | right; eexists _, _, [_], _, _, _;
          split; [reflexivity|]; split; [reflexivity|];
          split; [reflexivity|]; split; [reflexivity|];
          split; reflexivity ] ].

Lemma createTransferProposal_pairedWrites creator multisigPda vaultPda recipient
    amountLamports transactionIndex :
  paths (createTransferProposal creator multisigPda vaultPda recipient
           amountLamports transactionIndex)
    (fun tr _ => pairedWrites creator multisigPda transactionIndex tr).
Proof.
  unfold createTransferProposal.
  apply paths_bind.
  eapply paths_mono; [|apply (only_untilVisible isPoll); intros [] ?; (reflexivity || discriminate)].
  intros polls [[]|e] Hpolls; cbn beta iota.
  - eapply paths_mono.
    { intros tr o H. apply pairedWrites_after; [apply polls_noSubmission, Hpolls|].
      exact H. }
    apply paths_await_bind. intros [vb|e]; cbn [mkEvent].
    + destruct (vb <? amountLamports).
      * left. reflexivity.
      * eapply paths_mono.
        { intros tr o H.
          apply (pairedWrites_after _ _ _ [EGetBalance vaultPda (Resolved vb)]);
            [reflexivity|]. exact H. }
        settled; [|left; reflexivity].
        apply paths_await_bind. intros [bh|e]; cbn [mkEvent].
        -- eapply paths_mono.
           { intros tr o H.
             apply (pairedWrites_after _ _ _ [EGetLatestBlockhash (Resolved bh)]);
               [reflexivity|]. exact H. }
           walk; paired_leaf.
        -- left. reflexivity.
    + left. reflexivity.
  - left. apply polls_noSubmission, Hpolls.
Qed.

Lemma createSwapProposal_pairedWrites creator multisigPda vaultPda
    swapInstructions transactionIndex :
  paths (createSwapProposal creator multisigPda vaultPda swapInstructions
           transactionIndex)
    (fun tr _ => pairedWrites creator multisigPda transactionIndex tr).
Proof.
  unfold createSwapProposal.
  apply paths_bind.
  eapply paths_mono; [|apply (only_untilVisible isPoll); intros [] ?; (reflexivity || discriminate)].
  intros polls [[]|e] Hpolls; cbn beta iota.
  - eapply paths_mono.
    { intros tr o H. apply pairedWrites_after; [apply polls_noSubmission, Hpolls|].
      exact H. }
    destruct (assemble swapInstructions) as [allInstructions|e]; cbn [settle bind].
    + apply paths_await_bind. intros [bh|e]; cbn [mkEvent].
      * eapply paths_mono.
        { intros tr o H.
          apply (pairedWrites_after _ _ _ [EGetLatestBlockhash (Resolved bh)]);
            [reflexivity|]. exact H. }
        walk; paired_leaf.
      * left. reflexivity.
    + left. reflexivity.
  - left. apply polls_noSubmission, Hpolls.
Qed.

(** C8. In every run of createTransferProposal and of createSwapProposal
    the submissions are paired and ordered: the vault-transaction write
    comes first, the proposal write is only submitted after the
    vault-transaction write resolved and its confirmation was awaited,
    both carry the transaction index (and multisig) of the call, and
    nothing else is submitted before, between or after them. *)
Theorem proposal_writes_ordered
    S (env : Env S) (s : S) (creator : Keypair)
    (multisigPda vaultPda recipient : PublicKey)
    (amountLamports transactionIndex : Z)
    (swapInstructions : SwapInstructionsResponse) :
  pairedWrites creator multisigPda transactionIndex
    (trace (run env (createTransferProposal creator multisigPda vaultPda
                       recipient amountLamports transactionIndex) s))
  /\ pairedWrites creator multisigPda transactionIndex
       (trace (run env (createSwapProposal creator multisigPda vaultPda
                          swapInstructions transactionIndex) s)).
Proof.
  split.
  - apply (paths_run _ _ (createTransferProposal_pairedWrites creator multisigPda
                            vaultPda recipient amountLamports transactionIndex)).
  - apply (paths_run _ _ (createSwapProposal_pairedWrites creator multisigPda
                            vaultPda swapInstructions transactionIndex)).
Qed.

(** *** The signer scan *)

Lemma visitKey_seen vaultPda creatorKey st key :
  snd (visitKey vaultPda creatorKey st key) =
  if isEphemeralSigner vaultPda creatorKey key
  then {[toBase58 (pubkey key)]} ∪ snd st
  else snd st.
Proof.
  unfold visitKey, isEphemeralSigner.
  destruct (isSigner key); cbn [negb andb]; [|reflexivity].
  destruct (equals (pubkey key) vaultPda); cbn [negb andb]; [reflexivity|].
  destruct (equals (pubkey key) creatorKey); cbn [negb andb]; [reflexivity|].
  case_bool_decide as Hseen; cbn [snd]; [|reflexivity].
  apply set_eq. intros x. set_solver.
Qed.

Lemma visitKey_count vaultPda creatorKey st key :
  fst st = Z.of_nat (size (snd st)) ->
  fst (visitKey vaultPda creatorKey st key) =
  Z.of_nat (size (snd (visitKey vaultPda creatorKey st key))).
Proof.
  intros Hst. unfold visitKey.
  destruct (isSigner key); cbn [negb]; [|exact Hst].
  destruct (equals (pubkey key) vaultPda); [exact Hst|].
  destruct (equals (pubkey key) creatorKey); [exact Hst|].
  case_bool_decide as Hseen; [exact Hst|].
  cbn [fst snd]. rewrite size_union by set_solver.
  rewrite size_singleton, Hst. lia.
Qed.

Lemma visitKeys_spec vaultPda creatorKey ks :
  forall st,
  let st' := fold_left (visitKey vaultPda creatorKey) ks st in
  snd st' =
    list_to_set (map (fun key => toBase58 (pubkey key))
                   (List.filter (isEphemeralSigner vaultPda creatorKey) ks))
    ∪ snd st
  /\ (fst st = Z.of_nat (size (snd st)) -> fst st' = Z.of_nat (size (snd st'))).
Proof.
  induction ks as [|key ks IH]; intros st; cbn [fold_left List.filter map].
  - split; [|auto]. cbn [list_to_set]. set_solver.
  - destruct (IH (visitKey vaultPda creatorKey st key)) as [Hseen Hcount].
    split.
    + rewrite Hseen, visitKey_seen.
      destruct (isEphemeralSigner vaultPda creatorKey key);
        cbn [map list_to_set]; set_solver.
    + intros Hst. apply Hcount, visitKey_count, Hst.
Qed.

Lemma scanSigners_flat vaultPda creatorKey ixs :
  forall st,
  fold_left (fun st ix => fold_left (visitKey vaultPda creatorKey) (keys ix) st) ixs st
  = fold_left (visitKey vaultPda creatorKey) (concat (map keys ixs)) st.
Proof.
  induction ixs as [|ix ixs IH]; intros st; cbn [fold_left map concat].
  - reflexivity.
  - rewrite fold_left_app. apply IH.
Qed.

Lemma scanSigners_spec vaultPda creatorKey ixs :
  snd (scanSigners vaultPda creatorKey ixs)
    = ephemeralSignerSet vaultPda creatorKey ixs
  /\ fst (scanSigners vaultPda creatorKey ixs)
    = Z.of_nat (size (ephemeralSignerSet vaultPda creatorKey ixs)).
Proof.
  unfold scanSigners, ephemeralSignerSet. rewrite scanSigners_flat.
  destruct (visitKeys_spec vaultPda creatorKey (concat (map keys ixs)) (0, ∅))
    as [Hseen Hcount].
  cbn [snd fst] in *. rewrite union_empty_r_L in Hseen.
  split; [exact Hseen|]. rewrite <- Hseen. apply Hcount.
  rewrite size_empty. reflexivity.
Qed.

Lemma in_after_polls ev polls tr :
  forallb isPoll polls = true -> isPoll ev = false ->
  In ev (polls ++ tr) -> In ev tr.
Proof.
  intros Hpolls Hev Hin. apply in_app_or in Hin as [Hin|Hin]; [|exact Hin].
  apply (forallb_In _ _ _ Hpolls) in Hin. congruence.
Qed.

Lemma createSwapProposal_declares creator multisigPda vaultPda
    swapInstructions transactionIndex :
  paths (createSwapProposal creator multisigPda vaultPda swapInstructions
           transactionIndex)
    (fun tr _ =>
       forall args signers opts r,
         In (ESendRawTransaction (VaultTransactionCreateTx args signers) opts r) tr ->
         exists allInstructions,
           assemble swapInstructions = Resolved allInstructions
           /\ instructions (vtc_transactionMessage args) = allInstructions
           /\ vtc_ephemeralSigners args =
              fst (scanSigners vaultPda (publicKey creator) allInstructions)).
Proof.
  unfold createSwapProposal.
  apply paths_bind.
  eapply paths_mono; [|apply (only_untilVisible isPoll); intros [] ?; (reflexivity || discriminate)].
  intros polls [[]|e] Hpolls; cbn beta iota.
  - eapply paths_mono.
    { intros tr o H args signers opts r Hin.
      apply in_after_polls in Hin; [|exact Hpolls|reflexivity].
      exact (H args signers opts r Hin). }
    destruct (assemble swapInstructions) as [allInstructions|e]; cbn [settle bind].
    + walk; intros args signers opts r Hin; cbn [In] in Hin;
        repeat (destruct Hin as [Hin|Hin]; try discriminate Hin);
        try contradiction;
        injection Hin as <- _ _ _; eexists; repeat split; reflexivity.
    + cbn [paths]. intros args signers opts r [].
  - intros args signers opts r Hin.
    apply (forallb_In _ _ _ Hpolls) in Hin. discriminate.
Qed.

(** C3. The signer scan of createSwapProposal counts exactly the distinct
    base58 addresses of the accounts that are marked as signers and are
    neither the vault nor the creator, over all assembled instructions;
    and every vault-transaction creation that the function submits
    carries the assembled instructions and declares that count as its
    number of ephemeral signers. *)
Theorem createSwapProposal_ephemeral_signers
    S (env : Env S) (s : S) (creator : Keypair)
    (multisigPda vaultPda : PublicKey)
    (swapInstructions : SwapInstructionsResponse) (transactionIndex : Z)
    (args : VaultTransactionCreateArgs) (signers : list Keypair)
    (opts : SendOptions) (r : Settled string) :
  In (ESendRawTransaction (VaultTransactionCreateTx args signers) opts r)
     (trace (run env (createSwapProposal creator multisigPda vaultPda
                        swapInstructions transactionIndex) s)) ->
  exists allInstructions,
    assemble swapInstructions = Resolved allInstructions
    /\ instructions (vtc_transactionMessage args) = allInstructions
    /\ fst (scanSigners vaultPda (publicKey creator) allInstructions)
       = Z.of_nat (size (ephemeralSignerSet vaultPda (publicKey creator)
                           allInstructions))
    /\ vtc_ephemeralSigners args
       = Z.of_nat (size (ephemeralSignerSet vaultPda (publicKey creator)
                           allInstructions)).
Proof.
  intros Hin.
  destruct (paths_run _ _ (createSwapProposal_declares creator multisigPda
              vaultPda swapInstructions transactionIndex)
              S env s args signers opts r Hin)
    as (allInstructions & Hassemble & Hmsg & Hdeclared).
  exists allInstructions.
  destruct (scanSigners_spec vaultPda (publicKey creator) allInstructions)
    as [_ Hcount].
  repeat split; try assumption. rewrite Hdeclared. exact Hcount.
Qed.

(** *** The swap path reads no balance *)











(** C5. When the vault balance read by createTransferProposal is strictly
    below the requested amount, the call throws the insufficient vault
    balance error and the balance read is the last thing it did: before
    it, only the visibility polls of the multisig; no blockhash was
    fetched to build the message and nothing was submitted. *)
Theorem createTransferProposal_insufficient_balance
    S (env : Env S) (s : S) (creator : Keypair)
    (multisigPda vaultPda recipient : PublicKey)
    (amountLamports transactionIndex vaultBalance : Z) :
  let r := run env (createTransferProposal creator multisigPda vaultPda
                      recipient amountLamports transactionIndex) s in
  In (EGetBalance vaultPda (Resolved vaultBalance)) (trace r) ->
  vaultBalance < amountLamports ->
  outcome r = Thrown (insufficientVaultBalance vaultBalance amountLamports)
  /\ (exists polls,
        trace r = (polls ++ [EGetBalance vaultPda (Resolved vaultBalance)])%list
        /\ forallb isPoll polls = true)
  /\ forallb (fun ev => negb (isSubmission ev) && negb (isBlockhashRead ev))
       (trace r) = true.
Proof.
  intros r Hin Hlt.
  destruct (paths_run _ _ (createTransferProposal_paths creator multisigPda
              vaultPda recipient amountLamports transactionIndex)
              S env s vaultBalance Hin Hlt) as (Ho & polls & Htr & Hpolls).
  fold r in Ho, Htr. split; [exact Ho|]. split; [eauto|].
  rewrite Htr, forallb_app. simpl. rewrite andb_true_r.
  eapply forallb_weaken; [|exact Hpolls]. intros [] ?; (reflexivity || discriminate).
Qed.

End Builder.

(** ** Multisig Provisioner *)

Lemma probed_app tr1 tr2 : probed (tr1 ++ tr2) = (probed tr1 ++ probed tr2)%list.
Proof.
  induction tr1 as [|ev tr1 IH]; [reflexivity|].
  destruct ev as [a [cm|] r| | | | | | | | | |]; cbn [probed app]; rewrite ?IH; reflexivity.
Qed.

Lemma probed_polls tr : forallb isConfirmedPoll tr = true -> probed tr = [].
Proof.
  induction tr as [|ev tr IH]; [reflexivity|]. cbn [forallb].
  intros H. apply andb_prop in H as [Hev Htr].
  destruct ev as [a [cm|] r| | | | | | | | | |]; try discriminate; cbn [probed]; auto.
Qed.

Lemma verifyOwnership_paths pda retries :
  paths (verifyOwnership pda retries)
    (fun tr o =>
       forallb isConfirmedPoll tr = true
       /\ (o = Returned true -> verifiedAt pda tr)).
Proof.
  induction retries as [|n IH]; cbn [verifyOwnership].
  - cbn [paths]. split; [reflexivity|]. intros H. discriminate.
  - apply paths_await_bind. intros [check|e]; cbn [mkEvent].
    + destruct (ownedBySquads check) eqn:Howned.
      * cbn [paths]. split; [reflexivity|]. intros _.
        destruct check as [info|]; [|discriminate].
        exists (Some "confirmed"), info. split; [left; reflexivity|exact Howned].
      * unfold sleep. cbn [bind paths]. eapply paths_mono; [|exact IH].
        intros tr o [Hpolls Hverified]. split; [exact Hpolls|].
        intros Ho. destruct (Hverified Ho) as (cm & info & Hin & Hinfo).
        exists cm, info. split; [right; right; exact Hin|exact Hinfo].
    + split; [reflexivity|]. intros H. discriminate.
Qed.

Lemma verifyOwnership_unverified pda retries :
  paths (verifyOwnership pda retries)
    (fun tr o =>
       readsAs (fun x => ownedBySquads x = false) pda tr -> o = Returned false).
Proof.
  induction retries as [|n IH]; cbn [verifyOwnership].
  - cbn [paths]. reflexivity.
  - apply paths_await_bind. intros [check|e]; cbn [mkEvent].
    + destruct (ownedBySquads check) eqn:Howned.
      * cbn [paths]. intros Hreads. exfalso.
        destruct (Hreads _ _ (or_introl eq_refl)) as (x & Hx & Hforeign).
        injection Hx as <-. congruence.
      * unfold sleep. cbn [bind paths]. eapply paths_mono; [|exact IH].
        intros tr o Ho Hreads. apply Ho.
        intros cm r Hin. apply (Hreads cm r). right. right. exact Hin.
    + intros Hreads. exfalso.
      destruct (Hreads _ _ (or_introl eq_refl)) as (x & Hx & _). discriminate.
Qed.

Section Provisioner.
Context {sdk : Sdk}.
Variables (creator : Keypair) (member2 : PublicKey) (threshold : Z).

Lemma tryCreate_paths i :
  paths (tryCreate creator member2 threshold i)
    (fun tr o =>
       probed tr = []
       /\ (forall tx opts r,
             In (ESendTransaction tx opts r) tr ->
             exists blockhash,
               tx = creationTx creator member2 threshold i blockhash
               /\ opts = createOpts)
       /\ (forall r, o = Returned r ->
             multisigPda r = multisigPdaOf creator i
             /\ vaultPda r = vaultPdaOf creator i
             /\ createdAt creator member2 threshold i tr r)).
Proof.
  unfold tryCreate.
  settled.
  2:{ cbn [paths]. split; [reflexivity|]. split.
      - intros tx opts r [].
      - intros r Hr. discriminate. }
  apply paths_await_bind. intros [bh|e]; cbn [mkEvent].
  2:{ split; [reflexivity|]. split.
      - intros tx opts r [Hin|[]]. discriminate.
      - intros r Hr. discriminate. }
  settled.
  2:{ cbn [paths]. split; [reflexivity|]. split.
      - intros tx opts r [Hin|[]]. discriminate.
      - intros r Hr. discriminate. }
  apply paths_await_bind. intros [sig|e]; cbn [mkEvent].
  2:{ split; [reflexivity|]. split.
      - intros tx opts r [Hin|[Hin|[]]]; [discriminate|].
        injection Hin as <- <- _. eauto.
      - intros r Hr. discriminate. }
  apply paths_await_bind. intros [[err|]|e]; cbn [mkEvent].
  - cbn [paths]. split; [reflexivity|]. split.
    + intros tx opts r [Hin|[Hin|[Hin|[]]]]; try discriminate.
      injection Hin as <- <- _. eauto.
    + intros r Hr. discriminate.
  - apply paths_bind.
    eapply paths_mono;
      [|apply (only_untilVisible isConfirmedPoll); intros ev Hev; exact Hev].
    intros polls [[]|e] Hpolls; cbn beta iota; cbn [paths app];
      rewrite ?app_nil_r.
    + split; [|split].
      * cbn [probed]. apply probed_polls, Hpolls.
      * intros tx opts r [Hin|[Hin|[Hin|Hin]]]; try discriminate.
        -- injection Hin as <- <- _. eauto.
        -- apply (forallb_In _ _ _ Hpolls) in Hin. discriminate.
      * intros r Hr. injection Hr as <-. cbn [multisigPda vaultPda signature].
        split; [reflexivity|]. split; [reflexivity|].
        exists bh. cbn [signature]. split.
        -- right. left. reflexivity.
        -- right. right. left. reflexivity.
    + split; [|split].
      * cbn [probed]. apply probed_polls, Hpolls.
      * intros tx opts r [Hin|[Hin|[Hin|Hin]]]; try discriminate.
        -- injection Hin as <- <- _. eauto.
        -- apply (forallb_In _ _ _ Hpolls) in Hin. discriminate.
      * intros r Hr. discriminate.
  - split; [reflexivity|]. split.
    + intros tx opts r [Hin|[Hin|[Hin|[]]]]; try discriminate.
      injection Hin as <- <- _. eauto.
    + intros r Hr. discriminate.
Qed.

Lemma createdAt_after i pre tr r :
  createdAt creator member2 threshold i tr r ->
  createdAt creator member2 threshold i (pre ++ tr) r.
Proof.
  intros (bh & Hsend & Hconfirm). exists bh. split; apply in_or_app; auto.
Qed.

Lemma verifiedAt_after pda pre tr :
  verifiedAt pda tr -> verifiedAt pda (pre ++ tr).
Proof.
  intros (cm & info & Hin & Hinfo). exists cm, info. split; [|exact Hinfo].
  apply in_or_app; auto.
Qed.

Lemma attempt_paths i lastError :
  paths (attempt creator member2 threshold i lastError)
    (fun tr o =>
       attemptShows creator member2 threshold i tr
       /\ forall r, o = Returned (Return r) ->
            resultOf creator member2 threshold i tr r).
Proof.
  unfold attempt, attemptShows, resultOf.
  apply paths_await_bind. intros [x|e]; cbn [mkEvent].
  2:{ split; [split; [reflexivity|]|].
      - intros tx opts r [Hin|[]]. discriminate.
      - intros r Hr. discriminate. }
  destruct (ownedBySquads x) eqn:Howned.
  { cbn [paths]. split; [split; [reflexivity|]|].
    - intros tx opts r [Hin|[]]. discriminate.
    - intros r Hr. injection Hr as <-. cbn [multisigPda vaultPda].
      split; [reflexivity|]. split; [reflexivity|]. left.
      destruct x as [info|]; [|discriminate].
      exists None, info. split; [left; reflexivity|exact Howned]. }
  destruct x as [info|].
  { cbn [paths]. split; [split; [reflexivity|]|].
    - intros tx opts r [Hin|[]]. discriminate.
    - intros r Hr. discriminate. }
  apply paths_try_catch. apply paths_bind.
  eapply paths_mono; [|apply tryCreate_paths].
  intros tr [r|e] (Hprobed & Hsends & Hres); cbn beta iota; cbn [paths app];
    rewrite ?app_nil_r.
  - split; [split|].
    + cbn [probed]. rewrite Hprobed. reflexivity.
    + intros tx opts r' [Hin|Hin]; [discriminate|]. apply (Hsends _ _ _ Hin).
    + intros r' Hr. injection Hr as <-.
      destruct (Hres r eq_refl) as (Hms & Hvault & Hcreated).
      split; [exact Hms|]. split; [exact Hvault|]. right.
      apply (createdAt_after i [_]), Hcreated.
  - unfold onCreateError. destruct (alreadyInitialized e).
    + apply paths_bind. eapply paths_mono; [|apply verifyOwnership_paths].
      intros polls [verified|e'] [Hpolls Hverified]; cbn beta iota.
      * assert (Hshows :
          probed (EGetAccountInfo (multisigPdaOf creator i) None (Resolved None)
                    :: tr ++ polls) = [multisigPdaOf creator i]
          /\ forall tx opts r,
               In (ESendTransaction tx opts r)
                  (EGetAccountInfo (multisigPdaOf creator i) None (Resolved None)
                     :: tr ++ polls) ->
               exists blockhash,
                 tx = creationTx creator member2 threshold i blockhash
                 /\ opts = createOpts).
        { split.
          - cbn [probed]. rewrite probed_app, Hprobed, (probed_polls _ Hpolls).
            reflexivity.
          - intros tx opts r [Hin|Hin]; [discriminate|].
            apply in_app_or in Hin as [Hin|Hin]; [apply (Hsends _ _ _ Hin)|].
            apply (forallb_In _ _ _ Hpolls) in Hin. discriminate. }
        destruct verified; cbn [paths app]; rewrite ?app_nil_r;
          (split; [exact Hshows|]).
        -- intros r Hr. injection Hr as <-. cbn [multisigPda vaultPda].
           split; [reflexivity|]. split; [reflexivity|]. left.
           apply (verifiedAt_after _ (_ :: tr)), Hverified. reflexivity.
        -- intros r Hr. discriminate.
      * split; [split|].
        -- cbn [probed]. rewrite probed_app, Hprobed, (probed_polls _ Hpolls).
           reflexivity.
        -- intros tx opts r [Hin|Hin]; [discriminate|].
           apply in_app_or in Hin as [Hin|Hin]; [apply (Hsends _ _ _ Hin)|].
           apply (forallb_In _ _ _ Hpolls) in Hin. discriminate.
        -- intros r Hr. discriminate.
    + cbn [paths app]; rewrite ?app_nil_r. split; [split|].
      * cbn [probed]. rewrite Hprobed. reflexivity.
      * intros tx opts r' [Hin|Hin]; [discriminate|]. apply (Hsends _ _ _ Hin).
      * intros r Hr. discriminate.
Qed.

Lemma resultOf_after i pre tr r :
  resultOf creator member2 threshold i tr r ->
  resultOf creator member2 threshold i (pre ++ tr) r.
Proof.
  intros (Hms & Hvault & [Hverified|Hcreated]).
  - split; [exact Hms|]. split; [exact Hvault|]. left.
    apply verifiedAt_after, Hverified.
  - split; [exact Hms|]. split; [exact Hvault|]. right.
    apply createdAt_after, Hcreated.
Qed.

Lemma probed_sequence i k :
  (multisigPdaOf creator i
     :: map (fun j => multisigPdaOf creator (i + 1 + Z.of_nat j)) (seq 0 k))
  = map (fun j => multisigPdaOf creator (i + Z.of_nat j)) (seq 0 (S k)).
Proof.
  cbn [seq map]. rewrite Z.add_0_r. f_equal.
  rewrite <- seq_shift, map_map. apply map_ext. intros j. f_equal. lia.
Qed.

Lemma attemptsFrom_paths n :
  forall i lastError,
  paths (attemptsFrom creator member2 threshold n i lastError)
    (fun tr o =>
       (exists k, (k <= n)%nat
                  /\ probed tr
                     = map (fun j => multisigPdaOf creator (i + Z.of_nat j)) (seq 0 k))
       /\ (forall tx opts r,
             In (ESendTransaction tx opts r) tr ->
             exists j blockhash,
               i <= j < i + Z.of_nat n
               /\ tx = creationTx creator member2 threshold j blockhash
               /\ opts = createOpts)
       /\ (forall r, o = Returned r ->
             exists j, i <= j < i + Z.of_nat n
                       /\ resultOf creator member2 threshold j tr r)).
Proof.
  induction n as [|n IH]; intros i lastError; cbn [attemptsFrom].
  - cbn [paths]. split; [|split].
    + exists 0%nat. split; [lia|reflexivity].
    + intros tx opts r [].
    + intros r Hr. discriminate.
  - apply paths_bind. eapply paths_mono; [|apply attempt_paths].
    intros tr [[r|lastError']|e] ((Hprobed & Hsends) & Hres); cbn beta iota.
    + cbn [paths]. rewrite app_nil_r. split; [|split].
      * exists 1%nat. split; [lia|]. rewrite Hprobed. cbn [seq map].
        rewrite Z.add_0_r. reflexivity.
      * intros tx opts r' Hin. destruct (Hsends _ _ _ Hin) as (bh & -> & ->).
        exists i, bh. split; [lia|auto].
      * intros r' Hr. injection Hr as <-. exists i. split; [lia|].
        apply Hres. reflexivity.
    + eapply paths_mono; [|apply (IH (i + 1) lastError')].
      intros tr' o ((k & Hk & Hprobed') & Hsends' & Hres'). split; [|split].
      * exists (S k). split; [lia|].
        rewrite probed_app, Hprobed, Hprobed'. apply probed_sequence.
      * intros tx opts r Hin. apply in_app_or in Hin as [Hin|Hin].
        -- destruct (Hsends _ _ _ Hin) as (bh & -> & ->).
           exists i, bh. split; [lia|auto].
        -- destruct (Hsends' _ _ _ Hin) as (j & bh & Hj & -> & ->).
           exists j, bh. split; [lia|auto].
      * intros r Hr. destruct (Hres' r Hr) as (j & Hj & Hresult).
        exists j. split; [lia|]. apply resultOf_after, Hresult.
    + split; [|split].
      * exists 1%nat. split; [lia|]. rewrite Hprobed. cbn [seq map].
        rewrite Z.add_0_r. reflexivity.
      * intros tx opts r' Hin. destruct (Hsends _ _ _ Hin) as (bh & -> & ->).
        exists i, bh. split; [lia|auto].
      * intros r Hr. discriminate.
Qed.

Lemma createSquad_paths :
  paths (createSquad creator member2 threshold)
    (fun tr o =>
       (exists k, (k <= 10)%nat
                  /\ probed tr
                     = map (fun j => multisigPdaOf creator (Z.of_nat j)) (seq 0 k))
       /\ (forall tx opts r,
             In (ESendTransaction tx opts r) tr ->
             exists i blockhash,
               0 <= i < 10
               /\ tx = creationTx creator member2 threshold i blockhash
               /\ opts = createOpts)
       /\ (forall r, o = Returned r ->
             verifiedOrCreated creator member2 threshold tr r)).
Proof.
  unfold createSquad.
  apply paths_await_bind. intros [balance|e]; cbn [mkEvent].
  2:{ split; [|split].
      - exists 0%nat. split; [lia|reflexivity].
      - intros tx opts r [Hin|[]]. discriminate.
      - intros r Hr. discriminate. }
  destruct (balance <? 10000000).
  { cbn [paths]. split; [|split].
    - exists 0%nat. split; [lia|reflexivity].
    - intros tx opts r [Hin|[]]. discriminate.
    - intros r Hr. discriminate. }
  eapply paths_mono; [|apply (attemptsFrom_paths MAX_ATTEMPTS 0 None)].
  intros tr o ((k & Hk & Hprobed) & Hsends & Hres). split; [|split].
  - exists k. split; [exact Hk|]. cbn [probed]. rewrite Hprobed.
    apply map_ext. intros j. f_equal.
  - intros tx opts r [Hin|Hin]; [discriminate|].
    destruct (Hsends _ _ _ Hin) as (j & bh & Hj & -> & ->).
    exists j, bh. unfold MAX_ATTEMPTS in Hj. split; [lia|auto].
  - intros r Hr. destruct (Hres r Hr) as (j & Hj & Hms & Hvault & Hjust).
    exists j. unfold MAX_ATTEMPTS in Hj. split; [lia|].
    split; [exact Hms|]. split; [exact Hvault|].
    destruct Hjust as [Hverified|Hcreated].
    + left. apply (verifiedAt_after _ [_]), Hverified.
    + right. apply (createdAt_after _ [_]), Hcreated.
Qed.

End Provisioner.

Lemma lxor_byte b : 0 <= b < 256 -> Z.lxor b 255 mod 256 = Z.lxor b 255.
Proof.
  intros Hb. apply Z.mod_small. split.
  - apply Z.lxor_nonneg. lia.
  - destruct (Z.eq_dec (Z.lxor b 255) 0) as [->|Hne]; [lia|].
    apply (Z.log2_lt_pow2 _ 8); [pose proof (Z.lxor_nonneg b 255); lia|].
    eapply Z.le_lt_trans; [apply Z.log2_lxor; lia|].
    apply Z.max_lub_lt.
    + destruct (Z.eq_dec b 0) as [->|Hb0]; [reflexivity|].
      apply Z.log2_lt_pow2; lia.
    + reflexivity.
Qed.

Lemma seedOf_flips (creator : Keypair) (i : Z) :
  0 <= i ->
  List.length (publicKey creator) = 32%nat ->
  Forall (fun b => 0 <= b < 256) (publicKey creator) ->
  exists b,
    publicKey creator !! Z.to_nat (i mod 32) = Some b
    /\ seedOf creator i = <[Z.to_nat (i mod 32) := Z.lxor b 255]> (publicKey creator).
Proof.
  intros Hi Hlen Hbytes.
  assert (Hk : (Z.to_nat (i mod 32) < List.length (publicKey creator))%nat).
  { rewrite Hlen. pose proof (Z.mod_pos_bound i 32). lia. }
  destruct (lookup_lt_is_Some_2 _ _ Hk) as [b Hb].
  exists b. split; [exact Hb|]. unfold seedOf. cbv zeta.
  apply list_eq. intros j.
  destruct (decide (j = Z.to_nat (i mod 32))) as [->|Hne].
  - rewrite list_lookup_alter_eq, Hb, list_lookup_insert_eq by exact Hk. cbn.
    rewrite lxor_byte; [reflexivity|].
    rewrite Forall_forall in Hbytes. apply Hbytes.
    eapply list_elem_of_lookup_2, Hb.
  - rewrite list_lookup_alter_ne, list_lookup_insert_ne by auto. reflexivity.
Qed.


Lemma run_await {S} (env : Env S) (c : Rpc) (s : S) :
  run env (await c) s =
  match fst (respond env c s) with
  | Resolved x =>
      mkRun (Returned x) [mkEvent c (Resolved x)] (snd (respond env c s))
  | Rejected e =>
      mkRun (Thrown e) [mkEvent c (Rejected e)] (snd (respond env c s))
  end.
Proof.
  unfold await. cbn [run]. destruct (fst (respond env c s)); reflexivity.
Qed.

Lemma recordedAfter_none raised :
  (forall x, In x raised -> x = None) ->
  forall last, fold_left recordedAfter raised last = last.
Proof.
  induction raised as [|x raised IH]; intros Hnone last; [reflexivity|].
  cbn [fold_left]. rewrite (Hnone x (or_introl eq_refl)). cbn [recordedAfter].
  apply IH. intros y Hy. apply Hnone. right. exact Hy.
Qed.

Lemma lastRaised_none raised :
  (forall x, In x raised -> x = None) -> lastRaised raised = None.
Proof. intros Hnone. apply recordedAfter_none, Hnone. Qed.

Lemma lastRaised_last earlier e later :
  (forall x, In x later -> x = None) ->
  lastRaised (earlier ++ Some e :: later) = Some e.
Proof.
  intros Hnone. unfold lastRaised. rewrite fold_left_app. cbn [fold_left].
  cbn [recordedAfter]. apply recordedAfter_none, Hnone.
Qed.

Section ProvisionerRuns.
Context {sdk : Sdk} {S : Type} (env : Env S).
Variables (creator : Keypair) (member2 : PublicKey) (threshold : Z).

Lemma run_attempt_foreign s i lastError info :
  fst (respond env (getAccountInfo (multisigPdaOf creator i) None) s)
    = Resolved (Some info) ->
  ownedBySquads (Some info) = false ->
  run env (attempt creator member2 threshold i lastError) s =
  mkRun (Returned (Continue lastError))
    [EGetAccountInfo (multisigPdaOf creator i) None (Resolved (Some info))]
    (snd (respond env (getAccountInfo (multisigPdaOf creator i) None) s)).
Proof.
  intros Hread Hforeign. unfold attempt.
  rewrite run_bind, run_await, Hread. cbn [outcome trace final mkEvent].
  rewrite Hforeign. reflexivity.
Qed.

Lemma run_attempt_unverified s i lastError e :
  let read := respond env (getAccountInfo (multisigPdaOf creator i) None) s in
  let try := run env (tryCreate creator member2 threshold i) (snd read) in
  let check := run env (verifyOwnership (multisigPdaOf creator i) 5) (final try) in
  fst read = Resolved None ->
  outcome try = Thrown e ->
  alreadyInitialized e = true ->
  outcome check = Returned false ->
  run env (attempt creator member2 threshold i lastError) s =
  mkRun (Returned (Continue (Some e)))
    (EGetAccountInfo (multisigPdaOf creator i) None (Resolved None)
       :: trace try ++ trace check)
    (final check).
Proof.
  intros read try check Hread Htry Hinit Hcheck. unfold attempt.
  rewrite run_bind, run_await. fold read. rewrite Hread.
  cbn [outcome trace final mkEvent ownedBySquads].
  rewrite run_try_catch, run_bind. fold try. rewrite Htry.
  cbn [outcome trace final]. unfold onCreateError. rewrite Hinit.
  rewrite run_bind. fold check. rewrite Hcheck.
  cbn [run]. unfold after. cbn [outcome trace final app].
  rewrite app_nil_r. reflexivity.
Qed.

Lemma run_attempt_raised s i lastError e :
  let read := respond env (getAccountInfo (multisigPdaOf creator i) None) s in
  let try := run env (tryCreate creator member2 threshold i) (snd read) in
  fst read = Resolved None ->
  outcome try = Thrown e ->
  alreadyInitialized e = false ->
  run env (attempt creator member2 threshold i lastError) s =
  mkRun (Returned (Continue (Some e)))
    (EGetAccountInfo (multisigPdaOf creator i) None (Resolved None) :: trace try)
    (final try).
Proof.
  intros read try Hread Htry Hinit. unfold attempt.
  rewrite run_bind, run_await. fold read. rewrite Hread.
  cbn [outcome trace final mkEvent ownedBySquads].
  rewrite run_try_catch, run_bind. fold try. rewrite Htry.
  cbn [outcome trace final]. unfold onCreateError. rewrite Hinit.
  cbn [run]. unfold after. cbn [outcome trace final app].
  rewrite app_nil_r. reflexivity.
Qed.

Lemma failedAttempt_run s i lastError x s1 :
  failedAttempt env creator member2 threshold i s x s1 ->
  outcome (run env (attempt creator member2 threshold i lastError) s)
    = Returned (Continue (recordedAfter lastError x))
  /\ final (run env (attempt creator member2 threshold i lastError) s) = s1.
Proof.
  unfold failedAttempt. cbv zeta.
  intros [(info & Hread & Hforeign & -> & ->)|(e & Hread & Htry & -> & Hrest)].
  - rewrite (run_attempt_foreign s i lastError info Hread Hforeign).
    split; reflexivity.
  - destruct (alreadyInitialized e) eqn:Hinit.
    + destruct Hrest as [Hreads ->].
      assert (Hcheck :
        outcome (run env (verifyOwnership (multisigPdaOf creator i) 5)
                   (final (run env (tryCreate creator member2 threshold i)
                             (snd (respond env
                                     (getAccountInfo (multisigPdaOf creator i) None)
                                     s)))))
        = Returned false)
        by apply (paths_run _ _ (verifyOwnership_unverified _ _) S env _ Hreads).
      rewrite (run_attempt_unverified s i lastError e Hread Htry Hinit Hcheck).
      split; reflexivity.
    + subst s1.
      rewrite (run_attempt_raised s i lastError e Hread Htry Hinit).
      split; reflexivity.
Qed.

Lemma failedAttempts_exhaust raised :
  forall i lastError s s',
  failedAttempts env creator member2 threshold i s raised s' ->
  outcome (run env (attemptsFrom creator member2 threshold (List.length raised)
                      i lastError) s)
    = Thrown (orElse (fold_left recordedAfter raised lastError) slotError)
  /\ final (run env (attemptsFrom creator member2 threshold (List.length raised)
                       i lastError) s) = s'.
Proof.
  induction raised as [|x raised IH]; intros i lastError s s';
    cbn [failedAttempts List.length attemptsFrom fold_left].
  - intros ->. split; reflexivity.
  - intros (s1 & Hfirst & Hrest). rewrite run_bind.
    destruct (failedAttempt_run s i lastError x s1 Hfirst) as [Ho Hs].
    rewrite Ho, Hs. rewrite after_outcome, after_final.
    apply IH, Hrest.
Qed.

End ProvisionerRuns.

Lemma readsAs_tail P pda ev tr : readsAs P pda (ev :: tr) -> readsAs P pda tr.
Proof. intros H cm r Hin. apply (H cm r). right. exact Hin. Qed.

Section Recovery.
Context {sdk : Sdk}.
Variables (creator : Keypair) (member2 : PublicKey) (threshold : Z).

Lemma attemptsFrom_recovers i n :
  forall j lastError,
  0 <= j <= i -> i < j + Z.of_nat n ->
  paths (attemptsFrom creator member2 threshold n j lastError)
    (fun tr o =>
       (forall k, j <= k < i -> readsAs foreign (multisigPdaOf creator k) tr) ->
       readsAs (fun x => ownedBySquads x = true) (multisigPdaOf creator i) tr ->
       o = Returned (recovered creator i) /\ noSubmission tr).
Proof.
  induction n as [|n IH]; intros j lastError Hj Hn; [lia|].
  cbn [attemptsFrom]. apply paths_bind. unfold attempt.
  apply paths_await_bind. intros r.
  set (ev := mkEvent (getAccountInfo (multisigPdaOf creator j) None) r).
  (* the answers that the assumptions on the trace exclude *)
  assert (Hvacuous :
    forall (A : Type) (p : Prog A) (g : A -> Prog SquadResult),
      ((forall k, j <= k < i -> readsAs foreign (multisigPdaOf creator k) [ev]) ->
       readsAs (fun x => ownedBySquads x = true) (multisigPdaOf creator i) [ev] ->
       False) ->
      paths p (fun tr o =>
        match o with
        | Returned a =>
            paths (g a) (fun tr' o' =>
              (forall k, j <= k < i ->
                 readsAs foreign (multisigPdaOf creator k) ((ev :: tr) ++ tr')) ->
              readsAs (fun x => ownedBySquads x = true) (multisigPdaOf creator i)
                ((ev :: tr) ++ tr') ->
              o' = Returned (recovered creator i) /\ noSubmission ((ev :: tr) ++ tr'))
        | Thrown e =>
            (forall k, j <= k < i ->
               readsAs foreign (multisigPdaOf creator k) (ev :: tr)) ->
            readsAs (fun x => ownedBySquads x = true) (multisigPdaOf creator i)
              (ev :: tr) ->
            Thrown e = Returned (recovered creator i) /\ noSubmission (ev :: tr)
        end)).
  { intros A p g Habsurd. apply paths_any. intros tr [a|e].
    - apply paths_any. intros tr' o' H1 H2. exfalso. apply Habsurd.
      + intros k Hk cm r' [Hin|[]]. apply (H1 k Hk cm r'). left. exact Hin.
      + intros cm r' [Hin|[]]. apply (H2 cm r'). left. exact Hin.
    - intros H1 H2. exfalso. apply Habsurd.
      + intros k Hk cm r' [Hin|[]]. apply (H1 k Hk cm r'). left. exact Hin.
      + intros cm r' [Hin|[]]. apply (H2 cm r'). left. exact Hin. }
  destruct r as [x|e]; cbn [mkEvent] in *.
  2:{ (* the lookup was rejected *)
      intros H1 H2. exfalso.
      destruct (Z.eq_dec j i) as [->|Hne].
      - destruct (H2 None (Rejected e)) as (x & Hx & _); [left; reflexivity|].
        discriminate.
      - destruct (H1 j ltac:(lia) None (Rejected e)) as (x & Hx & _);
          [left; reflexivity|]. discriminate. }
  destruct (Z.eq_dec j i) as [->|Hne].
  - (* the attempt of the first call *)
    destruct (ownedBySquads x) eqn:Hx.
    + cbn [paths app]. intros _ _. split; reflexivity.
    + apply Hvacuous. intros _ H2.
      destruct (H2 None (Resolved x)) as (x' & Hx' & Howned); [left; reflexivity|].
      injection Hx' as <-. congruence.
  - (* an earlier attempt *)
    destruct (ownedBySquads x) eqn:Hx.
    + apply Hvacuous. intros H1 _.
      destruct (H1 j ltac:(lia) None (Resolved x)) as (x' & Hx' & info & -> & Hforeign);
        [left; reflexivity|].
      injection Hx' as ->. congruence.
    + destruct x as [info|].
      * cbn [paths app]. eapply paths_mono; [|apply (IH (j + 1) lastError); lia].
        intros tr o HQ H1 H2.
        destruct HQ as [Ho Hquiet].
        -- intros k Hk. apply (readsAs_tail _ _ ev), H1. lia.
        -- apply (readsAs_tail _ _ ev), H2.
        -- split; [exact Ho|exact Hquiet].
      * apply Hvacuous. intros H1 _.
        destruct (H1 j ltac:(lia) None (Resolved None))
          as (x' & Hx' & info & -> & Hforeign); [left; reflexivity|].
        discriminate.
Qed.

Lemma createSquad_recovers i :
  0 <= i < 10 ->
  paths (createSquad creator member2 threshold)
    (fun tr o =>
       balanceAtLeast 10000000 tr ->
       (forall k, 0 <= k < i -> readsAs foreign (multisigPdaOf creator k) tr) ->
       readsAs (fun x => ownedBySquads x = true) (multisigPdaOf creator i) tr ->
       o = Returned (recovered creator i) /\ noSubmission tr).
Proof.
  intros Hi. unfold createSquad.
  apply paths_await_bind. intros [balance|e]; cbn [mkEvent].
  2:{ intros Hbal _ _. exfalso.
      destruct (Hbal _ _ (or_introl eq_refl)) as (b & Hb & _). discriminate. }
  destruct (Z.ltb_spec balance 10000000) as [Hlt|Hge].
  { cbn [paths]. intros Hbal _ _. exfalso.
    destruct (Hbal _ _ (or_introl eq_refl)) as (b & Hb & Hle).
    injection Hb as <-. lia. }
  eapply paths_mono;
    [|apply (attemptsFrom_recovers i MAX_ATTEMPTS 0 None); unfold MAX_ATTEMPTS; lia].
  intros tr o HQ _ H1 H2.
  destruct HQ as [Ho Hquiet].
  - intros k Hk. eapply readsAs_tail, H1. exact Hk.
  - eapply readsAs_tail, H2.
  - split; [exact Ho|exact Hquiet].
Qed.

End Recovery.

Section ProvisionerClaims.
Context {sdk : Sdk}.

(** C1, as the code has it.  The addresses that a call of createSquad
    returns are those of one of its ten attempts.  A second call with the
    same owner, made right after it, returns the same addresses with the
    signature "RECOVERED", and submits nothing, provided that during the
    second call the creator's balance still reads at least 0.01 SOL, the
    addresses of the earlier attempts read as accounts that are not owned
    by the Squads program, and the multisig of the first call reads as an
    account owned by the Squads program. *)
Theorem createSquad_second_call_recovers
    S (env : Env S) (s : S) (creator : Keypair) (member2 : PublicKey)
    (threshold : Z) (first : SquadResult) :
  let run1 := run env (createSquad creator member2 threshold) s in
  let run2 := run env (createSquad creator member2 threshold) (final run1) in
  outcome run1 = Returned first ->
  (exists i,
      0 <= i < 10
      /\ multisigPda first = multisigPdaOf creator i
      /\ vaultPda first = vaultPdaOf creator i)
  /\ (forall i,
        0 <= i < 10 ->
        multisigPda first = multisigPdaOf creator i ->
        vaultPda first = vaultPdaOf creator i ->
        balanceAtLeast 10000000 (trace run2) ->
        (forall j, 0 <= j < i ->
           readsAs foreign (multisigPdaOf creator j) (trace run2)) ->
        readsAs (fun x => ownedBySquads x = true) (multisigPdaOf creator i)
          (trace run2) ->
        outcome run2 = Returned {| signature := "RECOVERED";
                                   multisigPda := multisigPda first;
                                   vaultPda := vaultPda first |}
        /\ noSubmission (trace run2)).
Proof.
  intros run1 run2 Hfirst. split.
  - destruct (paths_run _ _ (createSquad_paths creator member2 threshold) S env s)
      as (_ & _ & Hres).
    destruct (Hres first Hfirst) as (i & Hi & Hms & Hvault & _).
    exists i. auto.
  - intros i Hi Hms Hvault Hbalance Hearlier Hthis.
    rewrite Hms, Hvault.
    apply (paths_run _ _ (createSquad_recovers creator member2 threshold i Hi)
             S env (final run1) Hbalance Hearlier Hthis).
Qed.

(** C4. The create key of attempt [i] is the key pair derived from the 32
    bytes of the owner's public key with the byte at position [i mod 32]
    XOR-ed with 0xFF and every other byte unchanged.  In every run of
    createSquad, whatever the ledger answers and whoever the second member
    is: each creation it submits is the one of some attempt [i] of
    [0 .. 9], signed by the creator and that create key; the addresses it
    looks up first in each attempt are those derived from the create keys
    of attempts 0, 1, 2, ... in this order; and the addresses it returns
    are the ones derived from the create key of one of the ten attempts. *)
Theorem createSquad_create_key_derivation
    S (env : Env S) (s : S) (creator : Keypair) (member2 : PublicKey)
    (threshold : Z) :
  let r := run env (createSquad creator member2 threshold) s in
  let createKey i := Keypair_fromSeed (seedOf creator i) in
  let address i := getMultisigPda (publicKey (createKey i)) SQUADS_PROGRAM_ID in
  (forall i,
      0 <= i <= 9 ->
      List.length (publicKey creator) = 32%nat ->
      Forall (fun b => 0 <= b < 256) (publicKey creator) ->
      exists b,
        publicKey creator !! Z.to_nat (i mod 32) = Some b
        /\ seedOf creator i
           = <[Z.to_nat (i mod 32) := Z.lxor b 255]> (publicKey creator))
  /\ (forall tx opts res,
        In (ESendTransaction tx opts res) (trace r) ->
        exists i blockhash msg,
          0 <= i <= 9
          /\ tx = creationTx creator member2 threshold i blockhash
          /\ tx = V0Tx msg [creator; createKey i])
  /\ (exists k, (k <= 10)%nat
                /\ probed (trace r) = map (fun j => address (Z.of_nat j)) (seq 0 k))
  /\ (forall res,
        outcome r = Returned res ->
        exists i,
          0 <= i <= 9
          /\ multisigPda res = address i
          /\ vaultPda res = getVaultPda (address i) 0 SQUADS_PROGRAM_ID).
Proof.
  intros r createKey address.
  destruct (paths_run _ _ (createSquad_paths creator member2 threshold) S env s)
    as (Hprobed & Hsends & Hres).
  fold r in Hprobed, Hsends, Hres.
  split; [|split; [|split]].
  - intros i Hi Hlen Hbytes. apply seedOf_flips; [lia|exact Hlen|exact Hbytes].
  - intros tx opts res Hin.
    destruct (Hsends _ _ _ Hin) as (i & bh & Hi & -> & _).
    exists i, bh. eexists. split; [lia|]. split; reflexivity.
  - exact Hprobed.
  - intros res Hr.
    destruct (Hres res Hr) as (i & Hi & Hms & Hvault & _).
    exists i. split; [lia|]. split; [exact Hms|exact Hvault].
Qed.

(** C6. An attempt whose derived address shows an account that is not
    owned by the Squads program ends without a result and the loop goes
    on with the next index: directly when the first lookup shows the
    foreign account; and, when the creation raised an already-initialized
    error (6014), after the bounded re-verification in which no lookup
    showed an account owned by the Squads program.  And
    whatever createSquad returns is the address pair of one of the ten
    attempts, whose multisig was, in this very run, either looked up and
    found to be owned by the Squads program or created by a submitted and
    confirmed transaction. *)
Theorem createSquad_collision_skip
    S (env : Env S) (creator : Keypair) (member2 : PublicKey) (threshold : Z) :
  (forall s n i lastError info,
      let read := respond env (getAccountInfo (multisigPdaOf creator i) None) s in
      fst read = Resolved (Some info) ->
      ownedBySquads (Some info) = false ->
      run env (attemptsFrom creator member2 threshold (Datatypes.S n) i lastError) s
      = after [EGetAccountInfo (multisigPdaOf creator i) None
                 (Resolved (Some info))]
          (run env (attemptsFrom creator member2 threshold n (i + 1) lastError)
             (snd read)))
  /\ (forall s n i lastError e,
        let read := respond env (getAccountInfo (multisigPdaOf creator i) None) s in
        let try := run env (tryCreate creator member2 threshold i) (snd read) in
        let check :=
          run env (verifyOwnership (multisigPdaOf creator i) 5) (final try) in
        fst read = Resolved None ->
        outcome try = Thrown e ->
        alreadyInitialized e = true ->
        readsAs (fun x => ownedBySquads x = false) (multisigPdaOf creator i)
          (trace check) ->
        run env (attemptsFrom creator member2 threshold (Datatypes.S n) i lastError) s
        = after (EGetAccountInfo (multisigPdaOf creator i) None (Resolved None)
                   :: trace try ++ trace check)
            (run env (attemptsFrom creator member2 threshold n (i + 1) (Some e))
               (final check)))
  /\ (forall s r,
        outcome (run env (createSquad creator member2 threshold) s) = Returned r ->
        verifiedOrCreated creator member2 threshold
          (trace (run env (createSquad creator member2 threshold) s)) r).
Proof.
  split; [|split].
  - intros s n i lastError info read Hread Hforeign.
    cbn [attemptsFrom]. rewrite run_bind.
    rewrite (run_attempt_foreign env creator member2 threshold s i lastError info
               Hread Hforeign).
    reflexivity.
  - intros s n i lastError e read try check Hread Htry Hinit Hreads.
    assert (Hcheck : outcome check = Returned false)
      by apply (paths_run _ _ (verifyOwnership_unverified _ _) S env _ Hreads).
    cbn [attemptsFrom]. rewrite run_bind.
    rewrite (run_attempt_unverified env creator member2 threshold s i lastError e
               Hread Htry Hinit Hcheck).
    reflexivity.
  - intros s r Hr.
    destruct (paths_run _ _ (createSquad_paths creator member2 threshold) S env s)
      as (_ & _ & Hres).
    apply Hres, Hr.
Qed.

(** C7, as the code has it.  When the balance check passes and all ten
    attempts end without a result, createSquad throws the error of the
    last attempt that raised one: an attempt whose address is taken by a
    foreign account raises nothing and leaves the error of an earlier
    attempt on record.  The explicit error that no valid vault slot was
    found is thrown when no attempt raised an error, that is when all ten
    addresses are taken by foreign accounts. *)
Theorem createSquad_exhaustion
    S (env : Env S) (s : S) (creator : Keypair) (member2 : PublicKey)
    (threshold : Z) (balance : Z) (raised : list (option JsError)) (s' : S) :
  let read := respond env (getBalance (publicKey creator)) s in
  let r := run env (createSquad creator member2 threshold) s in
  fst read = Resolved balance ->
  10000000 <= balance ->
  List.length raised = 10%nat ->
  failedAttempts env creator member2 threshold 0 (snd read) raised s' ->
  outcome r = Thrown (orElse (lastRaised raised) slotError)
  /\ ((forall x, In x raised -> x = None) -> outcome r = Thrown slotError)
  /\ (forall earlier e later,
        raised = (earlier ++ Some e :: later)%list ->
        (forall x, In x later -> x = None) ->
        outcome r = Thrown e)
  /\ final r = s'.
Proof.
  intros read r Hread Hbalance Hten Hfail.
  destruct (failedAttempts_exhaust env creator member2 threshold raised 0 None
              (snd read) s' Hfail) as [Ho Hs].
  rewrite Hten in Ho, Hs.
  assert (Hr : outcome r = Thrown (orElse (lastRaised raised) slotError)
               /\ final r = s').
  { subst r. unfold createSquad. rewrite run_bind, run_await. fold read.
    rewrite Hread. cbn [outcome trace final].
    destruct (Z.ltb_spec balance 10000000) as [Hlt|_]; [lia|].
    unfold MAX_ATTEMPTS. rewrite after_outcome, after_final. split; assumption. }
  destruct Hr as [Hr Hfinal]. split; [exact Hr|]. split; [|split].
  - intros Hnone. rewrite Hr, (lastRaised_none raised Hnone). reflexivity.
  - intros earlier e later -> Hlater.
    rewrite Hr, (lastRaised_last earlier e later Hlater). reflexivity.
  - exact Hfinal.
Qed.

End ProvisionerClaims.


(** ** Execution Engine *)

Lemma prefix_split needle :
  forall hay, String.prefix needle hay = true -> exists rest, hay = needle ++ rest.
Proof.
  induction needle as [|c needle IH]; intros hay H.
  - exists hay. reflexivity.
  - destruct hay as [|d hay]; [discriminate|]. cbn [String.prefix] in H.
    destruct (Ascii.ascii_dec c d) as [->|]; [|discriminate].
    destruct (IH hay H) as [rest ->]. exists rest. reflexivity.
Qed.

Lemma prefix_append needle rest : String.prefix needle (needle ++ rest) = true.
Proof.
  induction needle as [|c needle IH].
  - destruct rest; reflexivity.
  - simpl. destruct (Ascii.ascii_dec c c); [exact IH|contradiction].
Qed.

Lemma includes_here hay needle :
  String.prefix needle hay = true -> includes hay needle = true.
Proof. intros H. destruct hay; cbn [includes]; rewrite H; reflexivity. Qed.

Lemma includes_later c hay needle :
  includes hay needle = true -> includes (String c hay) needle = true.
Proof.
  intros H. cbn [includes].
  destruct (String.prefix needle (String c hay)); [reflexivity|exact H].
Qed.

Lemma includes_inside before needle rest :
  includes (before ++ needle ++ rest) needle = true.
Proof.
  induction before as [|c before IH].
  - change (includes (needle ++ rest) needle = true).
    apply includes_here, prefix_append.
  - change (includes (String c (before ++ needle ++ rest)) needle = true).
    apply includes_later, IH.
Qed.

(** A text that contains [a ++ b] contains [b]. *)
Lemma includes_suffix a b :
  forall hay, includes hay (a ++ b) = true -> includes hay b = true.
Proof.
  assert (Hhere : forall hay, String.prefix (a ++ b) hay = true ->
                              includes hay b = true).
  { intros hay H. destruct (prefix_split _ _ H) as [rest ->].
    assert (Hassoc : forall x y z : string, (x ++ y) ++ z = x ++ y ++ z).
    { induction x as [|c x IHx]; intros y z; [reflexivity|].
      change (String c ((x ++ y) ++ z) = String c (x ++ y ++ z)).
      rewrite IHx. reflexivity. }
    rewrite Hassoc. apply includes_inside. }
  induction hay as [|c hay IH]; cbn [includes].
  - destruct (String.prefix (a ++ b) EmptyString) eqn:Hp; [|discriminate].
    intros _. apply (Hhere _ Hp).
  - destruct (String.prefix (a ++ b) (String c hay)) eqn:Hp.
    + intros _. apply (Hhere _ Hp).
    + intros H. apply includes_later, IH, H.
Qed.

Lemma slippageStatus_decoded signature st :
  slippageStatus st ->
  isSettled st = true
  /\ exists err,
       statusErr st = Some err
       /\ decodeFailure signature err = slippageExceeded signature.
Proof.
  intros (Hconfirmed & err & Herr & Hcode). split.
  - unfold isSettled. destruct Hconfirmed as [-> | ->]; reflexivity.
  - exists err. split; [exact Herr|]. unfold decodeFailure.
    assert (Hfound :
      includes (errJson err) "6024" || includes (errJson err) "1788" = true).
    { destruct Hcode as [H|H].
      - rewrite H. reflexivity.
      - apply (includes_suffix "0x" "1788") in H. rewrite H. apply orb_true_r. }
    cbv zeta. rewrite Hfound. reflexivity.
Qed.

Section Engine.
Context {sdk : Sdk}.

Lemma pollStatus_paths fuel signature startTime timeout :
  paths (pollStatus fuel signature startTime timeout)
    (fun tr o =>
       (exists verdict, o = Returned verdict)
       /\ forall sig st,
            In (EGetSignatureStatus sig (Resolved (Some st))) tr ->
            slippageStatus st ->
            o = Returned (Some (slippageExceeded sig))).
Proof.
  induction fuel as [|fuel IH]; cbn [pollStatus].
  - cbn [paths]. split; [eauto|]. intros sig st [].
  - unfold Date_now at 1. cbn [bind paths]. intros now.
    destruct (now - startTime <? timeout).
    2:{ cbn [paths]. split; [eauto|].
        intros sig st [Hin|[]]. discriminate. }
    (* a turn that ends without a verdict *)
    assert (Hnext : forall status,
      (forall st, status = Resolved (Some st) -> ~ slippageStatus st) ->
      paths (let* _ := sleep 200 in pollStatus fuel signature startTime timeout)
        (fun tr o =>
           (exists verdict, o = Returned verdict)
           /\ forall sig st,
                In (EGetSignatureStatus sig (Resolved (Some st)))
                   (ENow now :: EGetSignatureStatus signature status :: tr) ->
                slippageStatus st ->
                o = Returned (Some (slippageExceeded sig)))).
    { intros status Hstatus. unfold sleep. cbn [bind paths].
      eapply paths_mono; [|exact IH].
      intros tr o [Hreturned Hslippage]. split; [exact Hreturned|].
      intros sig st [Hin|[Hin|[Hin|Hin]]] Hst; try discriminate.
      - injection Hin as <- ->. destruct (Hstatus st eq_refl Hst).
      - apply (Hslippage _ _ Hin Hst). }
    apply paths_bind. apply paths_try_catch. apply paths_await_bind.
    intros [[st'|]|e]; cbn [mkEvent].
    + destruct (isSettled st') eqn:Hsettled.
      * destruct (statusErr st') as [err|] eqn:Herr.
        -- cbn [paths app]. split; [eauto|].
           intros sig st [Hin|[Hin|[]]] Hst; try discriminate.
           injection Hin as <- <-.
           destruct (slippageStatus_decoded signature st' Hst)
             as (_ & err' & Herr' & Hdecoded).
           rewrite Herr in Herr'. injection Herr' as <-.
           rewrite Hdecoded. reflexivity.
        -- unfold Date_now. cbn [bind paths app]. intros t.
           split; [eauto|].
           intros sig st [Hin|[Hin|[Hin|[]]]] Hst; try discriminate.
           injection Hin as <- <-.
           destruct (slippageStatus_decoded signature st' Hst)
             as (_ & err' & Herr' & _).
           rewrite Herr in Herr'. discriminate.
      * cbn [paths app]. apply Hnext. intros st Heq Hst.
        injection Heq as <-.
        destruct (slippageStatus_decoded signature st' Hst) as (Hsettled' & _).
        congruence.
    + cbn [paths app]. apply Hnext. intros st Heq. discriminate.
    + cbn [paths app]. apply Hnext. intros st Heq. discriminate.
Qed.

Lemma only_sendViaJito P tx endpoints :
  (forall ev, isSubmission ev = true -> P ev = true) ->
  only P (sendViaJito tx endpoints).
Proof.
  intros HP. induction endpoints as [|endpoint rest IH]; cbn [sendViaJito].
  - apply only_Ret.
  - apply only_bind.
    + apply only_try_catch.
      * apply only_bind.
        -- apply only_await. intros r. apply HP. reflexivity.
        -- intros response. destruct (ok response); [|apply only_Ret].
           apply only_bind; [apply only_settle|]. intros result. apply only_Ret.
      * intros e. apply only_Ret.
    + intros accepted. destruct accepted; [apply only_Ret|exact IH].
Qed.

Lemma executeSwap_no_status swapTx signer :
  only (fun ev => negb (isStatusRead ev)) (executeSwap swapTx signer).
Proof. unfold executeSwap. only_tac. Qed.

Lemma executeSwapJito_paths fuel swapTx signer tipLamports :
  paths (executeSwapJito fuel swapTx signer tipLamports)
    (fun tr o =>
       forall sig st,
         In (EGetSignatureStatus sig (Resolved (Some st))) tr ->
         slippageStatus st ->
         o = Returned (Some (slippageExceeded sig))).
Proof.
  unfold executeSwapJito. apply paths_try_catch.
  (* the body either returns what the polling decided, or throws before
     any status was read *)
  match goal with
  | |- paths ?body _ =>
      assert (Hbody :
        paths body (fun tr o =>
          match o with
          | Returned verdict =>
              forall sig st,
                In (EGetSignatureStatus sig (Resolved (Some st))) tr ->
                slippageStatus st ->
                verdict = Some (slippageExceeded sig)
          | Thrown _ => forallb (fun ev => negb (isStatusRead ev)) tr = true
          end))
  end.
  { destruct (VersionedTransaction_deserialize (transaction swapTx)) as [bh|e];
      cbn [settle bind paths]; [|reflexivity].
    destruct (VersionedTransaction_sign (transaction swapTx) signer) as [[]|e];
      cbn [settle bind paths]; [|reflexivity].
    apply paths_bind.
    eapply paths_mono;
      [|apply (only_sendViaJito (fun ev => negb (isStatusRead ev)));
        intros [] ?; (reflexivity || discriminate)].
    intros tr1 [sent|e] Htr1; cbn beta iota; [|exact Htr1].
    apply paths_bind.
    match goal with
    | |- paths ?p _ =>
        assert (Hsend : only (fun ev => negb (isStatusRead ev)) p)
          by (destruct sent; only_tac)
    end.
    eapply paths_mono; [|exact Hsend].
    intros tr2 [[]|e] Htr2; cbn beta iota.
    2:{ rewrite forallb_app, Htr1, Htr2. reflexivity. }
    unfold Date_now. cbn [bind paths]. intros startTime.
    eapply paths_mono; [|apply pollStatus_paths].
    intros tr3 o [[verdict ->] Hslippage] sig st Hin Hst.
    apply in_app_or in Hin as [Hin|Hin].
    { apply (forallb_In _ _ _ Htr1) in Hin. discriminate. }
    apply in_app_or in Hin as [Hin|[Hin|Hin]]; [|discriminate|].
    { apply (forallb_In _ _ _ Htr2) in Hin. discriminate. }
    specialize (Hslippage _ _ Hin Hst). injection Hslippage as ->. reflexivity. }
  eapply paths_mono; [|exact Hbody].
  intros tr [verdict|e] Htr; cbn beta iota.
  - intros sig st Hin Hst. rewrite (Htr _ _ Hin Hst). reflexivity.
  - apply paths_bind.
    eapply paths_mono; [|apply executeSwap_no_status].
    intros tr' o Htr' .
    assert (Hnone : forall sig st post,
              In (EGetSignatureStatus sig (Resolved (Some st)))
                 (tr ++ tr' ++ post) -> post = [] -> False).
    { intros sig st post Hin ->. rewrite app_nil_r in Hin.
      apply in_app_or in Hin as [Hin|Hin].
      - apply (forallb_In _ _ _ Htr) in Hin. discriminate.
      - apply (forallb_In _ _ _ Htr') in Hin. discriminate. }
    destruct o as [res|e']; cbn [paths].
    + intros sig st Hin Hst. exfalso. apply (Hnone sig st [] Hin eq_refl).
    + intros sig st Hin Hst. exfalso.
      apply (Hnone sig st []); [rewrite app_nil_r; exact Hin|reflexivity].
Qed.

(** C9. Whenever the polling of executeSwapJito reads a signature status
    that is confirmed (or finalized) and carries an on-chain error whose
    JSON text contains the slippage code (6024, or 0x1788), the call
    returns, without throwing, the result with [success = false], the
    signature, the message "Price moved too much - slippage exceeded" and
    the error code "SLIPPAGE_EXCEEDED". *)
Theorem executeSwapJito_decodes_slippage
    S (env : Env S) (s : S) (fuel : nat) (swapTx : SwapTransaction)
    (signer : Keypair) (tipLamports : Z) (sig : string) (st : SignatureStatus) :
  let r := run env (executeSwapJito fuel swapTx signer tipLamports) s in
  In (EGetSignatureStatus sig (Resolved (Some st))) (trace r) ->
  slippageStatus st ->
  outcome r = Returned (Some {| success := false;
                                resultSignature := Some sig;
                                error := Some "Price moved too much - slippage exceeded";
                                errorCode := Some "SLIPPAGE_EXCEEDED" |}).
Proof.
  intros r Hin Hst.
  apply (paths_run _ _ (executeSwapJito_paths fuel swapTx signer tipLamports)
           S env s sig st Hin Hst).
Qed.

End Engine.

(** * Further properties

    What the code shows beyond the claims of the specification: error
    and edge behaviour, bounds, and how the functions compose. *)

Section AllocatorExtras.
Context {sdk : Sdk}.

Lemma probeFrom_reads multisigPda nextIndex remaining :
  forall offset,
  paths (probeFrom multisigPda nextIndex remaining offset)
    (fun tr _ =>
       forallb isAccountRead tr = true /\ (List.length tr <= remaining)%nat).
Proof.
  induction remaining as [|n IH]; intros offset; cbn [probeFrom].
  - cbn [paths]. split; [reflexivity|]. simpl. lia.
  - settled; [|cbn [paths]; split; [reflexivity|]; simpl; lia].
    apply paths_await_bind. intros [[info|]|e]; cbn [mkEvent].
    + eapply paths_mono; [|apply (IH (offset + 1))].
      intros tr o [Hreads Hlen]. split; [exact Hreads|]. simpl. lia.
    + cbn [paths]. split; [reflexivity|]. simpl. lia.
    + split; [reflexivity|]. simpl. lia.
Qed.

(** X1. getNextTransactionIndex only reads accounts: a run is made of
    account lookups and nothing else (no submission, no pause), at most
    eleven of them, the first one being the lookup of the multisig
    account at the confirmed commitment. *)
Theorem getNextTransactionIndex_reads_only
    S (env : Env S) (s : S) (multisigPda : PublicKey) :
  let r := run env (getNextTransactionIndex multisigPda) s in
  forallb isAccountRead (trace r) = true
  /\ (List.length (trace r) <= 11)%nat
  /\ exists answer,
       head (trace r)
       = Some (EGetAccountInfo multisigPda (Some "confirmed") answer).
Proof.
  intros r. subst r.
  refine (paths_run _ (fun tr _ => forallb isAccountRead tr = true
            /\ (List.length tr <= 11)%nat
            /\ exists answer, head tr = Some (EGetAccountInfo multisigPda (Some "confirmed") answer))
            _ S env s).
  unfold getNextTransactionIndex.
  apply paths_await_bind. intros [[info|]|e]; cbn [mkEvent].
  - destruct (Multisig_fromAccountInfo info) as [account|e]; cbn [settle bind paths].
    + eapply paths_mono; [|apply probeFrom_reads].
      intros tr o [Hreads Hlen]. split; [exact Hreads|]. split; [simpl; lia|].
      eexists. reflexivity.
    + split; [reflexivity|]. split; [simpl; lia|]. eexists. reflexivity.
  - cbn [paths]. split; [reflexivity|]. split; [simpl; lia|]. eexists. reflexivity.
  - split; [reflexivity|]. split; [simpl; lia|]. eexists. reflexivity.
Qed.

(** X2. When the multisig account cannot be used, getNextTransactionIndex
    throws after that single read and probes no slot: the error
    "Multisig account not found" when there is no account at the address,
    the exception of the decoder when the account does not decode, and
    the rejection of the read when it rejects. *)
Theorem getNextTransactionIndex_unusable_account
    S (env : Env S) (s : S) (multisigPda : PublicKey) (thrown : JsError) :
  let read := respond env (getAccountInfo multisigPda (Some "confirmed")) s in
  let r := run env (getNextTransactionIndex multisigPda) s in
  match fst read with
  | Resolved None => thrown = Error "Multisig account not found"
  | Resolved (Some info) => Multisig_fromAccountInfo info = Rejected thrown
  | Rejected e => thrown = e
  end ->
  outcome r = Thrown thrown
  /\ trace r = [EGetAccountInfo multisigPda (Some "confirmed") (fst read)]
  /\ final r = snd read.
Proof.
  intros read r Hcase. subst r. unfold getNextTransactionIndex.
  rewrite run_bind, run_await. fold read.
  destruct (fst read) as [[info|]|e]; cbn [outcome trace final mkEvent].
  - rewrite run_bind, Hcase. cbn [settle run outcome trace final].
    unfold after. cbn [outcome trace final app]. auto.
  - subst thrown. cbn [run]. unfold after. cbn [outcome trace final app]. auto.
  - subst thrown. auto.
Qed.

End AllocatorExtras.

Ltac quiet_polls :=
  intros [? [?|] ?| | | | | | | | | |] ?; (reflexivity || discriminate).

Section ProvisionerShape.
Context {sdk : Sdk}.
Variables (creator : Keypair) (member2 : PublicKey) (threshold : Z).

Lemma tryCreate_shape i :
  paths (tryCreate creator member2 threshold i)
    (fun tr _ =>
       forallb (fun ev => negb (isBareLookup ev)) tr = true
       /\ (noSubmission tr
           \/ exists bh res tail,
                tr = EGetLatestBlockhash (Resolved bh)
                     :: ESendTransaction
                          (creationTx creator member2 threshold i bh) createOpts res
                     :: tail
                /\ forallb quiet tail = true)).
Proof.
  unfold tryCreate.
  settled; [|cbn [paths]; split; [reflexivity|]; left; reflexivity].
  apply paths_await_bind. intros [bh|e]; cbn [mkEvent].
  2:{ split; [reflexivity|]. left. reflexivity. }
  settled; [|cbn [paths]; split; [reflexivity|]; left; reflexivity].
  apply paths_await_bind. intros [sig|e]; cbn [mkEvent].
  2:{ split; [reflexivity|]. right. exists bh, (Rejected e), []. split; reflexivity. }
  match goal with
  | |- paths ?p _ => assert (Htail : only quiet p)
  end.
  { apply only_bind; [apply only_await; intros ?; reflexivity|].
    intros [err|]; [apply only_Throw|].
    apply only_bind; [|intros ?; apply only_Ret].
    apply only_untilVisible. quiet_polls. }
  eapply paths_mono; [|exact Htail].
  intros tr o Htr. split.
  - cbn [forallb isBareLookup negb andb].
    revert Htr. apply forallb_weaken. intros ev Hev.
    apply andb_prop in Hev as [_ Hev]. exact Hev.
  - right. exists bh, (Resolved sig), tr. split; [reflexivity|exact Htr].
Qed.

Lemma attempt_shape i lastError :
  paths (attempt creator member2 threshold i lastError)
    (attemptShape creator member2 threshold i).
Proof.
  unfold attempt, attemptShape.
  apply paths_await_bind. intros [x|e]; cbn [mkEvent].
  2:{ exists (Rejected e), []. split; [reflexivity|]. split.
      - intros e' He. injection He as <-. split; reflexivity.
      - left. reflexivity. }
  destruct (ownedBySquads x).
  { cbn [paths]. exists (Resolved x), []. split; [reflexivity|]. split.
    - intros e He. discriminate.
    - left. reflexivity. }
  destruct x as [info|].
  { cbn [paths]. exists (Resolved (Some info)), []. split; [reflexivity|]. split.
    - intros e He. discriminate.
    - left. reflexivity. }
  (* the handler only polls *)
  assert (Hhandler : forall e, only quiet (onCreateError creator i e)).
  { intros e. unfold onCreateError. destruct (alreadyInitialized e); [|apply only_Ret].
    apply only_bind; [apply only_verifyOwnership; quiet_polls|].
    intros [|]; apply only_Ret. }
  apply paths_try_catch. apply paths_bind.
  eapply paths_mono; [|apply tryCreate_shape].
  intros tr [r|e] [Hbare Hshape]; cbn beta iota.
  - cbn [paths]. rewrite app_nil_r.
    exists (Resolved None), tr. split; [reflexivity|]. split.
    + intros e He. discriminate.
    + destruct Hshape as [Hquiet|(bh & res & tail & -> & Htail)].
      * left. unfold noSubmission in Hquiet. unfold quiet.
        rewrite forallb_forall in *. intros ev Hev.
        rewrite (Hquiet ev Hev), (Hbare ev Hev). reflexivity.
      * right. exists bh, res, tail. auto.
  - eapply paths_mono; [|apply Hhandler].
    intros polls o Hpolls.
    exists (Resolved None), (tr ++ polls)%list. split; [reflexivity|]. split.
    + intros e' He. discriminate.
    + destruct Hshape as [Hquiet|(bh & res & tail & -> & Htail)].
      * left. rewrite forallb_app, Hpolls, andb_true_r.
        unfold noSubmission in Hquiet. unfold quiet.
        rewrite forallb_forall in *. intros ev Hev.
        rewrite (Hquiet ev Hev), (Hbare ev Hev). reflexivity.
      * right. exists bh, res, (tail ++ polls)%list. split; [reflexivity|].
        split; [reflexivity|]. rewrite forallb_app, Htail, Hpolls. reflexivity.
Qed.

Lemma quiet_noSubmission tr : forallb quiet tr = true -> noSubmission tr.
Proof.
  apply forallb_weaken. intros ev Hev. apply andb_prop in Hev as [Hev _]. exact Hev.
Qed.

Lemma quiet_filter tr : forallb quiet tr = true -> List.filter isSubmission tr = [].
Proof.
  induction tr as [|ev tr IH]; [reflexivity|]. cbn [forallb List.filter].
  intros H. apply andb_prop in H as [Hev Htr].
  apply andb_prop in Hev as [Hev _]. apply negb_true_iff in Hev.
  rewrite Hev. apply IH, Htr.
Qed.

(** *** One creation per index, in the order of the indices *)

Lemma attemptsFrom_creations n :
  forall lo lastError,
  paths (attemptsFrom creator member2 threshold n (Z.of_nat lo) lastError)
    (fun tr _ =>
       exists l : list (nat * string * Settled string),
         List.filter isSubmission tr = map (creationEvent creator member2 threshold) l
         /\ sublist (map (fun x => fst (fst x)) l) (seq lo n)).
Proof.
  induction n as [|n IH]; intros lo lastError; cbn [attemptsFrom].
  - cbn [paths]. exists []. split; [reflexivity|]. constructor.
  - apply paths_bind. eapply paths_mono; [|apply attempt_shape].
    intros tr o (r0 & rest & -> & _ & Hshape).
    assert (Hhere : exists l1 : list (nat * string * Settled string),
              List.filter isSubmission
                (EGetAccountInfo (multisigPdaOf creator (Z.of_nat lo)) None r0 :: rest)
              = map (creationEvent creator member2 threshold) l1
              /\ sublist (map (fun x => fst (fst x)) l1) [lo]).
    { destruct Hshape as [Hquiet|(bh & res & tail & _ & -> & Htail)].
      - exists []. cbn [List.filter isSubmission]. rewrite (quiet_filter _ Hquiet).
        split; [reflexivity|]. apply sublist_nil_l.
      - exists [(lo, bh, res)]. cbn [List.filter isSubmission].
        rewrite (quiet_filter _ Htail). split; reflexivity. }
    destruct Hhere as (l1 & Hl1 & Hsub1).
    assert (Hstop : exists l : list (nat * string * Settled string),
              List.filter isSubmission
                (EGetAccountInfo (multisigPdaOf creator (Z.of_nat lo)) None r0 :: rest)
              = map (creationEvent creator member2 threshold) l
              /\ sublist (map (fun x => fst (fst x)) l) (seq lo (S n))).
    { exists l1. split; [exact Hl1|].
      change (seq lo (S n)) with ([lo] ++ seq (S lo) n)%list.
      rewrite <- (app_nil_r (map _ l1)). apply sublist_app; [exact Hsub1|].
      apply sublist_nil_l. }
    destruct o as [[r|lastError']|e]; cbn beta iota.
    + cbn [paths]. rewrite app_nil_r. exact Hstop.
    + replace (Z.of_nat lo + 1) with (Z.of_nat (S lo)) by lia.
      eapply paths_mono; [|apply (IH (S lo) lastError')].
      intros tr' o' (l2 & Hl2 & Hsub2).
      exists (l1 ++ l2)%list. split.
      * rewrite List.filter_app, Hl1, Hl2, map_app. reflexivity.
      * rewrite map_app. change (seq lo (S n)) with ([lo] ++ seq (S lo) n)%list.
        apply sublist_app; assumption.
    + exact Hstop.
Qed.

(** *** No creation without an empty lookup *)

Lemma guarded_quiet lo hi tr :
  noSubmission tr -> creationsGuarded creator member2 threshold lo hi tr.
Proof.
  intros Hquiet pre tx opts res post ->. exfalso.
  unfold noSubmission in Hquiet. rewrite forallb_app in Hquiet.
  apply andb_prop in Hquiet as [_ Hquiet]. discriminate.
Qed.

Lemma guarded_app lo hi tr1 tr2 :
  creationsGuarded creator member2 threshold lo hi tr1 ->
  creationsGuarded creator member2 threshold lo hi tr2 ->
  creationsGuarded creator member2 threshold lo hi (tr1 ++ tr2).
Proof.
  intros H1 H2 pre tx opts res post Heq.
  apply app_eq_app in Heq as [l [[-> Heq]|[-> Heq]]].
  - destruct l as [|ev l].
    + cbn [app] in Heq. destruct (H2 [] tx opts res post) as (i & bh & pre' & _ & _ & _ & Hpre).
      { symmetry. exact Heq. }
      destruct pre'; discriminate.
    + injection Heq as <- ->.
      destruct (H1 pre tx opts res l eq_refl) as (i & bh & pre' & Hi & Htx & Hopts & ->).
      exists i, bh, pre'. auto.
  - destruct (H2 l tx opts res post Heq) as (i & bh & pre' & Hi & Htx & Hopts & ->).
    exists i, bh, (tr1 ++ pre')%list. rewrite app_assoc. auto.
Qed.

Lemma guarded_weaken lo hi lo' hi' tr :
  lo' <= lo -> hi <= hi' ->
  creationsGuarded creator member2 threshold lo hi tr ->
  creationsGuarded creator member2 threshold lo' hi' tr.
Proof.
  intros Hlo Hhi H pre tx opts res post Heq.
  destruct (H pre tx opts res post Heq) as (i & bh & pre' & Hi & Hrest).
  exists i, bh, pre'. split; [lia|exact Hrest].
Qed.

Lemma attemptShape_guarded i tr o :
  attemptShape creator member2 threshold i tr o ->
  creationsGuarded creator member2 threshold i (i + 1) tr.
Proof.
  intros (r0 & rest & -> & _ & [Hquiet|(bh & res & tail & -> & -> & Htail)]).
  - apply guarded_quiet. unfold noSubmission. cbn [forallb isSubmission negb andb].
    apply quiet_noSubmission, Hquiet.
  - intros pre tx opts res' post Heq.
    destruct pre as [|e1 [|e2 [|e3 pre]]]; try discriminate.
    + injection Heq as <- <- <- <-.
      exists i, bh, []. split; [lia|]. auto.
    + exfalso. injection Heq as _ _ _ Heq.
      apply quiet_noSubmission in Htail. unfold noSubmission in Htail.
      rewrite Heq, forallb_app in Htail.
      apply andb_prop in Htail as [_ Htail]. discriminate.
Qed.

Lemma attemptsFrom_guarded n :
  forall i lastError,
  paths (attemptsFrom creator member2 threshold n i lastError)
    (fun tr _ => creationsGuarded creator member2 threshold i (i + Z.of_nat n) tr).
Proof.
  induction n as [|n IH]; intros i lastError; cbn [attemptsFrom].
  - cbn [paths]. apply guarded_quiet. reflexivity.
  - apply paths_bind. eapply paths_mono; [|apply attempt_shape].
    intros tr o Hshape. apply attemptShape_guarded in Hshape.
    assert (Hhere : creationsGuarded creator member2 threshold i
                      (i + Z.of_nat (S n)) tr).
    { revert Hshape. apply guarded_weaken; lia. }
    destruct o as [[r|lastError']|e]; cbn beta iota.
    + cbn [paths]. rewrite app_nil_r. exact Hhere.
    + eapply paths_mono; [|apply (IH (i + 1) lastError')].
      intros tr' o' Hrest. apply guarded_app; [exact Hhere|].
      revert Hrest. apply guarded_weaken; lia.
    + exact Hhere.
Qed.

Lemma attemptsFrom_starts n i lastError :
  paths (attemptsFrom creator member2 threshold (S n) i lastError)
    (fun tr _ =>
       exists r0 rest,
         tr = EGetAccountInfo (multisigPdaOf creator i) None r0 :: rest).
Proof.
  cbn [attemptsFrom]. apply paths_bind. eapply paths_mono; [|apply attempt_shape].
  intros tr o (r0 & rest & -> & _).
  destruct o as [[r|lastError']|e]; cbn beta iota.
  - cbn [paths]. eexists _, _. reflexivity.
  - apply paths_any. intros tr' o'. eexists _, _. reflexivity.
  - eexists _, _. reflexivity.
Qed.

(** *** A rejected existence check ends the call *)

Lemma quiet_not_bare a r tr :
  forallb quiet tr = true -> ~ In (EGetAccountInfo a None r) tr.
Proof.
  intros Hquiet Hin. apply (forallb_In _ _ _ Hquiet) in Hin. discriminate.
Qed.

Lemma attemptsFrom_aborts n :
  forall i lastError,
  paths (attemptsFrom creator member2 threshold n i lastError) abortsOn.
Proof.
  induction n as [|n IH]; intros i lastError; cbn [attemptsFrom].
  - cbn [paths]. intros a e [].
  - apply paths_bind. eapply paths_mono; [|apply attempt_shape].
    intros tr o (r0 & rest & -> & Hrejected & Hshape).
    assert (Hrest : forall a r, ~ In (EGetAccountInfo a None r) rest).
    { intros a r Hin.
      destruct Hshape as [Hquiet|(bh & res & tail & _ & -> & Htail)].
      - apply (quiet_not_bare _ _ _ Hquiet Hin).
      - destruct Hin as [Hin|[Hin|Hin]]; try discriminate.
        apply (quiet_not_bare _ _ _ Htail Hin). }
    assert (Hhere : forall A (o' : Outcome A),
              (forall e, r0 = Rejected e -> o' = Thrown e) ->
              forall a e,
                In (EGetAccountInfo a None (Rejected e))
                   (EGetAccountInfo (multisigPdaOf creator i) None r0 :: rest) ->
                o' = Thrown e
                /\ exists pre,
                     EGetAccountInfo (multisigPdaOf creator i) None r0 :: rest
                     = (pre ++ [EGetAccountInfo a None (Rejected e)])%list).
    { intros A o' Ho' a e [Hin|Hin]; [|destruct (Hrest _ _ Hin)].
      injection Hin as -> ->. destruct (Hrejected e eq_refl) as [-> _].
      split; [apply Ho'; reflexivity|]. exists []. reflexivity. }
    destruct o as [[r|lastError']|e]; cbn beta iota.
    + cbn [paths]. rewrite app_nil_r. intros a e Hin.
      apply (Hhere _ (Returned r)); [|exact Hin].
      intros e' He'. destruct (Hrejected e' He') as [_ Hfalse]. discriminate.
    + eapply paths_mono; [|apply (IH (i + 1) lastError')].
      intros tr' o' Hnext a e Hin.
      change (In (EGetAccountInfo a None (Rejected e))
                ([EGetAccountInfo (multisigPdaOf creator i) None r0] ++ rest ++ tr'))
        in Hin.
      apply in_app_or in Hin as [[Hin|[]]|Hin].
      { injection Hin as -> ->.
        destruct (Hrejected e eq_refl) as [_ Hfalse]. discriminate. }
      apply in_app_or in Hin as [Hin|Hin]; [destruct (Hrest _ _ Hin)|].
      destruct (Hnext a e Hin) as [-> [pre ->]]. split; [reflexivity|].
      exists (EGetAccountInfo (multisigPdaOf creator i) None r0 :: rest ++ pre)%list.
      cbn [app]. rewrite <- app_assoc. reflexivity.
    + intros a e' Hin. apply (Hhere _ (Thrown e)); [|exact Hin].
      intros e'' He''. destruct (Hrejected e'' He'') as [_ Hthrown].
      injection Hthrown as ->. reflexivity.
Qed.

End ProvisionerShape.

Section ProvisionerExtras.
Context {sdk : Sdk}.

(** X3. createSquad reads the creator's balance before anything else.  When
    the read rejects, or shows less than 0.01 SOL (10000000 lamports), the
    call throws right there (the rejection, or the insufficient funds
    error) and nothing else is done: no address is looked up and nothing
    is submitted.  Otherwise the next thing it does is the lookup of the
    address of attempt 0. *)
Theorem createSquad_balance_guard
    S (env : Env S) (s : S) (creator : Keypair) (member2 : PublicKey)
    (threshold : Z) :
  let r := run env (createSquad creator member2 threshold) s in
  exists answer rest,
    trace r = EGetBalance (publicKey creator) answer :: rest
    /\ match answer with
       | Resolved balance =>
           if balance <? 10000000
           then rest = [] /\ outcome r = Thrown (insufficientFunds balance)
           else exists r0 rest',
                  rest = EGetAccountInfo (multisigPdaOf creator 0) None r0 :: rest'
       | Rejected e => rest = [] /\ outcome r = Thrown e
       end.
Proof.
  intros r. subst r.
  refine (paths_run _ (fun tr o =>
            exists answer rest,
              tr = EGetBalance (publicKey creator) answer :: rest
              /\ match answer with
                 | Resolved balance =>
                     if balance <? 10000000
                     then rest = [] /\ o = Thrown (insufficientFunds balance)
                     else exists r0 rest',
                            rest = EGetAccountInfo (multisigPdaOf creator 0) None r0
                                   :: rest'
                 | Rejected e => rest = [] /\ o = Thrown e
                 end) _ S env s).
  unfold createSquad.
  apply paths_await_bind. intros [balance|e]; cbn [mkEvent].
  2:{ exists (Rejected e), []. split; [reflexivity|]. split; reflexivity. }
  destruct (balance <? 10000000) eqn:Hlow.
  { cbn [paths]. exists (Resolved balance), []. split; [reflexivity|].
    rewrite Hlow. split; reflexivity. }
  eapply paths_mono; [|apply (attemptsFrom_starts creator member2 threshold 9 0 None)].
  intros tr o (r0 & rest' & ->).
  exists (Resolved balance), (EGetAccountInfo (multisigPdaOf creator 0) None r0 :: rest').
  split; [reflexivity|]. rewrite Hlow. exists r0, rest'. reflexivity.
Qed.

(** X4. The creations that a run of createSquad submits are those of a
    subsequence of the attempts 0, 1, ..., 9, in this order: at most ten,
    never two for the same index, and never one for an earlier index after
    one for a later index.  Nothing else is ever submitted. *)
Theorem createSquad_one_creation_per_index
    S (env : Env S) (s : S) (creator : Keypair) (member2 : PublicKey)
    (threshold : Z) :
  let r := run env (createSquad creator member2 threshold) s in
  exists l : list (nat * string * Settled string),
    List.filter isSubmission (trace r)
    = map (creationEvent creator member2 threshold) l
    /\ sublist (map (fun x => fst (fst x)) l) (seq 0 10)
    /\ (List.length (List.filter isSubmission (trace r)) <= 10)%nat.
Proof.
  intros r. subst r.
  refine (paths_run _ (fun tr _ =>
            exists l : list (nat * string * Settled string),
              List.filter isSubmission tr
              = map (creationEvent creator member2 threshold) l
              /\ sublist (map (fun x => fst (fst x)) l) (seq 0 10)
              /\ (List.length (List.filter isSubmission tr) <= 10)%nat)
            _ S env s).
  assert (Hbound : forall (tr : list Event) (l : list (nat * string * Settled string)),
            List.filter isSubmission tr
            = map (creationEvent creator member2 threshold) l ->
            sublist (map (fun x => fst (fst x)) l) (seq 0 10) ->
            (List.length (List.filter isSubmission tr) <= 10)%nat).
  { intros tr l -> Hsub. apply sublist_length in Hsub.
    rewrite !length_map in *. rewrite length_seq in Hsub. exact Hsub. }
  unfold createSquad.
  apply paths_await_bind. intros [balance|e]; cbn [mkEvent].
  2:{ exists []. split; [reflexivity|]. split; [apply sublist_nil_l|]. simpl. lia. }
  destruct (balance <? 10000000).
  { cbn [paths]. exists []. split; [reflexivity|].
    split; [apply sublist_nil_l|]. simpl. lia. }
  eapply paths_mono; [|apply (attemptsFrom_creations creator member2 threshold
                                MAX_ATTEMPTS 0%nat None)].
  intros tr o (l & Hl & Hsub). exists l.
  assert (Hfilter : List.filter isSubmission
                      (EGetBalance (publicKey creator) (Resolved balance) :: tr)
                    = map (creationEvent creator member2 threshold) l)
    by exact Hl.
  split; [exact Hfilter|]. split; [exact Hsub|].
  apply (Hbound _ l Hfilter Hsub).
Qed.

(** X5. createSquad never creates over an account it has seen: every
    creation it submits is that of an attempt [i] of [0 .. 9] and comes
    right after the lookup of the multisig address of that attempt, which
    found no account there, and the read of the blockhash the transaction
    is built on. *)
Theorem createSquad_creates_on_empty_address
    S (env : Env S) (s : S) (creator : Keypair) (member2 : PublicKey)
    (threshold : Z) (pre post : list Event) (tx : Tx) (opts : SendOptions)
    (res : Settled string) :
  trace (run env (createSquad creator member2 threshold) s)
  = (pre ++ ESendTransaction tx opts res :: post)%list ->
  exists i blockhash pre',
    0 <= i < 10
    /\ tx = creationTx creator member2 threshold i blockhash
    /\ opts = createOpts
    /\ pre = (pre' ++ [EGetAccountInfo (multisigPdaOf creator i) None (Resolved None);
                       EGetLatestBlockhash (Resolved blockhash)])%list.
Proof.
  revert pre tx opts res post.
  change (creationsGuarded creator member2 threshold 0 10
            (trace (run env (createSquad creator member2 threshold) s))).
  refine (paths_run _ (fun tr _ => creationsGuarded creator member2 threshold 0 10 tr)
            _ S env s).
  unfold createSquad.
  apply paths_await_bind. intros [balance|e]; cbn [mkEvent].
  2:{ apply guarded_quiet. reflexivity. }
  destruct (balance <? 10000000).
  { cbn [paths]. apply guarded_quiet. reflexivity. }
  eapply paths_mono; [|apply (attemptsFrom_guarded creator member2 threshold
                                MAX_ATTEMPTS 0 None)].
  intros tr o Hguarded.
  apply (guarded_app _ _ _ _ _ [EGetBalance (publicKey creator) (Resolved balance)]).
  - apply guarded_quiet. reflexivity.
  - exact Hguarded.
Qed.

(** X6. The existence check at the head of an attempt is not guarded: when
    a lookup without commitment rejects, createSquad throws that very
    exception and the rejected lookup is the last thing it did; the
    remaining indices are not tried. *)
Theorem createSquad_lookup_rejection_aborts
    S (env : Env S) (s : S) (creator : Keypair) (member2 : PublicKey)
    (threshold : Z) (a : PublicKey) (e : JsError) :
  let r := run env (createSquad creator member2 threshold) s in
  In (EGetAccountInfo a None (Rejected e)) (trace r) ->
  outcome r = Thrown e
  /\ exists pre, trace r = (pre ++ [EGetAccountInfo a None (Rejected e)])%list.
Proof.
  intros r. subst r. revert a e.
  refine (paths_run _ (fun tr o => abortsOn tr o) _ S env s).
  unfold createSquad.
  apply paths_await_bind. intros [balance|e]; cbn [mkEvent].
  2:{ intros a e' [Hin|[]]. discriminate. }
  destruct (balance <? 10000000).
  { cbn [paths]. intros a e' [Hin|[]]. discriminate. }
  eapply paths_mono; [|apply (attemptsFrom_aborts creator member2 threshold
                                MAX_ATTEMPTS 0 None)].
  intros tr o Haborts a e [Hin|Hin]; [discriminate|].
  destruct (Haborts a e Hin) as [-> [pre ->]]. split; [reflexivity|].
  exists (EGetBalance (publicKey creator) (Resolved balance) :: pre). reflexivity.
Qed.

End ProvisionerExtras.

(** ** The 6014 handler and the pauses of the module *)

Lemma verifyOwnership_shape pda retries :
  paths (verifyOwnership pda retries) (verifyShape pda retries).
Proof.
  induction retries as [|n IH]; cbn [verifyOwnership].
  - cbn [paths]. exists []. split; [constructor|]. left. repeat split.
  - apply paths_await_bind. intros [check|e]; cbn [mkEvent].
    + destruct (ownedBySquads check) eqn:Howned.
      * cbn [paths]. destruct check as [info|]; [|discriminate].
        exists []. split; [constructor|]. right. left. exists info.
        split; [simpl; lia|]. split; [exact Howned|]. split; reflexivity.
      * unfold sleep. cbn [bind paths]. eapply paths_mono; [|exact IH].
        intros tr o (unowned & Hunowned & Hcase).
        exists (check :: unowned). split; [constructor; assumption|].
        destruct Hcase as [(Hlen & -> & ->)|[(info & Hlen & Hinfo & -> & ->)
                                            |(e & Hlen & -> & ->)]].
        -- left. split; [simpl; lia|]. split; reflexivity.
        -- right. left. exists info. split; [simpl; lia|].
           split; [exact Hinfo|]. split; reflexivity.
        -- right. right. exists e. split; [simpl; lia|]. split; reflexivity.
    + exists []. split; [constructor|]. right. right. exists e.
      split; [simpl; lia|]. split; reflexivity.
Qed.

Lemma in_rereads pda unowned ev :
  In ev (rereads pda unowned) ->
  ev = ESleep 1000
  \/ exists x, In x unowned
               /\ ev = EGetAccountInfo pda (Some "confirmed") (Resolved x).
Proof.
  induction unowned as [|x unowned IH]; cbn [rereads map concat app In].
  - intros [].
  - intros [<-|[<-|Hin]].
    + right. exists x. split; [left; reflexivity|reflexivity].
    + left. reflexivity.
    + destruct (IH Hin) as [->|(y & Hy & ->)]; [left; reflexivity|].
      right. exists y. split; [right; exact Hy|reflexivity].
Qed.

Lemma verifyShape_verified pda retries tr o :
  verifyShape pda retries tr o -> verifiedAt pda tr -> o = Returned true.
Proof.
  intros (unowned & Hunowned & Hcase) (cm & info & Hin & Hinfo).
  assert (Hnot : ~ In (EGetAccountInfo pda cm (Resolved (Some info)))
                      (rereads pda unowned)).
  { intros H. apply in_rereads in H as [H|(x & Hx & H)]; [discriminate|].
    injection H as _ <-. rewrite Forall_forall in Hunowned.
    apply list_elem_of_In, Hunowned in Hx. congruence. }
  destruct Hcase as [(_ & -> & _)|[(info' & _ & _ & -> & ->)|(e & _ & -> & _)]].
  - contradiction.
  - reflexivity.
  - apply in_app_or in Hin as [Hin|[Hin|[]]]; [contradiction|discriminate].
Qed.

Lemma verifyShape_rejected pda retries tr o cm e :
  verifyShape pda retries tr o ->
  In (EGetAccountInfo pda cm (Rejected e)) tr -> o = Thrown e.
Proof.
  intros (unowned & Hunowned & Hcase) Hin.
  assert (Hnot : ~ In (EGetAccountInfo pda cm (Rejected e)) (rereads pda unowned)).
  { intros H. apply in_rereads in H as [H|(x & Hx & H)]; discriminate. }
  destruct Hcase as [(_ & -> & _)|[(info' & _ & _ & -> & _)|(e' & _ & -> & ->)]].
  - contradiction.
  - apply in_app_or in Hin as [Hin|[Hin|[]]]; [contradiction|discriminate].
  - apply in_app_or in Hin as [Hin|[Hin|[]]]; [contradiction|].
    injection Hin as _ <-. reflexivity.
Qed.

Section Handler.
Context {sdk : Sdk} {S : Type} (env : Env S).
Variables (creator : Keypair) (member2 : PublicKey) (threshold : Z).

Lemma run_attemptsFrom_initialized s n i lastError e :
  let read := respond env (getAccountInfo (multisigPdaOf creator i) None) s in
  let try := run env (tryCreate creator member2 threshold i) (snd read) in
  let check :=
    run env (verifyOwnership (multisigPdaOf creator i) 5) (final try) in
  let tr :=
    (EGetAccountInfo (multisigPdaOf creator i) None (Resolved None)
       :: trace try ++ trace check)%list in
  fst read = Resolved None ->
  outcome try = Thrown e ->
  alreadyInitialized e = true ->
  run env (attemptsFrom creator member2 threshold (Datatypes.S n) i lastError) s
  = match outcome check with
    | Returned true =>
        mkRun (Returned {| signature := "RECOVERED_6014";
                           multisigPda := multisigPdaOf creator i;
                           vaultPda := vaultPdaOf creator i |})
          tr (final check)
    | Returned false =>
        after tr
          (run env (attemptsFrom creator member2 threshold n (i + 1) (Some e))
             (final check))
    | Thrown e' => mkRun (Thrown e') tr (final check)
    end.
Proof.
  intros read try check tr Hread Htry Hinit.
  cbn [attemptsFrom]. unfold attempt.
  rewrite !run_bind, run_await. fold read. rewrite Hread.
  cbn [outcome trace final mkEvent ownedBySquads].
  rewrite run_try_catch, run_bind. fold try. rewrite Htry.
  cbn [outcome trace final]. unfold onCreateError. rewrite Hinit.
  rewrite run_bind. fold check.
  destruct (outcome check) as [[|]|e']; cbn [run]; unfold after;
    cbn [outcome trace final app]; rewrite ?app_nil_r; reflexivity.
Qed.

(** X7. How createSquad deals with a creation that is refused as already
    initialized (error 6014, or "already in use") at an address that the
    first lookup found empty.  It re-reads the address at the confirmed
    commitment, at most five times with a pause of one second after each
    read that shows no account owned by the Squads program, and the
    re-reads end in exactly one of three ways.  When a read shows an
    account owned by the Squads program, the call returns at once the
    addresses of this attempt with the signature "RECOVERED_6014".  When
    none of the five does, the loop moves on to the next index with the
    error kept.  When a read rejects, the call throws that rejection and
    the remaining indices are not tried. *)
Theorem createSquad_already_initialized
    (s : S) (n : nat) (i : Z) (lastError : option JsError) (e : JsError) :
  let read := respond env (getAccountInfo (multisigPdaOf creator i) None) s in
  let try := run env (tryCreate creator member2 threshold i) (snd read) in
  let check :=
    run env (verifyOwnership (multisigPdaOf creator i) 5) (final try) in
  let tr :=
    (EGetAccountInfo (multisigPdaOf creator i) None (Resolved None)
       :: trace try ++ trace check)%list in
  let r :=
    run env (attemptsFrom creator member2 threshold (Datatypes.S n) i lastError) s in
  fst read = Resolved None ->
  outcome try = Thrown e ->
  alreadyInitialized e = true ->
  verifyShape (multisigPdaOf creator i) 5 (trace check) (outcome check)
  /\ (verifiedAt (multisigPdaOf creator i) (trace check) ->
      r = mkRun (Returned {| signature := "RECOVERED_6014";
                             multisigPda := multisigPdaOf creator i;
                             vaultPda := vaultPdaOf creator i |})
            tr (final check))
  /\ (readsAs (fun x => ownedBySquads x = false) (multisigPdaOf creator i)
        (trace check) ->
      r = after tr
            (run env (attemptsFrom creator member2 threshold n (i + 1) (Some e))
               (final check)))
  /\ (forall e',
        In (EGetAccountInfo (multisigPdaOf creator i) (Some "confirmed")
              (Rejected e')) (trace check) ->
        r = mkRun (Thrown e') tr (final check)).
Proof.
  intros read try check tr r Hread Htry Hinit.
  pose proof (run_attemptsFrom_initialized s n i lastError e Hread Htry Hinit)
    as Hrun.
  cbv zeta in Hrun. fold read try check tr r in Hrun.
  assert (Hshape : verifyShape (multisigPdaOf creator i) 5 (trace check)
                     (outcome check))
    by apply (paths_run _ _ (verifyOwnership_shape (multisigPdaOf creator i) 5)
                S env (final try)).
  split; [exact Hshape|]. split; [|split].
  - intros Hverified.
    rewrite (verifyShape_verified _ _ _ _ Hshape Hverified) in Hrun. exact Hrun.
  - intros Hreads.
    assert (Hcheck : outcome check = Returned false)
      by apply (paths_run _ _ (verifyOwnership_unverified _ _) S env _ Hreads).
    rewrite Hcheck in Hrun. exact Hrun.
  - intros e' Hin.
    rewrite (verifyShape_rejected _ _ _ _ _ _ Hshape Hin) in Hrun. exact Hrun.
Qed.

End Handler.

Lemma sleepTime_app tr1 tr2 :
  sleepTime (tr1 ++ tr2) = sleepTime tr1 + sleepTime tr2.
Proof.
  induction tr1 as [|ev tr1 IH]; [reflexivity|].
  destruct ev; cbn [app sleepTime]; rewrite ?IH; lia.
Qed.

Lemma sleepTime_quiet tr :
  forallb (fun ev => negb (isPause ev)) tr = true -> sleepTime tr = 0.
Proof.
  induction tr as [|ev tr IH]; [reflexivity|]. cbn [forallb].
  intros H. apply andb_prop in H as [Hev Htr].
  destruct ev; try discriminate; cbn [sleepTime]; apply IH, Htr.
Qed.

Lemma untilVisible_sleeps pda ms retries :
  0 <= ms ->
  paths (untilVisible pda ms retries)
    (fun tr _ => 0 <= sleepTime tr <= Z.of_nat retries * ms).
Proof.
  intros Hms. induction retries as [|n IH]; cbn [untilVisible].
  - cbn [paths sleepTime]. lia.
  - assert (Hstep : Z.of_nat (S n) * ms = ms + Z.of_nat n * ms) by lia.
    assert (Hrest : 0 <= Z.of_nat n * ms) by nia.
    rewrite Hstep.
    apply paths_await_bind. intros [[info|]|e]; cbn [mkEvent].
    + cbn [paths sleepTime]. lia.
    + unfold sleep. cbn [bind paths]. eapply paths_mono; [|exact IH].
      intros tr o Htr. cbn beta in Htr. cbn [sleepTime]. lia.
    + cbn [sleepTime]. lia.
Qed.

Lemma verifyOwnership_sleeps pda retries :
  paths (verifyOwnership pda retries)
    (fun tr _ => 0 <= sleepTime tr <= Z.of_nat retries * 1000).
Proof.
  induction retries as [|n IH]; cbn [verifyOwnership].
  - cbn [paths sleepTime]. lia.
  - assert (Hstep : Z.of_nat (S n) * 1000 = 1000 + Z.of_nat n * 1000) by lia.
    rewrite Hstep.
    apply paths_await_bind. intros [check|e]; cbn [mkEvent].
    + destruct (ownedBySquads check).
      * cbn [paths sleepTime]. lia.
      * unfold sleep. cbn [bind paths]. eapply paths_mono; [|exact IH].
        intros tr o Htr. cbn beta in Htr. cbn [sleepTime]. lia.
    + cbn [sleepTime]. lia.
Qed.

Section Waiting.
Context {sdk : Sdk}.

Lemma paths_sleeps_bind {A B} (p : Prog A) (f : A -> Prog B) (b1 b2 : Z) :
  paths p (fun tr _ => 0 <= sleepTime tr <= b1) ->
  (forall a, paths (f a) (fun tr _ => 0 <= sleepTime tr <= b2)) ->
  0 <= b2 ->
  paths (bind p f) (fun tr _ => 0 <= sleepTime tr <= b1 + b2).
Proof.
  intros Hp Hf Hb2. apply paths_bind. eapply paths_mono; [|exact Hp].
  intros tr [a|e] Htr; cbn beta iota.
  - eapply paths_mono; [|apply Hf]. intros tr' o' Htr'. cbn beta in Htr'.
    rewrite sleepTime_app. lia.
  - lia.
Qed.

Lemma paths_sleeps_try {A} (p : Prog A) (h : JsError -> Prog A) (b1 b2 : Z) :
  paths p (fun tr _ => 0 <= sleepTime tr <= b1) ->
  (forall e, paths (h e) (fun tr _ => 0 <= sleepTime tr <= b2)) ->
  0 <= b2 ->
  paths (try_catch p h) (fun tr _ => 0 <= sleepTime tr <= b1 + b2).
Proof.
  intros Hp Hh Hb2. apply paths_try_catch. eapply paths_mono; [|exact Hp].
  intros tr [a|e] Htr; cbn beta iota.
  - lia.
  - eapply paths_mono; [|apply Hh]. intros tr' o' Htr'. cbn beta in Htr'.
    rewrite sleepTime_app. lia.
Qed.

Lemma paths_sleeps_none {A} (p : Prog A) :
  only (fun ev => negb (isPause ev)) p ->
  paths p (fun tr _ => 0 <= sleepTime tr <= 0).
Proof.
  intros Hp. eapply paths_mono; [|exact Hp].
  intros tr o Htr. rewrite (sleepTime_quiet _ Htr). lia.
Qed.

Lemma tryCreate_sleeps creator member2 threshold i :
  paths (tryCreate creator member2 threshold i)
    (fun tr _ => 0 <= sleepTime tr <= 10000).
Proof.
  unfold tryCreate.
  settled; [|cbn [paths sleepTime]; lia].
  apply paths_await_bind. intros [bh|e]; cbn [mkEvent]; [|cbn [sleepTime]; lia].
  settled; [|cbn [paths sleepTime]; lia].
  apply paths_await_bind. intros [sig|e]; cbn [mkEvent]; [|cbn [sleepTime]; lia].
  apply paths_await_bind. intros [[err|]|e]; cbn [mkEvent];
    [cbn [paths sleepTime]; lia| |cbn [sleepTime]; lia].
  apply paths_bind.
  eapply paths_mono; [|apply (untilVisible_sleeps _ 1000 10); lia].
  intros tr [[]|e] Htr; cbn beta iota; cbn [paths sleepTime];
    rewrite ?app_nil_r; lia.
Qed.

Lemma attempt_sleeps creator member2 threshold i lastError :
  paths (attempt creator member2 threshold i lastError)
    (fun tr _ => 0 <= sleepTime tr <= 15000).
Proof.
  unfold attempt.
  apply paths_await_bind. intros [x|e]; cbn [mkEvent]; [|cbn [sleepTime]; lia].
  destruct (ownedBySquads x); [cbn [paths sleepTime]; lia|].
  destruct x as [info|]; [cbn [paths sleepTime]; lia|].
  cbn [sleepTime].
  apply (paths_sleeps_try _ _ 10000 5000); [| |lia].
  - replace 10000 with (10000 + 0) by lia. apply paths_sleeps_bind; [| |lia].
    + apply tryCreate_sleeps.
    + intros r. cbn [paths sleepTime]. lia.
  - intros e. unfold onCreateError. destruct (alreadyInitialized e).
    + replace 5000 with (5000 + 0) by lia. apply paths_sleeps_bind; [| |lia].
      * apply (verifyOwnership_sleeps _ 5).
      * intros [|]; cbn [paths sleepTime]; lia.
    + cbn [paths sleepTime]. lia.
Qed.

Lemma attemptsFrom_sleeps creator member2 threshold n :
  forall i lastError,
  paths (attemptsFrom creator member2 threshold n i lastError)
    (fun tr _ => 0 <= sleepTime tr <= Z.of_nat n * 15000).
Proof.
  induction n as [|n IH]; intros i lastError; cbn [attemptsFrom].
  - cbn [paths sleepTime]. lia.
  - replace (Z.of_nat (S n) * 15000) with (15000 + Z.of_nat n * 15000) by lia.
    apply paths_sleeps_bind; [apply attempt_sleeps| |lia].
    intros [r|lastError']; [cbn [paths sleepTime]; lia|apply IH].
Qed.

Ltac no_pause :=
  apply paths_sleeps_none; only_tac.

(** X8. The waiting of the module is bounded.  Whatever the connection
    answers, createSquad pauses for at most 150 seconds in all (ten
    attempts of at most 15 pauses of one second), and
    createTransferProposal and createSwapProposal for at most 30 seconds
    (15 pauses of two seconds). *)
Theorem waiting_is_bounded
    S (env : Env S) (s : S) (creator : Keypair) (member2 : PublicKey)
    (threshold : Z) (multisigPda vaultPda recipient : PublicKey)
    (amountLamports transactionIndex : Z)
    (swapInstructions : SwapInstructionsResponse) :
  0 <= sleepTime (trace (run env (createSquad creator member2 threshold) s))
    <= 150000
  /\ 0 <= sleepTime (trace (run env (createTransferProposal creator multisigPda
                                      vaultPda recipient amountLamports
                                      transactionIndex) s))
       <= 30000
  /\ 0 <= sleepTime (trace (run env (createSwapProposal creator multisigPda
                                      vaultPda swapInstructions
                                      transactionIndex) s))
       <= 30000.
Proof.
  split; [|split].
  - refine (paths_run _ (fun tr _ => 0 <= sleepTime tr <= 150000) _ S env s).
    unfold createSquad.
    apply paths_await_bind. intros [balance|e]; cbn [mkEvent];
      [|cbn [sleepTime]; lia].
    destruct (balance <? 10000000); [cbn [paths sleepTime]; lia|].
    cbn [sleepTime].
    apply (attemptsFrom_sleeps creator member2 threshold MAX_ATTEMPTS 0 None).
  - refine (paths_run _ (fun tr _ => 0 <= sleepTime tr <= 30000) _ S env s).
    unfold createTransferProposal.
    replace 30000 with (30000 + 0) by lia. apply paths_sleeps_bind; [| |lia].
    + apply (untilVisible_sleeps _ 2000 15). lia.
    + intros _. no_pause.
  - refine (paths_run _ (fun tr _ => 0 <= sleepTime tr <= 30000) _ S env s).
    unfold createSwapProposal.
    replace 30000 with (30000 + 0) by lia. apply paths_sleeps_bind; [| |lia].
    + apply (untilVisible_sleeps _ 2000 15). lia.
    + intros _. no_pause.
Qed.

End Waiting.

Lemma emptyPolls_S pda ms k :
  emptyPolls pda ms (S k)
  = EGetAccountInfo pda (Some "confirmed") (Resolved None) :: ESleep ms
      :: emptyPolls pda ms k.
Proof. reflexivity. Qed.

Lemma untilVisible_shape pda ms retries :
  paths (untilVisible pda ms retries) (waitShape pda ms retries).
Proof.
  induction retries as [|n IH]; cbn [untilVisible].
  - cbn [paths]. left. split; reflexivity.
  - apply paths_await_bind. intros [[info|]|e]; cbn [mkEvent].
    + cbn [paths]. right. left. exists 0%nat, info. split; [lia|]. split; reflexivity.
    + unfold sleep. cbn [bind paths]. eapply paths_mono; [|exact IH].
      intros tr o [[-> ->]|[(k & info & Hk & -> & ->)|(k & e & Hk & -> & ->)]].
      * left. split; reflexivity.
      * right. left. exists (S k), info. split; [lia|]. split; reflexivity.
      * right. right. exists (S k), e. split; [lia|]. split; reflexivity.
    + right. right. exists 0%nat, e. split; [lia|]. split; reflexivity.
Qed.

Lemma lastTwo_spec tr a b :
  lastTwo tr = Some (a, b) <-> exists pre, tr = (pre ++ [a; b])%list.
Proof.
  unfold lastTwo. split.
  - destruct (rev tr) as [|b' [|a' l]] eqn:Hrev; try discriminate.
    intros H. injection H as <- <-. exists (rev l).
    apply (f_equal (@rev _)) in Hrev. rewrite rev_involutive in Hrev.
    rewrite Hrev. cbn [rev]. rewrite <- app_assoc. reflexivity.
  - intros [pre ->]. rewrite rev_app_distr. reflexivity.
Qed.

Lemma lastTwo_polls polls a b :
  forallb isPoll polls = true -> lastTwo polls = Some (a, b) -> isPoll b = true.
Proof.
  intros Hpolls H. apply lastTwo_spec in H as [pre ->].
  apply (forallb_In _ _ _ Hpolls). apply in_or_app. right. right. left. reflexivity.
Qed.

Lemma lastTwo_snoc polls x a b :
  lastTwo (polls ++ [x]) = Some (a, b) -> b = x.
Proof.
  unfold lastTwo. rewrite rev_app_distr. cbn [rev app].
  destruct (rev polls); [discriminate|]. intros H. injection H as _ <-. reflexivity.
Qed.

Lemma lastTwo_snoc2 polls l x y :
  lastTwo (polls ++ l ++ [x; y]) = Some (x, y).
Proof.
  unfold lastTwo. rewrite !rev_app_distr. reflexivity.
Qed.

Lemma lastTwo_last tr a b : lastTwo tr = Some (a, b) -> last tr = Some b.
Proof.
  intros H. apply lastTwo_spec in H as [pre ->].
  rewrite last_app. reflexivity.
Qed.

Section BuilderExtras.
Context {sdk : Sdk}.

Ltac returns_leaf Hpolls :=
  cbn beta; cbn [app]; rewrite ?app_nil_r;
  intros sig; split;
  [ intros Ho;
    first
      [ discriminate Ho
      | injection Ho as <-; eexists _, _;
        unfold lastTwo; rewrite rev_app_distr; reflexivity ]
  | intros (pargs & confirmation & Hlast);
    first
      [ apply (lastTwo_polls _ _ _ Hpolls) in Hlast; discriminate Hlast
      | apply lastTwo_last in Hlast; rewrite last_app in Hlast;
        cbn [last] in Hlast;
        first [ discriminate Hlast | injection Hlast as <- _; reflexivity ] ] ].

Ltac walk_all :=
  repeat first
    [ apply paths_try_catch
    | apply paths_await_bind; intros [?|?]; cbn [mkEvent]
    | settled
    | match goal with |- paths (if ?c then _ else _) _ => destruct c end
    | progress cbn [paths] ].

Lemma createTransferProposal_returns creator multisigPda vaultPda recipient
    amountLamports transactionIndex :
  paths (createTransferProposal creator multisigPda vaultPda recipient
           amountLamports transactionIndex)
    (returnsProposalSignature creator).
Proof.
  unfold createTransferProposal.
  apply paths_bind.
  eapply paths_mono;
    [|apply (only_untilVisible isPoll); intros [] ?; (reflexivity || discriminate)].
  intros polls [[]|e] Hpolls; cbn beta iota.
  - walk_all; returns_leaf Hpolls.
  - returns_leaf Hpolls.
Qed.

Lemma createSwapProposal_returns creator multisigPda vaultPda
    swapInstructions transactionIndex :
  paths (createSwapProposal creator multisigPda vaultPda swapInstructions
           transactionIndex)
    (returnsProposalSignature creator).
Proof.
  unfold createSwapProposal.
  apply paths_bind.
  eapply paths_mono;
    [|apply (only_untilVisible isPoll); intros [] ?; (reflexivity || discriminate)].
  intros polls [[]|e] Hpolls; cbn beta iota.
  - destruct (assemble swapInstructions) as [allInstructions|e]; cbn [settle bind].
    + walk_all; returns_leaf Hpolls.
    + cbn [paths]. returns_leaf Hpolls.
  - returns_leaf Hpolls.
Qed.

Lemma createTransferProposal_unseen creator multisigPda vaultPda recipient
    amountLamports transactionIndex :
  paths (createTransferProposal creator multisigPda vaultPda recipient
           amountLamports transactionIndex)
    (fun tr _ =>
       readsAs (fun x => x = None) multisigPda tr ->
       exists answer rest,
         tr = (emptyPolls multisigPda 2000 15
               ++ EGetBalance vaultPda answer :: rest)%list).
Proof.
  unfold createTransferProposal.
  apply paths_bind. eapply paths_mono; [|apply untilVisible_shape].
  intros polls o [[-> ->]|[(k & info & Hk & -> & ->)|(k & e & Hk & -> & ->)]];
    cbn beta iota.
  - unfold await. cbn [bind paths]. intros answer.
    apply paths_any. intros tr o _. eexists _, _. reflexivity.
  - apply paths_any. intros tr o Hreads. exfalso.
    destruct (Hreads (Some "confirmed") (Resolved (Some info))) as (x & Hx & ->).
    + apply in_or_app. left. apply in_or_app. right. left. reflexivity.
    + discriminate.
  - intros Hreads. exfalso.
    destruct (Hreads (Some "confirmed") (Rejected e)) as (x & Hx & _).
    + apply in_or_app. right. left. reflexivity.
    + discriminate.
Qed.

Lemma createSwapProposal_unseen creator multisigPda vaultPda swapInstructions
    transactionIndex :
  paths (createSwapProposal creator multisigPda vaultPda swapInstructions
           transactionIndex)
    (fun tr _ =>
       readsAs (fun x => x = None) multisigPda tr ->
       exists rest,
         tr = (emptyPolls multisigPda 2000 15 ++ rest)%list
         /\ forall allInstructions,
              assemble swapInstructions = Resolved allInstructions ->
              exists answer rest', rest = EGetLatestBlockhash answer :: rest').
Proof.
  unfold createSwapProposal.
  apply paths_bind. eapply paths_mono; [|apply untilVisible_shape].
  intros polls o [[-> ->]|[(k & info & Hk & -> & ->)|(k & e & Hk & -> & ->)]];
    cbn beta iota.
  - destruct (assemble swapInstructions) as [allInstructions|e]; cbn [settle bind].
    + unfold await. cbn [bind paths]. intros answer.
      apply paths_any. intros tr o _. eexists. split; [reflexivity|].
      intros all _. eexists _, _. reflexivity.
    + cbn [paths]. intros _. exists []. split; [reflexivity|].
      intros all Hall. discriminate.
  - apply paths_any. intros tr o Hreads. exfalso.
    destruct (Hreads (Some "confirmed") (Resolved (Some info))) as (x & Hx & ->).
    + apply in_or_app. left. apply in_or_app. right. left. reflexivity.
    + discriminate.
  - intros Hreads. exfalso.
    destruct (Hreads (Some "confirmed") (Rejected e)) as (x & Hx & _).
    + apply in_or_app. right. left. reflexivity.
    + discriminate.
Qed.

(** *** The instruction bundle *)

Lemma mapSettled_app {X Y} (f : X -> Settled Y) (l1 l2 : list X) :
  mapSettled f (l1 ++ l2)
  = andThen (mapSettled f l1) (fun a =>
    andThen (mapSettled f l2) (fun b => Resolved (a ++ b)%list)).
Proof.
  induction l1 as [|x l1 IH]; cbn [mapSettled app andThen].
  - destruct (mapSettled f l2); reflexivity.
  - destruct (f x) as [y|e]; cbn [andThen]; [|reflexivity].
    rewrite IH. destruct (mapSettled f l1) as [a|e]; cbn [andThen]; [|reflexivity].
    destruct (mapSettled f l2); reflexivity.
Qed.

Lemma mapSettled_Forall2 {X Y} (f : X -> Settled Y) (l : list X) :
  forall l', mapSettled f l = Resolved l' ->
  Forall2 (fun x y => f x = Resolved y) l l'.
Proof.
  induction l as [|x l IH]; cbn [mapSettled]; intros l' H.
  - injection H as <-. constructor.
  - destruct (f x) as [y|e] eqn:Hx; cbn [andThen] in H; [|discriminate].
    destruct (mapSettled f l) as [ys|e]; cbn [andThen] in H; [|discriminate].
    injection H as <-. constructor; [exact Hx|]. apply IH. reflexivity.
Qed.

Lemma mapSettled_rejected {X Y} (f : X -> Settled Y) (l : list X) e :
  mapSettled f l = Rejected e -> exists x, In x l /\ f x = Rejected e.
Proof.
  induction l as [|x l IH]; cbn [mapSettled]; intros H; [discriminate|].
  destruct (f x) as [y|e'] eqn:Hx; cbn [andThen] in H.
  - destruct (mapSettled f l) as [ys|e']; cbn [andThen] in H; [discriminate|].
    injection H as ->. destruct (IH eq_refl) as (x' & Hin & Hx').
    exists x'. split; [right; exact Hin|exact Hx'].
  - injection H as ->. exists x. split; [left; reflexivity|exact Hx].
Qed.

End BuilderExtras.

Section BuilderTheorems.
Context {sdk : Sdk}.

(** X9. The three visibility polls of squads.ts are best-effort and
    bounded.  A poll of at most [retries] rounds ends in one of three
    ways: every round found nothing, and the code goes on after [retries]
    reads and as many pauses; or a round found the account, and the code
    goes on without a further pause; or a read rejected, and the
    rejection is thrown.  It never throws for an account that stays
    invisible. *)
Theorem untilVisible_best_effort
    S (env : Env S) (s : S) (pda : PublicKey) (ms : Z) (retries : nat) :
  let r := run env (untilVisible pda ms retries) s in
  waitShape pda ms retries (trace r) (outcome r).
Proof.
  intros r. subst r. apply (paths_run _ _ (untilVisible_shape pda ms retries)).
Qed.

(** X10. createTransferProposal and createSwapProposal do not require the
    multisig to be visible.  When every read of the multisig account
    finds nothing, they poll it 15 times with 2000 ms pauses and then go
    on regardless: the transfer path with the read of the vault balance,
    the swap path with the conversion of the bundle and, when it
    converts, the read of the blockhash. *)
Theorem proposals_go_on_unseen
    S (env : Env S) (s : S) (creator : Keypair)
    (multisigPda vaultPda recipient : PublicKey)
    (amountLamports transactionIndex : Z)
    (swapInstructions : SwapInstructionsResponse) :
  let t := run env (createTransferProposal creator multisigPda vaultPda
                      recipient amountLamports transactionIndex) s in
  let w := run env (createSwapProposal creator multisigPda vaultPda
                      swapInstructions transactionIndex) s in
  (readsAs (fun x => x = None) multisigPda (trace t) ->
   exists answer rest,
     trace t = (emptyPolls multisigPda 2000 15
                ++ EGetBalance vaultPda answer :: rest)%list)
  /\ (readsAs (fun x => x = None) multisigPda (trace w) ->
      exists rest,
        trace w = (emptyPolls multisigPda 2000 15 ++ rest)%list
        /\ forall allInstructions,
             assemble swapInstructions = Resolved allInstructions ->
             exists answer rest', rest = EGetLatestBlockhash answer :: rest').
Proof.
  intros t w. split.
  - apply (paths_run _ _ (createTransferProposal_unseen creator multisigPda vaultPda
                            recipient amountLamports transactionIndex) S env s).
  - apply (paths_run _ _ (createSwapProposal_unseen creator multisigPda vaultPda
                            swapInstructions transactionIndex) S env s).
Qed.

(** X11. What the proposal builders return is the signature of the proposal
    write, and they return it without looking at what the confirmations
    report: a call returns [sig] exactly when its last two steps were the
    proposal write resolving to [sig] and the await of its confirmation
    resolving, be it with an on-chain error. *)
Theorem proposal_returns_proposal_signature
    S (env : Env S) (s : S) (creator : Keypair)
    (multisigPda vaultPda recipient : PublicKey)
    (amountLamports transactionIndex : Z)
    (swapInstructions : SwapInstructionsResponse) (sig : string) :
  let t := run env (createTransferProposal creator multisigPda vaultPda
                      recipient amountLamports transactionIndex) s in
  let w := run env (createSwapProposal creator multisigPda vaultPda
                      swapInstructions transactionIndex) s in
  (outcome t = Returned sig <-> endsWithProposal creator sig (trace t))
  /\ (outcome w = Returned sig <-> endsWithProposal creator sig (trace w)).
Proof.
  intros t w.
  assert (Hconv : forall tr o,
            returnsProposalSignature creator tr o ->
            o = Returned sig <-> endsWithProposal creator sig tr).
  { intros tr o H. rewrite (H sig). unfold endsWithProposal. split.
    - intros (pargs & c & Hlast). apply lastTwo_spec in Hlast as [pre ->].
      exists pre, pargs, c. reflexivity.
    - intros (pre & pargs & c & ->). exists pargs, c. apply lastTwo_spec.
      exists pre. reflexivity. }
  split; apply Hconv.
  - apply (paths_run _ _ (createTransferProposal_returns creator multisigPda vaultPda
                            recipient amountLamports transactionIndex) S env s).
  - apply (paths_run _ _ (createSwapProposal_returns creator multisigPda vaultPda
                            swapInstructions transactionIndex) S env s).
Qed.

(** X12. convertSwapInstruction keeps the accounts of an instruction in
    their order, each with its signer and writable flags, and only
    replaces the base58 texts by keys and the base64 text by bytes.  When
    it throws, the exception is that of the program id or of one of the
    account keys. *)
Theorem convertSwapInstruction_keeps_accounts (ix : SwapInstructionData) :
  match convertSwapInstruction ix with
  | Resolved t =>
      PublicKey_new (sid_programId ix) = Resolved (programId t)
      /\ ixData t = Buffer_from_base64 (sid_data ix)
      /\ Forall2 (fun acc key =>
                    PublicKey_new (sia_pubkey acc) = Resolved (pubkey key)
                    /\ isSigner key = sia_isSigner acc
                    /\ isWritable key = sia_isWritable acc)
            (sid_accounts ix) (keys t)
  | Rejected e =>
      PublicKey_new (sid_programId ix) = Rejected e
      \/ exists acc, In acc (sid_accounts ix)
                     /\ PublicKey_new (sia_pubkey acc) = Rejected e
  end.
Proof.
  unfold convertSwapInstruction.
  destruct (PublicKey_new (sid_programId ix)) as [pid|e]; cbn [andThen];
    [|left; reflexivity].
  destruct (mapSettled convertAccount (sid_accounts ix)) as [ks|e] eqn:Hks;
    cbn [andThen].
  - split; [reflexivity|]. split; [reflexivity|]. cbn [keys].
    apply mapSettled_Forall2 in Hks.
    induction Hks as [|acc key accs ks Hkey _ IH]; constructor; [|exact IH].
    unfold convertAccount in Hkey.
    destruct (PublicKey_new (sia_pubkey acc)) as [pk|e]; cbn [andThen] in Hkey;
      [|discriminate].
    injection Hkey as <-. auto.
  - right. apply mapSettled_rejected in Hks as (acc & Hin & Hacc).
    exists acc. split; [exact Hin|]. unfold convertAccount in Hacc.
    destruct (PublicKey_new (sia_pubkey acc)) as [pk|e']; cbn [andThen] in Hacc;
      [discriminate|]. injection Hacc as ->. reflexivity.
Qed.

(** X13. The instruction list of a swap proposal is the conversion of the
    bundle in the order compute budget, setup, swap, cleanup, other; when
    an instruction does not convert, the exception thrown is that of the
    first such instruction in this order. *)
Theorem assemble_in_order (swapInstructions : SwapInstructionsResponse) :
  assemble swapInstructions
  = mapSettled convertSwapInstruction (bundleOrder swapInstructions).
Proof.
  unfold assemble, bundleOrder.
  rewrite !mapSettled_app.
  destruct (mapSettled convertSwapInstruction
              (computeBudgetInstructions swapInstructions)) as [budget|e];
    cbn [andThen]; [|reflexivity].
  destruct (mapSettled convertSwapInstruction
              (setupInstructions swapInstructions)) as [setup|e];
    cbn [andThen]; [|reflexivity].
  cbn [mapSettled].
  destruct (convertSwapInstruction (swapInstruction swapInstructions)) as [swap|e];
    cbn [andThen]; [|reflexivity].
  destruct (cleanupInstruction swapInstructions) as [ix|]; cbn [mapSettled andThen].
  - destruct (convertSwapInstruction ix) as [c|e]; cbn [andThen]; [|reflexivity].
    destruct (mapSettled convertSwapInstruction
                (otherInstructions swapInstructions)) as [other|e];
      cbn [andThen]; reflexivity.
  - destruct (mapSettled convertSwapInstruction
                (otherInstructions swapInstructions)) as [other|e];
      cbn [andThen]; reflexivity.
Qed.

(** X14. A bundle that does not convert is found out only after the
    visibility poll, and before anything else: createSwapProposal then
    throws without having read a blockhash or submitted anything, and
    what it throws is the exception of the conversion unless a read of
    the poll rejected. *)
Theorem createSwapProposal_invalid_bundle
    S (env : Env S) (s : S) (creator : Keypair)
    (multisigPda vaultPda : PublicKey)
    (swapInstructions : SwapInstructionsResponse) (transactionIndex : Z)
    (e : JsError) :
  let r := run env (createSwapProposal creator multisigPda vaultPda
                      swapInstructions transactionIndex) s in
  assemble swapInstructions = Rejected e ->
  forallb isPoll (trace r) = true
  /\ exists thrown,
       outcome r = Thrown thrown
       /\ (noRejection (trace r) -> thrown = e).
Proof.
  intros r Hbundle. subst r.
  refine (paths_run _ (fun tr o =>
            forallb isPoll tr = true
            /\ exists thrown, o = Thrown thrown /\ (noRejection tr -> thrown = e))
            _ S env s).
  unfold createSwapProposal. rewrite Hbundle.
  apply paths_bind. eapply paths_mono; [|apply untilVisible_shape].
  assert (Hpolls : forall k, forallb isPoll (emptyPolls multisigPda 2000 k) = true).
  { induction k as [|k IH]; [reflexivity|]. rewrite emptyPolls_S. exact IH. }
  intros polls o [[-> ->]|[(k & info & Hk & -> & ->)|(k & e' & Hk & -> & ->)]];
    cbn beta iota; cbn [settle bind paths]; rewrite ?app_nil_r.
  - split; [apply Hpolls|]. exists e. auto.
  - split; [rewrite forallb_app, Hpolls; reflexivity|]. exists e. auto.
  - split; [rewrite forallb_app, Hpolls; reflexivity|]. exists e'.
    split; [reflexivity|]. intros Hquiet. exfalso.
    unfold noRejection in Hquiet. rewrite forallb_app in Hquiet.
    apply andb_prop in Hquiet as [_ Hquiet]. discriminate.
Qed.

End BuilderTheorems.

Lemma toLowerCase_app a b : toLowerCase (a ++ b) = toLowerCase a ++ toLowerCase b.
Proof.
  induction a as [|c a IH]; [reflexivity|].
  simpl. rewrite IH. reflexivity.
Qed.

Lemma explainError_unsigned e : 
  success (explainError e) = false /\ resultSignature (explainError e) = None.
Proof.
  unfold explainError.
  repeat match goal with
         | |- context [if ?c then _ else _] => destruct c
         end; split; reflexivity.
Qed.

Lemma explainError_insufficient e pre w post :
  instanceofError e = true ->
  message e = pre ++ w ++ post ->
  toLowerCase w = "insufficient funds" \/ toLowerCase w = "insufficient lamports" ->
  explainError e = failure "Insufficient SOL for transaction fees" "INSUFFICIENT_SOL".
Proof.
  intros Hinst Hmsg Hw. unfold explainError. rewrite Hinst. cbv zeta.
  rewrite Hmsg, !toLowerCase_app.
  destruct Hw as [-> | ->]; rewrite includes_inside, ?orb_true_r; reflexivity.
Qed.

Section EngineExtras.
Context {sdk : Sdk}.

Lemma executeSwap_shape swapTx signer :
  paths (executeSwap swapTx signer)
    (fun tr o =>
       exists res,
         o = Returned res
         /\ (success res = true <->
             exists sig blockhash,
               tr = [ESendTransaction (DeserializedTx (transaction swapTx) [signer])
                       swapOpts (Resolved sig);
                     EConfirmTransactionRace sig blockhash
                       (lastValidBlockHeight swapTx) SWAP_TIMEOUT_MS (Resolved None)]
               /\ res = succeeded sig)
         /\ (List.length (List.filter isSubmission tr) <= 1)%nat
         /\ (forall ev e, In ev tr -> rejection ev = Some e -> res = explainError e)
         /\ (forall sig blockhash h t e,
               In (EConfirmTransactionRace sig blockhash h t (Rejected e)) tr ->
               tr = [ESendTransaction (DeserializedTx (transaction swapTx) [signer])
                       swapOpts (Resolved sig);
                     EConfirmTransactionRace sig blockhash h t (Rejected e)])).
Proof.
  assert (Hfailed : forall e tr,
            (success (explainError e) = true <->
             exists sig blockhash,
               tr = [ESendTransaction (DeserializedTx (transaction swapTx) [signer])
                       swapOpts (Resolved sig);
                     EConfirmTransactionRace sig blockhash
                       (lastValidBlockHeight swapTx) SWAP_TIMEOUT_MS (Resolved None)]
               /\ explainError e = succeeded sig)).
  { intros e tr. destruct (explainError_unsigned e) as [Hs _]. split.
    - rewrite Hs. discriminate.
    - intros (sig & bh & _ & He). rewrite He in Hs. discriminate. }
  unfold executeSwap. apply paths_try_catch.
  destruct (VersionedTransaction_deserialize (transaction swapTx)) as [bh|e];
    cbn [settle bind paths].
  2:{ exists (explainError e). split; [reflexivity|]. split; [apply Hfailed|].
      split; [simpl; lia|]. split; [intros ev e' []|intros sig bh' h t e' []]. }
  destruct (VersionedTransaction_sign (transaction swapTx) signer) as [[]|e];
    cbn [settle bind paths].
  2:{ exists (explainError e). split; [reflexivity|]. split; [apply Hfailed|].
      split; [simpl; lia|]. split; [intros ev e' []|intros sig bh' h t e' []]. }
  apply paths_await_bind. intros [sig|e]; cbn [mkEvent].
  2:{ cbn [paths app]. exists (explainError e). split; [reflexivity|].
      split; [apply Hfailed|]. split; [simpl; lia|]. split.
      - intros ev e' [<-|[]] He. injection He as <-. reflexivity.
      - intros sig bh' h t e' [Hin|[]]. discriminate. }
  apply paths_await_bind. intros [[err|]|e]; cbn [mkEvent]; cbn [paths app].
  - exists (failedOnChain sig). split; [reflexivity|]. split.
    { split; [discriminate|]. intros (sig' & bh' & Heq & _). discriminate. }
    split; [simpl; lia|]. split.
    + intros ev e' [<-|[<-|[]]] He; discriminate.
    + intros sig' bh' h t e' [Hin|[Hin|[]]]; discriminate.
  - exists (succeeded sig). split; [reflexivity|]. split.
    { split; [|reflexivity]. intros _. exists sig, bh. split; reflexivity. }
    split; [simpl; lia|]. split.
    + intros ev e' [<-|[<-|[]]] He; discriminate.
    + intros sig' bh' h t e' [Hin|[Hin|[]]]; discriminate.
  - exists (explainError e). split; [reflexivity|].
    split; [apply Hfailed|]. split; [simpl; lia|]. split.
    + intros ev e' [<-|[<-|[]]] He; [discriminate|]. injection He as <-. reflexivity.
    + intros sig' bh' h t e' [Hin|[Hin|[]]]; [discriminate|].
      injection Hin as <- <- <- <- <-. reflexivity.
Qed.

(** *** The relay loop *)

Lemma relay_turn tx endpoint :
  paths (try_catch
           (let* response := await (fetch endpoint tx) in
            if ok response then
              let* result := settle (jsonResult response) in
              Ret (truthy result)
            else Ret false)
           (fun _ => Ret false))
    (fun tr o =>
       exists a, tr = [EFetch endpoint tx a] /\ o = Returned (accepted a)).
Proof.
  apply paths_try_catch. apply paths_await_bind.
  intros [response|e]; cbn [mkEvent].
  - destruct (ok response) eqn:Hok.
    + destruct (jsonResult response) as [result|e] eqn:Hjson; cbn [settle bind paths].
      * exists (Resolved response). split; [reflexivity|].
        cbn [accepted]. rewrite Hok, Hjson. reflexivity.
      * exists (Resolved response). split; [reflexivity|].
        cbn [accepted]. rewrite Hok, Hjson. reflexivity.
    + cbn [paths]. exists (Resolved response). split; [reflexivity|].
      cbn [accepted]. rewrite Hok. reflexivity.
  - cbn [paths]. exists (Rejected e). split; reflexivity.
Qed.

Lemma sendViaJito_shape tx endpoints :
  paths (sendViaJito tx endpoints) (relayShape tx endpoints).
Proof.
  induction endpoints as [|endpoint rest IH]; cbn [sendViaJito].
  - cbn [paths]. exists []. split; [constructor|]. left. auto.
  - apply paths_bind. eapply paths_mono; [|apply relay_turn].
    intros tr o (a & -> & ->). cbn beta iota.
    destruct (accepted a) eqn:Ha.
    + cbn [paths]. exists []. split; [constructor|]. right. exists a.
      split; [exact Ha|]. split; [simpl; lia|]. split; [|reflexivity].
      cbn [app relayed zip_with]. destruct rest; reflexivity.
    + eapply paths_mono; [|exact IH].
      intros tr' o' (refused & Hrefused & Hcase).
      exists (a :: refused). split; [constructor; assumption|].
      destruct Hcase as [(Hlen & -> & ->)|(a' & Ha' & Hlen & -> & ->)].
      * left. split; [simpl; lia|]. split; reflexivity.
      * right. exists a'. split; [exact Ha'|]. split; [simpl; lia|].
        split; reflexivity.
Qed.

Lemma afterAccepted_app tr1 tr2 :
  afterAccepted (tr1 ++ tr2)
  = match afterAccepted tr1 with
    | Some post => Some (post ++ tr2)%list
    | None => afterAccepted tr2
    end.
Proof.
  induction tr1 as [|ev tr1 IH]; [reflexivity|].
  destruct ev; cbn [app afterAccepted]; try exact IH.
  destruct (accepted r); [reflexivity|exact IH].
Qed.

Lemma afterAccepted_quiet tr :
  forallb (fun ev => negb (isRelayRequest ev)) tr = true -> afterAccepted tr = None.
Proof.
  induction tr as [|ev tr IH]; [reflexivity|]. cbn [forallb].
  intros H. apply andb_prop in H as [Hev Htr].
  destruct ev; try discriminate; cbn [afterAccepted]; apply IH, Htr.
Qed.

Lemma afterAccepted_refused tx refused :
  Forall (fun a => accepted a = false) refused ->
  forall endpoints, afterAccepted (relayed tx endpoints refused) = None.
Proof.
  induction 1 as [|a refused Ha _ IH]; intros [|endpoint endpoints];
    try reflexivity.
  cbn [relayed zip_with afterAccepted]. rewrite Ha. apply IH.
Qed.

Lemma afterAccepted_relayed tx refused a :
  Forall (fun a => accepted a = false) refused ->
  accepted a = true ->
  forall endpoints,
  (List.length refused < List.length endpoints)%nat ->
  afterAccepted (relayed tx endpoints (refused ++ [a])) = Some [].
Proof.
  induction 1 as [|a' refused Ha' _ IH]; intros Ha [|endpoint endpoints] Hlen;
    cbn [List.length] in Hlen; try lia.
  - cbn [app relayed zip_with afterAccepted]. rewrite Ha.
    destruct endpoints; reflexivity.
  - cbn [app relayed zip_with afterAccepted]. rewrite Ha'.
    apply IH; [exact Ha|lia].
Qed.

Lemma relayed_requests tx endpoints answers :
  forallb isRelayRequest (relayed tx endpoints answers) = true.
Proof.
  revert answers. induction endpoints as [|endpoint endpoints IH];
    intros [|a answers]; try reflexivity.
  cbn [relayed zip_with forallb isRelayRequest andb]. apply IH.
Qed.

(** *** The confirmation polling *)

Lemma paths_conj {A} (p : Prog A) (Q1 Q2 : list Event -> Outcome A -> Prop) :
  paths p Q1 -> paths p Q2 -> paths p (fun tr o => Q1 tr o /\ Q2 tr o).
Proof.
  revert Q1 Q2. induction p as [a|e|c k IH|ms k IH|k IH]; intros Q1 Q2 H1 H2;
    cbn [paths] in *; auto.
Qed.

Lemma decodeFailure_failed signature err :
  success (decodeFailure signature err) = false.
Proof.
  unfold decodeFailure. cbv zeta.
  destruct (includes (errJson err) "6024" || includes (errJson err) "1788");
    reflexivity.
Qed.

Lemma pollStatus_verdict fuel signature startTime timeout :
  paths (pollStatus fuel signature startTime timeout)
    (fun tr o =>
       exists verdict,
         o = Returned verdict /\ pollVerdict signature startTime timeout tr verdict).
Proof.
  induction fuel as [|fuel IH]; cbn [pollStatus].
  - cbn [paths]. exists None. split; [reflexivity|]. split; [reflexivity|].
    intros res Hres. discriminate.
  - unfold Date_now at 1. cbn [bind paths]. intros now.
    destruct (now - startTime <? timeout) eqn:Hnow.
    2:{ cbn [paths]. exists (Some (succeeded signature)).
        split; [reflexivity|]. split; [reflexivity|].
        intros res Hres _. injection Hres as <-. split; [reflexivity|]. right.
        split.
        - exists [], now. split; [reflexivity|]. apply Z.ltb_ge in Hnow. exact Hnow.
        - intros sig st [Hin|[]]. discriminate. }
    (* a turn that ends without a verdict *)
    assert (Hnext : forall status,
      (forall st, status = Resolved (Some st) -> isSettled st = false) ->
      paths (let* _ := sleep 200 in pollStatus fuel signature startTime timeout)
        (fun tr o =>
           exists verdict,
             o = Returned verdict
             /\ pollVerdict signature startTime timeout
                  (ENow now :: EGetSignatureStatus signature status :: tr) verdict)).
    { intros status Hstatus. unfold sleep. cbn [bind paths].
      eapply paths_mono; [|exact IH].
      intros tr o (verdict & -> & Hpolls & Hverdict).
      exists verdict. split; [reflexivity|]. split.
      - cbn [forallb isPolling andb]. exact Hpolls.
      - intros res Hres Hsuccess.
        destruct (Hverdict res Hres Hsuccess) as [-> Hcase].
        split; [reflexivity|].
        destruct Hcase as [(st & Hin & Hst)|[(before & t & -> & Ht) Hunsettled]].
        + left. exists st. split; [|exact Hst]. right. right. right. exact Hin.
        + right. split.
          * exists (ENow now :: EGetSignatureStatus signature status
                      :: ESleep 200 :: before), t.
            split; [reflexivity|exact Ht].
          * intros sig st [Hin|[Hin|[Hin|Hin]]]; try discriminate.
            -- injection Hin as _ ->. apply Hstatus. reflexivity.
            -- apply (Hunsettled _ _ Hin). }
    apply paths_bind. apply paths_try_catch. apply paths_await_bind.
    intros [[st|]|e]; cbn [mkEvent].
    + destruct (isSettled st) eqn:Hsettled.
      * destruct (statusErr st) as [err|] eqn:Herr.
        -- cbn [paths app]. exists (Some (decodeFailure signature err)).
           split; [reflexivity|]. split; [reflexivity|].
           intros res Hres Hsuccess. injection Hres as <-.
           rewrite decodeFailure_failed in Hsuccess. discriminate.
        -- unfold Date_now. cbn [bind paths app]. intros t.
           exists (Some (succeeded signature)).
           split; [reflexivity|]. split; [reflexivity|].
           intros res Hres _. injection Hres as <-. split; [reflexivity|].
           left. exists st. split; [right; left; reflexivity|]. auto.
      * cbn [paths app]. apply Hnext. intros st' Heq. injection Heq as <-.
        exact Hsettled.
    + cbn [paths app]. apply Hnext. intros st' Heq. discriminate.
    + cbn [paths app]. apply Hnext. intros st' Heq. discriminate.
Qed.

(** *** The shape of a run of executeSwapJito *)

Lemma executeSwap_signed swapTx signer blockhash :
  VersionedTransaction_deserialize (transaction swapTx) = Resolved blockhash ->
  VersionedTransaction_sign (transaction swapTx) signer = Resolved tt ->
  paths (executeSwap swapTx signer)
    (fun tr o =>
       exists answer rest res,
         tr = ESendTransaction (DeserializedTx (transaction swapTx) [signer])
                swapOpts answer :: rest
         /\ forallb isRaceConfirmation rest = true
         /\ o = Returned res
         /\ (success res = true ->
             exists sig blockhash,
               rest = [EConfirmTransactionRace sig blockhash
                         (lastValidBlockHeight swapTx) SWAP_TIMEOUT_MS
                         (Resolved None)]
               /\ res = succeeded sig)).
Proof.
  intros Hd Hs. unfold executeSwap. rewrite Hd, Hs. cbn [settle bind].
  apply paths_try_catch. apply paths_await_bind. intros [sig|e]; cbn [mkEvent].
  - apply paths_await_bind. intros [[err|]|e]; cbn [mkEvent]; cbn [paths app].
    + eexists _, _, _. split; [reflexivity|]. split; [reflexivity|].
      split; [reflexivity|]. discriminate.
    + eexists _, _, _. split; [reflexivity|]. split; [reflexivity|].
      split; [reflexivity|]. intros _. exists sig, blockhash. split; reflexivity.
    + eexists _, _, _. split; [reflexivity|]. split; [reflexivity|].
      split; [reflexivity|]. intros H.
      destruct (explainError_unsigned e) as [Hfalse _]. congruence.
  - cbn [paths app]. eexists _, _, _. split; [reflexivity|]. split; [reflexivity|].
    split; [reflexivity|]. intros H.
    destruct (explainError_unsigned e) as [Hfalse _]. congruence.
Qed.

Lemma executeSwapJito_shape fuel swapTx signer tipLamports :
  paths (executeSwapJito fuel swapTx signer tipLamports) (jitoShape swapTx signer).
Proof.
  unfold executeSwapJito, jitoShape. cbv zeta. apply paths_try_catch.
  destruct (VersionedTransaction_deserialize (transaction swapTx)) as [bh|e] eqn:Hd;
    cbn [settle bind paths].
  2:{ unfold executeSwap. rewrite Hd. cbn [settle bind try_catch paths].
      left. exists e. auto. }
  destruct (VersionedTransaction_sign (transaction swapTx) signer) as [[]|e] eqn:Hs;
    cbn [settle bind paths].
  2:{ unfold executeSwap. rewrite Hd, Hs. cbn [settle bind try_catch paths].
      left. exists e. auto. }
  apply paths_bind. eapply paths_mono; [|apply sendViaJito_shape].
  intros tr1 o1 (refused & Hrefused & Hcase).
  destruct Hcase as [(Hlen & -> & ->)|(a & Ha & Hlen & -> & ->)]; cbn beta iota.
  - apply paths_bind. apply paths_await_bind. intros [sig|e]; cbn [mkEvent].
    + cbn [paths]. unfold Date_now. cbn [bind paths]. intros start.
      eapply paths_mono; [|apply pollStatus_verdict].
      intros polls o (verdict & -> & Hverdict).
      right. right. left. exists refused, sig, start, polls, verdict.
      split; [exact Hrefused|]. split; [exact Hlen|].
      split; [reflexivity|]. split; [exact Hverdict|reflexivity].
    + apply paths_bind. eapply paths_mono; [|apply (executeSwap_signed _ _ _ Hd Hs)].
      intros tr o (answer & rest & res & -> & Hrest & -> & Hsuccess). cbn [paths].
      right. right. right. exists refused, e, answer, rest, res.
      split; [exact Hrefused|]. split; [exact Hlen|].
      split; [rewrite app_nil_r, <- app_assoc; reflexivity|]. split; [exact Hrest|].
      split; [reflexivity|exact Hsuccess].
  - cbn [bind paths]. unfold Date_now. cbn [bind paths]. intros start.
    eapply paths_mono; [|apply pollStatus_verdict].
    intros polls o (verdict & -> & Hverdict).
    right. left. exists refused, a, start, polls, verdict.
    split; [exact Hrefused|]. split; [exact Ha|]. split; [exact Hlen|].
    split; [reflexivity|]. split; [exact Hverdict|reflexivity].
Qed.

End EngineExtras.

Section EngineTheorems.
Context {sdk : Sdk}.

(** X15. executeSwap never throws: every run returns a result.  The result
    reports success exactly when the transaction was sent and the
    confirmation resolved without error, and it then carries the
    signature that the send resolved to.  At most one transaction is
    submitted. *)
Theorem executeSwap_always_returns
    S (env : Env S) (s : S) (swapTx : SwapTransaction) (signer : Keypair) :
  let r := run env (executeSwap swapTx signer) s in
  exists res,
    outcome r = Returned res
    /\ (success res = true <->
        exists sig blockhash,
          trace r
          = [ESendTransaction (DeserializedTx (transaction swapTx) [signer])
               swapOpts (Resolved sig);
             EConfirmTransactionRace sig blockhash
               (lastValidBlockHeight swapTx) SWAP_TIMEOUT_MS (Resolved None)]
          /\ res = succeeded sig)
    /\ (List.length (List.filter isSubmission (trace r)) <= 1)%nat.
Proof.
  intros r. subst r.
  destruct (paths_run _ _ (executeSwap_shape swapTx signer) S env s)
    as (res & Ho & Hsuccess & Hone & _).
  exists res. auto.
Qed.

(** X16. When the confirmation of executeSwap does not arrive (the race is
    lost to the timeout of 90 s, or the confirmation rejects), the result
    is the classification of that exception and carries no signature,
    although the transaction was submitted and its signature was known. *)
Theorem executeSwap_confirmation_rejected
    S (env : Env S) (s : S) (swapTx : SwapTransaction) (signer : Keypair)
    (sig blockhash : string) (h t : Z) (e : JsError) :
  let r := run env (executeSwap swapTx signer) s in
  In (EConfirmTransactionRace sig blockhash h t (Rejected e)) (trace r) ->
  trace r
  = [ESendTransaction (DeserializedTx (transaction swapTx) [signer])
       swapOpts (Resolved sig);
     EConfirmTransactionRace sig blockhash h t (Rejected e)]
  /\ outcome r = Returned (explainError e)
  /\ resultSignature (explainError e) = None
  /\ success (explainError e) = false.
Proof.
  intros r Hin. subst r.
  destruct (paths_run _ _ (executeSwap_shape swapTx signer) S env s)
    as (res & Ho & _ & _ & Hrejected & Hrace).
  split; [apply (Hrace _ _ _ _ _ Hin)|].
  rewrite Ho, (Hrejected _ e Hin eq_refl).
  destruct (explainError_unsigned e) as [Hfailed Hunsigned]. auto.
Qed.

(** X17. The classification of an exception by executeSwap ignores the
    letter case and puts the lack of funds first: when an awaited call
    rejects with an Error whose message contains "insufficient funds" or
    "insufficient lamports", however capitalised and whatever else the
    message mentions, the result is the INSUFFICIENT_SOL failure. *)
Theorem executeSwap_insufficient_sol
    S (env : Env S) (s : S) (swapTx : SwapTransaction) (signer : Keypair)
    (ev : Event) (e : JsError) (pre w post : string) :
  let r := run env (executeSwap swapTx signer) s in
  In ev (trace r) ->
  rejection ev = Some e ->
  instanceofError e = true ->
  message e = pre ++ w ++ post ->
  toLowerCase w = "insufficient funds" \/ toLowerCase w = "insufficient lamports" ->
  outcome r
  = Returned (failure "Insufficient SOL for transaction fees" "INSUFFICIENT_SOL").
Proof.
  intros r Hin Hev Hinst Hmsg Hw. subst r.
  destruct (paths_run _ _ (executeSwap_shape swapTx signer) S env s)
    as (res & Ho & _ & _ & Hrejected & _).
  rewrite Ho, (Hrejected ev e Hin Hev).
  rewrite (explainError_insufficient e pre w post Hinst Hmsg Hw). reflexivity.
Qed.

(** X18. The relay loop of executeSwapJito asks the endpoints in the order
    of the list, each at most once, and stops at the first that accepts
    the transaction (an ok response whose JSON body has a truthy
    result).  It never throws: a rejected request, a response that is not
    ok and a body that does not parse all count as a refusal.  It reports
    [sent] exactly when the last endpoint asked accepted. *)
Theorem sendViaJito_in_order
    S (env : Env S) (s : S) (tx : Tx) (endpoints : list string) :
  let r := run env (sendViaJito tx endpoints) s in
  relayShape tx endpoints (trace r) (outcome r).
Proof.
  intros r. subst r. apply (paths_run _ _ (sendViaJito_shape tx endpoints)).
Qed.

(** X19. A transaction that a relay accepted is not submitted again: in a
    run of executeSwapJito, nothing is submitted after the first
    accepted relay request, neither to another relay, nor directly, nor
    by the regular execution path. *)
Theorem executeSwapJito_no_resubmission
    S (env : Env S) (s : S) (fuel : nat) (swapTx : SwapTransaction)
    (signer : Keypair) (tipLamports : Z) (post : list Event) :
  let r := run env (executeSwapJito fuel swapTx signer tipLamports) s in
  afterAccepted (trace r) = Some post ->
  noSubmission post.
Proof.
  intros r. subst r.
  pose proof (paths_run _ _ (executeSwapJito_shape fuel swapTx signer tipLamports)
                S env s) as Hshape.
  assert (Hpolls : forall polls,
            forallb isPolling polls = true ->
            forallb (fun ev => negb (isRelayRequest ev)) polls = true
            /\ noSubmission polls).
  { intros polls H. split; revert H; apply forallb_weaken;
      intros [] ?; (reflexivity || discriminate). }
  destruct Hshape
    as [(e & _ & -> & _)
       |[(refused & a & start & polls & verdict & Hrefused & Ha & Hlen & -> & Hv & _)
        |[(refused & sig & start & polls & verdict & Hrefused & Hlen & -> & Hv & _)
         |(refused & e & answer & rest & res & Hrefused & Hlen & -> & Hrest & _)]]].
  - discriminate.
  - rewrite afterAccepted_app, (afterAccepted_relayed _ _ _ Hrefused Ha _ Hlen).
    intros H. injection H as <-. destruct Hv as [Hv _].
    apply (Hpolls polls Hv).
  - rewrite afterAccepted_app, (afterAccepted_refused _ _ Hrefused).
    cbn [afterAccepted]. destruct Hv as [Hv _].
    rewrite (afterAccepted_quiet _ (proj1 (Hpolls polls Hv))). discriminate.
  - rewrite afterAccepted_app, (afterAccepted_refused _ _ Hrefused).
    cbn [afterAccepted]. rewrite afterAccepted_quiet; [discriminate|].
    revert Hrest. apply forallb_weaken. intros [] ?; (reflexivity || discriminate).
Qed.

(** X20. The direct send of executeSwapJito is the last resort: it happens
    only after each of the five relay endpoints was asked once, in order,
    and refused; it carries the signed transaction with preflight
    skipped and no retries.  When it resolves, nothing else is
    submitted.  When it rejects, the regular execution path takes over and
    submits the same transaction again with sendTransaction. *)
Theorem executeSwapJito_direct_send
    S (env : Env S) (s : S) (fuel : nat) (swapTx : SwapTransaction)
    (signer : Keypair) (tipLamports : Z) (tx : Tx) (opts : SendOptions)
    (res : Settled string) :
  let r := run env (executeSwapJito fuel swapTx signer tipLamports) s in
  In (ESendRawTransaction tx opts res) (trace r) ->
  tx = DeserializedTx (transaction swapTx) [signer]
  /\ opts = jitoOpts
  /\ exists refused post,
       List.length refused = 5%nat
       /\ Forall (fun a => accepted a = false) refused
       /\ trace r = (relayed tx JITO_TX_ENDPOINTS refused
                     ++ ESendRawTransaction tx opts res :: post)%list
       /\ match res with
          | Resolved _ => noSubmission post
          | Rejected _ =>
              exists answer rest,
                post = ESendTransaction tx swapOpts answer :: rest
          end.
Proof.
  intros r. subst r.
  pose proof (paths_run _ _ (executeSwapJito_shape fuel swapTx signer tipLamports)
                S env s) as Hshape.
  assert (Hrelayed : forall tx' refused,
            ~ In (ESendRawTransaction tx opts res)
                (relayed tx' JITO_TX_ENDPOINTS refused)).
  { intros tx' refused Hin.
    apply (forallb_In _ _ _ (relayed_requests _ _ _)) in Hin. discriminate. }
  destruct Hshape
    as [(e & _ & -> & _)
       |[(refused & a & start & polls & verdict & Hrefused & Ha & Hlen & -> & Hv & _)
        |[(refused & sig & start & polls & verdict & Hrefused & Hlen & -> & Hv & _)
         |(refused & e & answer & rest & res' & Hrefused & Hlen & -> & Hrest & _)]]].
  - intros [].
  - intros Hin. exfalso. apply in_app_or in Hin as [Hin|[Hin|Hin]].
    + apply (Hrelayed _ _ Hin).
    + discriminate.
    + destruct Hv as [Hv _]. apply (forallb_In _ _ _ Hv) in Hin. discriminate.
  - intros Hin. apply in_app_or in Hin as [Hin|[Hin|[Hin|Hin]]].
    + destruct (Hrelayed _ _ Hin).
    + injection Hin as <- <- <-. split; [reflexivity|]. split; [reflexivity|].
      exists refused, (ENow start :: polls). split; [exact Hlen|].
      split; [exact Hrefused|]. split; [reflexivity|].
      destruct Hv as [Hv _]. unfold noSubmission. cbn [forallb isSubmission negb andb].
      revert Hv. apply forallb_weaken. intros [] ?; (reflexivity || discriminate).
    + discriminate.
    + exfalso. destruct Hv as [Hv _].
      apply (forallb_In _ _ _ Hv) in Hin. discriminate.
  - intros Hin. apply in_app_or in Hin as [Hin|[Hin|[Hin|Hin]]].
    + destruct (Hrelayed _ _ Hin).
    + injection Hin as <- <- <-. split; [reflexivity|]. split; [reflexivity|].
      exists refused, (ESendTransaction (DeserializedTx (transaction swapTx) [signer])
                         swapOpts answer :: rest).
      split; [exact Hlen|]. split; [exact Hrefused|]. split; [reflexivity|].
      exists answer, rest. reflexivity.
    + discriminate.
    + exfalso. apply (forallb_In _ _ _ Hrest) in Hin. discriminate.
Qed.

(** X21. When the transaction cannot be deserialized or signed,
    executeSwapJito makes no call at all: the regular execution path that
    takes over fails in the same way, and the result is the
    classification of that exception. *)
Theorem executeSwapJito_unsignable
    S (env : Env S) (s : S) (fuel : nat) (swapTx : SwapTransaction)
    (signer : Keypair) (tipLamports : Z) (e : JsError) :
  let r := run env (executeSwapJito fuel swapTx signer tipLamports) s in
  VersionedTransaction_deserialize (transaction swapTx) = Rejected e
  \/ (exists blockhash,
        VersionedTransaction_deserialize (transaction swapTx) = Resolved blockhash)
     /\ VersionedTransaction_sign (transaction swapTx) signer = Rejected e ->
  trace r = []
  /\ outcome r = Returned (Some (explainError e))
  /\ final r = s.
Proof.
  intros r Hcase. subst r. unfold executeSwapJito, executeSwap.
  destruct Hcase as [Hd|[[bh Hd] Hs]].
  - rewrite Hd. cbn. auto.
  - rewrite Hd, Hs. cbn. auto.
Qed.

(** X22. What [success: true] means in a result of executeSwapJito.  It is
    returned in three cases only: a status read showed the tracked
    signature confirmed (or finalized) without error; or the polling ran
    out of time, its last clock reading being at least 8000 ms after the
    first, without any status read having shown a settled status (the
    optimistic answer); or the direct send rejected and the regular
    execution path sent the transaction and saw it confirmed.  In the
    first two cases the signature of the result is the one computed from
    the signed transaction. *)
Theorem executeSwapJito_success_means
    S (env : Env S) (s : S) (fuel : nat) (swapTx : SwapTransaction)
    (signer : Keypair) (tipLamports : Z) (res : SwapResult) :
  let r := run env (executeSwapJito fuel swapTx signer tipLamports) s in
  let signature := firstSignature (DeserializedTx (transaction swapTx) [signer]) in
  outcome r = Returned (Some res) ->
  success res = true ->
  (res = succeeded signature /\ confirmedIn signature (trace r))
  \/ (res = succeeded signature
      /\ exists pre start polls,
           trace r = (pre ++ ENow start :: polls)%list
           /\ forallb (fun ev => negb (isStatusRead ev)) pre = true
           /\ timedOut start 8000 polls)
  \/ (exists sig blockhash,
        res = succeeded sig
        /\ In (EConfirmTransactionRace sig blockhash (lastValidBlockHeight swapTx)
                 SWAP_TIMEOUT_MS (Resolved None)) (trace r)).
Proof.
  intros r signature. subst r signature.
  pose proof (paths_run _ _ (executeSwapJito_shape fuel swapTx signer tipLamports)
                S env s) as Hshape.
  assert (Hrelayed : forall tx' refused,
            forallb (fun ev => negb (isStatusRead ev))
              (relayed tx' JITO_TX_ENDPOINTS refused) = true).
  { intros tx' refused. generalize (relayed_requests tx' JITO_TX_ENDPOINTS refused).
    apply forallb_weaken. intros [] ?; (reflexivity || discriminate). }
  destruct Hshape
    as [(e & _ & -> & ->)
       |[(refused & a & start & polls & verdict & Hrefused & Ha & Hlen & -> & Hv & ->)
        |[(refused & sig & start & polls & verdict & Hrefused & Hlen & -> & Hv & ->)
         |(refused & e & answer & rest & res' & Hrefused & Hlen & -> & Hrest & -> & Hs)]]].
  - intros Ho Hsuccess. injection Ho as <-.
    destruct (explainError_unsigned e) as [Hfailed _]. congruence.
  - intros Ho Hsuccess. injection Ho as ->. destruct Hv as [_ Hv].
    destruct (Hv res eq_refl Hsuccess) as [-> [(st & Hin & Hst)|Hout]].
    + left. split; [reflexivity|]. exists st. split; [|exact Hst].
      apply in_or_app. right. right. exact Hin.
    + right. left. split; [reflexivity|]. eexists _, start, polls.
      split; [reflexivity|]. split; [apply Hrelayed|exact Hout].
  - intros Ho Hsuccess. injection Ho as ->. destruct Hv as [_ Hv].
    destruct (Hv res eq_refl Hsuccess) as [-> [(st & Hin & Hst)|Hout]].
    + left. split; [reflexivity|]. exists st. split; [|exact Hst].
      apply in_or_app. right. right. right. exact Hin.
    + right. left. split; [reflexivity|].
      exists (relayed (DeserializedTx (transaction swapTx) [signer])
                JITO_TX_ENDPOINTS refused
              ++ [ESendRawTransaction (DeserializedTx (transaction swapTx) [signer])
                    jitoOpts (Resolved sig)])%list, start, polls.
      split; [rewrite <- app_assoc; reflexivity|]. split; [|exact Hout].
      rewrite forallb_app, Hrelayed. reflexivity.
  - intros Ho Hsuccess. injection Ho as ->.
    destruct (Hs Hsuccess) as (sig & bh & -> & ->).
    right. right. exists sig, bh. split; [reflexivity|].
    apply in_or_app. right. right. right. left. reflexivity.
Qed.

End EngineTheorems.

(** *** The polling ends with the clock *)

Lemma statusReads_app tr1 tr2 :
  statusReads (tr1 ++ tr2) = (statusReads tr1 + statusReads tr2)%nat.
Proof. unfold statusReads. rewrite List.filter_app, length_app. reflexivity. Qed.

Lemma statusReads_quiet tr :
  forallb (fun ev => negb (isStatusRead ev)) tr = true -> statusReads tr = 0%nat.
Proof.
  unfold statusReads. induction tr as [|ev tr IH]; [reflexivity|].
  cbn [forallb List.filter]. intros H. apply andb_prop in H as [Hev Htr].
  apply negb_true_iff in Hev. rewrite Hev. apply IH, Htr.
Qed.

Section Window.
Context {sdk : Sdk} {S : Type} (env : Env S) (now : S -> Z).
Hypothesis Hadvances : clockAdvances env now.

Lemma pollStatus_settles signature startTime timeout :
  forall m fuel s,
  (m < fuel)%nat ->
  startTime + timeout <= now s + 200 * Z.of_nat m ->
  exists res tr s',
    run env (pollStatus fuel signature startTime timeout) s
    = mkRun (Returned (Some res)) tr s'
    /\ (statusReads tr <= m)%nat.
Proof.
  destruct Hadvances as (Hclock & Hrespond & Helapse).
  induction m as [|m IH]; intros fuel s Hfuel Htime;
    (destruct fuel as [|fuel]; [lia|]); cbn [pollStatus];
    unfold Date_now at 1; cbn [bind run];
    pose proof (Hclock s) as [Hread Hleft];
    destruct (fst (clock env s) - startTime <? timeout) eqn:Hlt;
    try (cbn [run]; unfold after; cbn [outcome trace final app];
         eexists _, _, _; split; [reflexivity|cbv; lia]).
  - apply Z.ltb_lt in Hlt. lia.
  - apply Z.ltb_lt in Hlt.
    unfold await. cbn [bind try_catch run].
    set (s1 := snd (clock env s)) in *.
    pose proof (Hrespond (getSignatureStatus signature) s1) as Hs2.
    set (s2 := snd (respond env (getSignatureStatus signature) s1)) in *.
    destruct (IH fuel (elapse env 200 s2)) as (res & tr & s' & Hrun & Hcount).
    { lia. }
    { pose proof (Helapse 200 s2). lia. }
    destruct (fst (respond env (getSignatureStatus signature) s1)) as [[st|]|e];
      cbn [bind try_catch run mkEvent].
    + destruct (isSettled st).
      * destruct (statusErr st) as [err|].
        -- cbn [bind try_catch run]. unfold after. cbn [outcome trace final app].
           eexists _, _, _. split; [reflexivity|]. cbv. lia.
        -- unfold Date_now. cbn [bind try_catch run]. unfold after.
           cbn [outcome trace final app].
           eexists _, _, _. split; [reflexivity|]. cbv. lia.
      * cbn [bind try_catch run]. unfold sleep. cbn [bind run]. rewrite Hrun.
        unfold after. cbn [outcome trace final app].
        eexists _, _, _. split; [reflexivity|].
        unfold statusReads in *. cbn [List.filter isStatusRead List.length]. lia.
    + cbn [bind try_catch run]. unfold sleep. cbn [bind run]. rewrite Hrun.
      unfold after. cbn [outcome trace final app].
      eexists _, _, _. split; [reflexivity|].
      unfold statusReads in *. cbn [List.filter isStatusRead List.length]. lia.
    + cbn [bind try_catch run]. unfold sleep. cbn [bind run]. rewrite Hrun.
      unfold after. cbn [outcome trace final app].
      eexists _, _, _. split; [reflexivity|].
      unfold statusReads in *. cbn [List.filter isStatusRead List.length]. lia.
Qed.

Lemma fallback_settles swapTx signer pre s0 :
  statusReads pre = 0%nat ->
  exists res tr s',
    after pre (run env (let* r := executeSwap swapTx signer in Ret (Some r)) s0)
    = mkRun (Returned (Some res)) tr s'
    /\ (statusReads tr <= 40)%nat.
Proof.
  intros Hpre. rewrite run_bind.
  destruct (paths_run _ _ (executeSwap_shape swapTx signer) S env s0)
    as (res & Ho & _).
  pose proof (paths_run _ _ (executeSwap_no_status swapTx signer) S env s0) as Hquiet.
  cbv beta in Hquiet. apply statusReads_quiet in Hquiet.
  rewrite Ho. cbn [run]. unfold after. cbn [outcome trace final].
  eexists _, _, _. split; [reflexivity|].
  rewrite !statusReads_app, Hpre, Hquiet. cbv. lia.
Qed.

Lemma executeSwapJito_run fuel swapTx signer tipLamports s :
  (41 <= fuel)%nat ->
  exists res tr s',
    run env (executeSwapJito fuel swapTx signer tipLamports) s
    = mkRun (Returned (Some res)) tr s'
    /\ (statusReads tr <= 40)%nat.
Proof.
  intros Hfuel. unfold executeSwapJito.
  destruct (VersionedTransaction_deserialize (transaction swapTx)) as [bh|e];
    cbn [settle bind try_catch].
  2:{ destruct (fallback_settles swapTx signer [] s eq_refl)
        as (res & tr & s' & Hrun & Hcount).
      exists res, tr, s'. split; [|exact Hcount].
      destruct (run env _ s) as [o t f]. exact Hrun. }
  destruct (VersionedTransaction_sign (transaction swapTx) signer) as [[]|e];
    cbn [settle bind try_catch].
  2:{ destruct (fallback_settles swapTx signer [] s eq_refl)
        as (res & tr & s' & Hrun & Hcount).
      exists res, tr, s'. split; [|exact Hcount].
      destruct (run env _ s) as [o t f]. exact Hrun. }
  rewrite run_try_catch, run_bind.
  set (tx := DeserializedTx (transaction swapTx) [signer]).
  pose proof (paths_run _ _ (sendViaJito_shape tx JITO_TX_ENDPOINTS) S env s)
    as (refused & _ & Hrelay).
  pose proof (paths_run _ _ (only_sendViaJito (fun ev => negb (isStatusRead ev)) tx
                               JITO_TX_ENDPOINTS
                               ltac:(intros [] ?; (reflexivity || discriminate)))
                S env s) as Hquiet.
  cbv beta in Hquiet. apply statusReads_quiet in Hquiet.
  set (relay := run env (sendViaJito tx JITO_TX_ENDPOINTS) s) in *.
  clearbody relay.
  (* the polling, once the transaction is out *)
  assert (Hpoll : forall pre s0,
            statusReads pre = 0%nat ->
            exists res tr s',
              after pre
                (run env (let* startTime := Date_now in
                          pollStatus fuel (firstSignature tx) startTime 8000) s0)
              = mkRun (Returned (Some res)) tr s'
              /\ (statusReads tr <= 40)%nat).
  { intros pre s0 Hpre. unfold Date_now. cbn [bind run].
    destruct Hadvances as (Hclock & _).
    destruct (pollStatus_settles (firstSignature tx) (fst (clock env s0)) 8000
                40%nat fuel (snd (clock env s0)))
      as (res & tr & s' & Hrun & Hcount).
    { lia. }
    { pose proof (Hclock s0). lia. }
    rewrite Hrun. unfold after. cbn [outcome trace final].
    eexists _, _, _. split; [reflexivity|].
    rewrite !statusReads_app. change (statusReads [ENow (fst (clock env s0))]) with 0%nat.
    lia. }
  destruct Hrelay as [(_ & _ & Ho)|(a & _ & _ & _ & Ho)]; rewrite Ho;
    cbn [outcome trace final].
  - (* every relay refused: the direct send *)
    unfold await. cbn [bind run].
    destruct (fst (respond env (sendRawTransaction tx jitoOpts) (final relay)))
      as [sig|e]; cbn [bind run mkEvent].
    + destruct (Hpoll (trace relay ++ [ESendRawTransaction tx jitoOpts (Resolved sig)])%list
                  (snd (respond env (sendRawTransaction tx jitoOpts) (final relay))))
        as (res & tr & s' & Hrun & Hcount).
      { rewrite statusReads_app, Hquiet. reflexivity. }
      unfold after in *. cbn [outcome trace final] in *.
      rewrite <- app_assoc in Hrun. cbn [app] in Hrun.
      pose proof (f_equal outcome Hrun) as Hout.
      pose proof (f_equal trace Hrun) as Htr.
      cbn [outcome trace] in Hout, Htr. rewrite Hout. cbn [outcome trace final app].
      eexists _, _, _. split; [reflexivity|]. rewrite Htr. exact Hcount.
    + unfold after. cbn [outcome trace final app].
      destruct (fallback_settles swapTx signer
                  (trace relay ++ [ESendRawTransaction tx jitoOpts (Rejected e)])%list
                  (snd (respond env (sendRawTransaction tx jitoOpts) (final relay))))
        as (res & tr & s' & Hrun & Hcount).
      { rewrite statusReads_app, Hquiet. reflexivity. }
      exists res, tr, s'. split; [|exact Hcount].
      rewrite <- Hrun. reflexivity.
  - (* a relay accepted *)
    cbn [bind].
    destruct (Hpoll (trace relay) (final relay) Hquiet)
      as (res & tr & s' & Hrun & Hcount).
    unfold after in *. cbn [outcome trace final] in *.
    pose proof (f_equal outcome Hrun) as Hout.
    pose proof (f_equal trace Hrun) as Htr.
    cbn [outcome trace] in Hout, Htr. rewrite Hout. cbn [outcome trace final app].
    eexists _, _, _. split; [reflexivity|]. rewrite Htr. exact Hcount.
Qed.

End Window.

(** X23. With a clock that keeps pace with the pauses, executeSwapJito
    comes to a result: 41 turns of the polling loop are enough for the
    window of 8000 ms to pass, so that the call returns a result after at
    most 40 status reads, whatever the connection answers. *)
Theorem executeSwapJito_settles_in_time
    {sdk : Sdk} S (env : Env S) (now : S -> Z) (s : S) (fuel : nat)
    (swapTx : SwapTransaction) (signer : Keypair) (tipLamports : Z) :
  let r := run env (executeSwapJito fuel swapTx signer tipLamports) s in
  clockAdvances env now ->
  (41 <= fuel)%nat ->
  (exists res, outcome r = Returned (Some res))
  /\ (statusReads (trace r) <= 40)%nat.
Proof.
  intros r Hclock Hfuel. subst r.
  destruct (executeSwapJito_run env now Hclock fuel swapTx signer tipLamports s Hfuel)
    as (res & tr & s' & -> & Hcount).
  split; [exists res; reflexivity|exact Hcount].
Qed.

Section ProposalStatusProofs.
Context {proposals : ProposalSdk}.

(** X24. getProposalStatus never throws and makes at most one call.  When
    the library derives the address of the proposal, the one call is the
    read of the account at that address at the confirmed commitment, and
    the result is the decoded proposal when the account is there and
    decodes, and null in every other case: no account, an account that
    does not decode, a read that rejects.  When the derivation throws (an
    index that does not fit in 64 bits), nothing is read and the result
    is null. *)
Theorem getProposalStatus_never_throws
    S (env : Env S) (s : S) (multisigPda : PublicKey) (transactionIndex : Z)
    (programId : PublicKey) :
  let r := run env (getProposalStatus multisigPda transactionIndex programId) s in
  match getProposalPda multisigPda transactionIndex programId with
  | Resolved proposalPda =>
      exists answer,
        trace r = [EGetAccountInfo proposalPda (Some "confirmed") answer]
        /\ outcome r
           = Returned
               match answer with
               | Resolved (Some info) =>
                   match Proposal_fromAccountInfo info with
                   | Resolved proposal => Some proposal
                   | Rejected _ => None
                   end
               | _ => None
               end
  | Rejected _ => trace r = [] /\ outcome r = Returned None
  end.
Proof.
  intros r. subst r.
  refine (paths_run _ (fun tr o =>
            match getProposalPda multisigPda transactionIndex programId with
            | Resolved proposalPda =>
                exists answer,
                  tr = [EGetAccountInfo proposalPda (Some "confirmed") answer]
                  /\ o = Returned
                           match answer with
                           | Resolved (Some info) =>
                               match Proposal_fromAccountInfo info with
                               | Resolved proposal => Some proposal
                               | Rejected _ => None
                               end
                           | _ => None
                           end
            | Rejected _ => tr = [] /\ o = Returned None
            end) _ S env s).
  unfold getProposalStatus.
  apply paths_try_catch.
  destruct (getProposalPda multisigPda transactionIndex programId)
    as [proposalPda|e]; cbn [settle bind].
  - apply paths_await_bind.
    intros [[info|]|e]; cbn [mkEvent].
    + destruct (Proposal_fromAccountInfo info) as [proposal|e] eqn:Hdecode;
        cbn [settle bind paths app].
      * exists (Resolved (Some info)). rewrite Hdecode. split; reflexivity.
      * exists (Resolved (Some info)). rewrite Hdecode. split; reflexivity.
    + cbn [paths]. exists (Resolved None). split; reflexivity.
    + cbn [paths app]. exists (Rejected e). split; reflexivity.
  - cbn [paths app]. split; reflexivity.
Qed.

End ProposalStatusProofs.

(** *** Route labels *)

Lemma Set_add_fold labels :
  forall set,
  NoDup set ->
  NoDup (fold_left Set_add labels set)
  /\ (forall x, x ∈ fold_left Set_add labels set <-> x ∈ set \/ x ∈ labels)
  /\ sublist (fold_left Set_add labels set) (set ++ labels)%list.
Proof.
  induction labels as [|y labels IH]; intros set Hset; cbn [fold_left].
  - split; [exact Hset|]. split.
    + intros x. rewrite elem_of_nil. tauto.
    + rewrite app_nil_r. reflexivity.
  - unfold Set_add at 2 4 6. destruct (bool_decide (y ∈ set)) eqn:Hy.
    + apply bool_decide_eq_true in Hy.
      destruct (IH set Hset) as (Hnodup & Hin & Hsub).
      split; [exact Hnodup|]. split.
      * intros x. rewrite Hin, elem_of_cons. split; [tauto|].
        intros [H|[->|H]]; auto.
      * etransitivity; [exact Hsub|].
        apply sublist_app; [reflexivity|]. apply sublist_cons. reflexivity.
    + apply bool_decide_eq_false in Hy.
      destruct (IH (set ++ [y])%list) as (Hnodup & Hin & Hsub).
      { apply NoDup_app. split; [exact Hset|]. split.
        - intros x Hx Hxy. apply list_elem_of_singleton in Hxy as ->. auto.
        - apply NoDup_singleton. }
      split; [exact Hnodup|]. split.
      * intros x. rewrite Hin, elem_of_app, list_elem_of_singleton, elem_of_cons.
        tauto.
      * rewrite <- app_assoc in Hsub. exact Hsub.
Qed.

Lemma Boolean_nonempty text : Boolean text = true <-> text <> EmptyString.
Proof. destruct text; cbn; split; congruence. Qed.

(** X25. getRouteDexes lists the DEX labels of a route without
    repetition: every label of the plan that is not empty occurs exactly
    once, nothing else occurs, and the labels keep the order in which the
    plan names them.  A missing plan gives the empty list. *)
Theorem getRouteDexes_distinct (routePlan : option (list SwapRoute)) :
  let labels :=
    match routePlan with
    | Some plan => map label plan
    | None => []
    end in
  NoDup (getRouteDexes routePlan)
  /\ (forall x, x ∈ getRouteDexes routePlan <-> x ∈ labels /\ x <> EmptyString)
  /\ sublist (getRouteDexes routePlan) labels.
Proof.
  destruct routePlan as [plan|]; cbn [getRouteDexes].
  2:{ split; [constructor|]. split.
      - intros x. rewrite elem_of_nil. tauto.
      - reflexivity. }
  destruct (Set_add_fold (List.filter Boolean (map label plan)) [] (NoDup_nil_2))
    as (Hnodup & Hin & Hsub).
  split; [exact Hnodup|]. split.
  - intros x. unfold Set_of. rewrite Hin, elem_of_nil.
    rewrite !list_elem_of_In, filter_In, Boolean_nonempty. tauto.
  - etransitivity; [exact Hsub|]. cbn [app].
    clear. induction (map label plan) as [|x l IH]; [reflexivity|].
    cbn [List.filter]. destruct (Boolean x).
    + apply sublist_skip, IH.
    + apply sublist_cons, IH.
Qed.

(** X26. formatRoute shows the labels that getRouteDexes lists, joined by
    arrows, and "Direct" when there is none: for a missing or empty
    plan, and for a plan whose labels are all empty. *)
Theorem formatRoute_joins_the_dexes (routePlan : option (list SwapRoute)) :
  formatRoute routePlan
  = match getRouteDexes routePlan with
    | [] => "Direct"
    | dexes => join arrow dexes
    end.
Proof.
  destruct routePlan as [plan|]; [|reflexivity].
  cbn [formatRoute getRouteDexes]. cbv zeta.
  destruct plan as [|route plan]; [reflexivity|].
  cbn [List.length Nat.eqb].
  destruct (List.filter Boolean (map label (route :: plan))) as [|x [|y labels]] eqn:Hl.
  - reflexivity.
  - reflexivity.
  - (* at least two labels: the set is not empty *)
    destruct (Set_of (x :: y :: labels)) as [|d dexes] eqn:Hset; [|reflexivity].
    exfalso.
    destruct (Set_add_fold (x :: y :: labels) [] NoDup_nil_2) as (_ & Hin & _).
    unfold Set_of in Hset. rewrite Hset in Hin.
    destruct (Hin x) as [_ Hx]. 
    assert (Hfalse : x ∈ @nil string) by (apply Hx; right; left).
    apply elem_of_nil in Hfalse. exact Hfalse.
Qed.

(** ** The base58 text of a key determines the key *)

Module Base58Facts.
Import Base58.

Lemma digit_found m :
  0 <= m < 58 -> find (digit m) alphabet 0 = Some m.
Proof.
  intros Hm.
  assert (Hall : forallb (fun k => match find (digit (Z.of_nat k)) alphabet 0 with
                                   | Some v => v =? Z.of_nat k
                                   | None => false
                                   end) (seq 0 58) = true) by (vm_compute; reflexivity).
  rewrite forallb_forall in Hall. specialize (Hall (Z.to_nat m)).
  rewrite Z2Nat.id in Hall by lia.
  destruct (find (digit m) alphabet 0) as [v|].
  - f_equal. apply Z.eqb_eq. apply Hall. apply in_seq. lia.
  - discriminate Hall. apply in_seq. lia.
Qed.

Lemma digit_not_one m :
  0 < m < 58 -> Ascii.eqb (digit m) "1" = false.
Proof.
  intros Hm.
  assert (Hall : forallb (fun k => negb (Ascii.eqb (digit (Z.of_nat k)) "1"))
                   (seq 1 57) = true) by (vm_compute; reflexivity).
  rewrite forallb_forall in Hall. specialize (Hall (Z.to_nat m)).
  rewrite Z2Nat.id in Hall by lia. apply negb_true_iff. apply Hall.
  apply in_seq. lia.
Qed.

Lemma digits_zero fuel acc : digits fuel 0 acc = acc.
Proof. destruct fuel; reflexivity. Qed.

Lemma valueOfText_digits fuel :
  forall n acc,
  0 <= n < 58 ^ Z.of_nat fuel ->
  valueOfText (digits fuel n acc) 0 = valueOfText acc n.
Proof.
  induction fuel as [|fuel IH]; intros n acc Hn.
  - change (58 ^ Z.of_nat 0) with 1 in Hn. assert (n = 0) as -> by lia. reflexivity.
  - cbn [digits]. destruct (n <=? 0) eqn:Hle.
    + apply Z.leb_le in Hle. assert (n = 0) as -> by lia. reflexivity.
    + apply Z.leb_gt in Hle.
      rewrite Nat2Z.inj_succ, Z.pow_succ_r in Hn by lia.
      rewrite IH.
      * cbn [valueOfText]. rewrite digit_found by (apply Z.mod_pos_bound; lia).
        f_equal. rewrite Z.mul_comm. symmetry. apply Z.div_mod. lia.
      * split; [apply Z.div_pos; lia|]. apply Z.div_lt_upper_bound; lia.
Qed.

Lemma leadingOnes_digits fuel :
  forall n acc,
  0 < n < 58 ^ Z.of_nat fuel ->
  leadingOnes (digits fuel n acc) = 0%nat.
Proof.
  induction fuel as [|fuel IH]; intros n acc Hn.
  - change (58 ^ Z.of_nat 0) with 1 in Hn. lia.
  - cbn [digits]. destruct (n <=? 0) eqn:Hle; [apply Z.leb_le in Hle; lia|].
    rewrite Nat2Z.inj_succ, Z.pow_succ_r in Hn by lia.
    destruct (Z.eq_dec (n / 58) 0) as [Hsmall|Hbig].
    + rewrite Hsmall, digits_zero. cbn [leadingOnes].
      rewrite digit_not_one; [reflexivity|].
      apply Z.div_small_iff in Hsmall; [|lia].
      rewrite Z.mod_small by lia. lia.
    + apply IH. split.
      * pose proof (Z.div_pos n 58). lia.
      * apply Z.div_lt_upper_bound; lia.
Qed.

Lemma valueOfText_ones k s : valueOfText (ones k s) 0 = valueOfText s 0.
Proof. induction k as [|k IH]; [reflexivity|]. exact IH. Qed.

Lemma leadingOnes_ones k s : leadingOnes (ones k s) = (k + leadingOnes s)%nat.
Proof. induction k as [|k IH]; [reflexivity|]. cbn. rewrite IH. reflexivity. Qed.

(** The value of a byte string, from an arbitrary start. *)
Lemma fold_value bytes :
  isBytes bytes ->
  forall a,
  fold_left (fun acc b => acc * 256 + b) bytes a
  = a * 256 ^ Z.of_nat (List.length bytes) + valueOf bytes
  /\ 0 <= valueOf bytes < 256 ^ Z.of_nat (List.length bytes).
Proof.
  unfold valueOf.
  induction 1 as [|b bytes Hb _ IH]; intros a.
  - cbn. lia.
  - cbn [fold_left List.length]. rewrite Nat2Z.inj_succ, Z.pow_succ_r by lia.
    destruct (IH (a * 256 + b)) as [-> Hbound].
    destruct (IH (0 * 256 + b)) as [-> _]. nia.
Qed.

Lemma valueOf_cons b bytes :
  isBytes bytes ->
  valueOf (b :: bytes) = b * 256 ^ Z.of_nat (List.length bytes) + valueOf bytes.
Proof.
  intros Hbytes. unfold valueOf at 1. cbn [fold_left].
  destruct (fold_value bytes Hbytes (0 * 256 + b)) as [-> _]. lia.
Qed.

Lemma valueOf_snoc bytes b : valueOf (bytes ++ [b]) = valueOf bytes * 256 + b.
Proof. unfold valueOf. rewrite fold_left_app. reflexivity. Qed.

Lemma pow_256_58 n : 256 ^ Z.of_nat n <= 58 ^ Z.of_nat (2 * n).
Proof.
  induction n as [|n IH]; [cbn; lia|].
  replace (2 * S n)%nat with (S (S (2 * n))) by lia.
  rewrite !Nat2Z.inj_succ, !Z.pow_succ_r by lia. lia.
Qed.

Lemma encode_value bytes :
  isBytes bytes -> valueOfText (encode bytes) 0 = Some (valueOf bytes).
Proof.
  intros Hbytes. unfold encode.
  destruct (fold_value bytes Hbytes 0) as [_ Hbound].
  rewrite valueOfText_ones, valueOfText_digits; [reflexivity|].
  pose proof (pow_256_58 (List.length bytes)). lia.
Qed.

Lemma encode_zeros bytes :
  isBytes bytes -> leadingOnes (encode bytes) = leadingZeros bytes.
Proof.
  intros Hbytes. unfold encode.
  destruct (fold_value bytes Hbytes 0) as [_ Hbound].
  rewrite leadingOnes_ones.
  destruct (Z.eq_dec (valueOf bytes) 0) as [->|Hpos].
  - rewrite digits_zero. cbn. lia.
  - rewrite leadingOnes_digits; [lia|].
    pose proof (pow_256_58 (List.length bytes)). lia.
Qed.

(** A byte string is its leading zeros followed by a string that starts
    with a byte that is not zero, and the two have the same value. *)
Lemma leading_zeros_split bytes :
  bytes = (repeat 0 (leadingZeros bytes) ++ drop (leadingZeros bytes) bytes)%list
  /\ valueOf (drop (leadingZeros bytes) bytes) = valueOf bytes
  /\ leadingZeros (drop (leadingZeros bytes) bytes) = 0%nat.
Proof.
  induction bytes as [|b bytes IH]; [repeat split; reflexivity|].
  cbn [leadingZeros]. destruct (b =? 0) eqn:Hb.
  - apply Z.eqb_eq in Hb as ->. cbn [repeat app drop].
    destruct IH as (Heq & Hvalue & Hzeros).
    split; [f_equal; exact Heq|]. split; [|exact Hzeros].
    rewrite Hvalue. reflexivity.
  - cbn [repeat app drop]. split; [reflexivity|]. split; [reflexivity|].
    cbn [leadingZeros]. rewrite Hb. reflexivity.
Qed.

(** Two strings without leading zero and with the same value are the
    same string. *)
Lemma canonical_unique r1 :
  forall r2,
  isBytes r1 -> isBytes r2 ->
  leadingZeros r1 = 0%nat -> leadingZeros r2 = 0%nat ->
  valueOf r1 = valueOf r2 ->
  r1 = r2.
Proof.
  assert (Hpositive : forall r, isBytes r -> leadingZeros r = 0%nat -> r <> [] ->
                                0 < valueOf r).
  { intros [|b r] Hr Hz Hne; [congruence|].
    apply Forall_cons in Hr as [Hb Hr]. rewrite valueOf_cons by exact Hr.
    cbn [leadingZeros] in Hz. destruct (b =? 0) eqn:Hb0; [discriminate|].
    apply Z.eqb_neq in Hb0. destruct (fold_value r Hr 0) as [_ Hbound].
    assert (0 < 256 ^ Z.of_nat (List.length r)) by (apply Z.pow_pos_nonneg; lia).
    nia. }
  assert (Hhead : forall (r : list Z) b, r <> [] ->
                    leadingZeros (r ++ [b]) = 0%nat -> leadingZeros r = 0%nat).
  { intros [|c r] b Hne Hz; [congruence|]. cbn [app leadingZeros] in *.
    destruct (c =? 0); [discriminate|reflexivity]. }
  induction r1 as [|b1 r1 IH] using rev_ind; intros r2 H1 H2 Hz1 Hz2 Hv.
  - destruct r2 as [|b2 r2]; [reflexivity|]. exfalso.
    pose proof (Hpositive (b2 :: r2) H2 Hz2 ltac:(discriminate)) as Hpos.
    rewrite <- Hv in Hpos. cbn in Hpos. lia.
  - destruct r2 as [|b2 r2 _] using rev_ind.
    + exfalso.
      pose proof (Hpositive (r1 ++ [b1])%list H1 Hz1
                    ltac:(intros Hnil; apply app_eq_nil in Hnil as [_ Hnil];
                          discriminate)) as Hpos.
      rewrite Hv in Hpos. cbn in Hpos. lia.
    + rewrite !valueOf_snoc in Hv.
      apply Forall_app in H1 as [H1 Hb1]. apply Forall_app in H2 as [H2 Hb2].
      apply Forall_inv in Hb1, Hb2.
      assert (b1 = b2 /\ valueOf r1 = valueOf r2) as [-> Hv'] by lia.
      f_equal. apply IH; try assumption.
      * destruct r1 as [|c r1]; [reflexivity|].
        apply (Hhead _ b2); [discriminate|exact Hz1].
      * destruct r2 as [|c r2]; [reflexivity|].
        apply (Hhead _ b2); [discriminate|exact Hz2].
Qed.

End Base58Facts.

Lemma toBase58_inj (a b : PublicKey) :
  isBytes a -> isBytes b -> toBase58 a = toBase58 b -> a = b.
Proof.
  intros Ha Hb Heq. unfold toBase58 in Heq.
  assert (Hz : Base58.leadingZeros a = Base58.leadingZeros b).
  { rewrite <- (Base58Facts.encode_zeros a Ha), <- (Base58Facts.encode_zeros b Hb), Heq.
    reflexivity. }
  assert (Hv : Base58.valueOf a = Base58.valueOf b).
  { pose proof (Base58Facts.encode_value a Ha) as H1.
    pose proof (Base58Facts.encode_value b Hb) as H2.
    rewrite Heq in H1. rewrite H1 in H2. injection H2 as H2. exact H2. }
  destruct (Base58Facts.leading_zeros_split a) as (Hsa & Hra & Hca).
  destruct (Base58Facts.leading_zeros_split b) as (Hsb & Hrb & Hcb).
  assert (Hr : drop (Base58.leadingZeros a) a = drop (Base58.leadingZeros b) b).
  { apply Base58Facts.canonical_unique; try assumption.
    - apply Forall_drop, Ha.
    - apply Forall_drop, Hb.
    - congruence. }
  etransitivity; [exact Hsa|]. rewrite Hr, Hz. symmetry. exact Hsb.
Qed.

Lemma isBytes_forallb bytes :
  forallb (fun b => (0 <=? b) && (b <? 256)) bytes = true -> isBytes bytes.
Proof.
  intros H. apply Forall_forall. intros b Hb. apply list_elem_of_In in Hb.
  apply (forallb_In _ _ _ H) in Hb. lia.
Qed.

Lemma size_list_to_set_map {A B} `{Countable A} `{Countable B}
    (f : A -> B) (P : A -> Prop) (l : list A) :
  (forall x y, P x -> P y -> f x = f y -> x = y) ->
  Forall P l ->
  size (list_to_set (map f l) : gset B) = size (list_to_set l : gset A).
Proof.
  intros Hinj. induction 1 as [|x l Hx Hl IH]; [reflexivity|].
  cbn [map list_to_set].
  destruct (decide (x ∈ l)) as [Hin|Hout].
  - assert (H1 : ({[x]} ∪ list_to_set l : gset A) = list_to_set l) by set_solver.
    assert (H2 : ({[f x]} ∪ list_to_set (map f l) : gset B) = list_to_set (map f l)).
    { apply subseteq_union_1_L. apply singleton_subseteq_l.
      apply elem_of_list_to_set. apply list_elem_of_In, in_map, list_elem_of_In, Hin. }
    rewrite H1, H2. exact IH.
  - rewrite !size_union, !size_singleton, IH; [reflexivity| |].
    + apply disjoint_singleton_l. rewrite elem_of_list_to_set. exact Hout.
    + apply disjoint_singleton_l. rewrite elem_of_list_to_set.
      intros Hfx. apply list_elem_of_In, in_map_iff in Hfx as (y & Hy & Hyin).
      apply Hout. rewrite (Hinj x y Hx); [apply list_elem_of_In, Hyin| |congruence].
      rewrite Forall_forall in Hl. apply Hl, list_elem_of_In, Hyin.
Qed.

(** X27. The ownership test of createSquad compares base58 texts; for
    keys, which are byte strings, this is the comparison of the keys: an
    account passes the test exactly when its owner is the Squads
    program. *)
Theorem ownedBySquads_compares_keys (info : AccountInfo) :
  isBytes (owner info) ->
  ownedBySquads (Some info) = true <-> owner info = SQUADS_PROGRAM_ID.
Proof.
  intros Howner. cbn [ownedBySquads]. rewrite String.eqb_eq. split.
  - apply toBase58_inj; [exact Howner|].
    apply isBytes_forallb. vm_compute. reflexivity.
  - intros ->. reflexivity.
Qed.

(** X28. The signer scan of createSwapProposal tells the signers apart by
    their base58 text; for keys, which are byte strings, it counts the
    distinct keys: the number of ephemeral signers that it finds is the
    number of distinct keys that are marked as signers and are neither
    the vault nor the creator. *)
Theorem scanSigners_counts_keys (vaultPda creatorKey : PublicKey)
    (allInstructions : list TransactionInstruction) :
  Forall (fun key => isBytes (pubkey key)) (concat (map keys allInstructions)) ->
  fst (scanSigners vaultPda creatorKey allInstructions)
  = Z.of_nat (size (ephemeralSignerKeys vaultPda creatorKey allInstructions)).
Proof.
  intros Hkeys.
  destruct (scanSigners_spec vaultPda creatorKey allInstructions) as [_ ->].
  f_equal. unfold ephemeralSignerSet, ephemeralSignerKeys.
  rewrite <- (map_map pubkey toBase58).
  apply (size_list_to_set_map toBase58 isBytes).
  - intros x y. apply toBase58_inj.
  - apply Forall_forall. intros k Hk.
    apply list_elem_of_In, in_map_iff in Hk as (key & <- & Hkey).
    apply filter_In in Hkey as [Hkey _].
    rewrite Forall_forall in Hkeys. apply Hkeys, list_elem_of_In, Hkey.
Qed.

Lemma atLeast_mono x y bound :
  numberLe x y -> atLeast x bound = true -> atLeast y bound = true.
Proof.
  destruct x as [| |p|], y as [| |q|]; cbn; try tauto; try discriminate.
  rewrite !Qle_bool_iff. intros Hpq Hp. eapply Qle_trans; eassumption.
Qed.

(** X29. The level that getPriceImpactLevel reports grows with the price
    impact: a larger impact is never shown as less severe, and an impact
    that is not a number is never shown as more severe than any other;
    it is shown as safe. *)
Theorem getPriceImpactLevel_monotone (parseFloat : string -> Number)
    (x y : Number) :
  x = NaN \/ numberLe x y ->
  severity (getPriceImpactLevel parseFloat (inr x))
  <= severity (getPriceImpactLevel parseFloat (inr y)).
Proof.
  intros [->|Hle].
  { change (getPriceImpactLevel parseFloat (inr NaN)) with safe.
    destruct (getPriceImpactLevel parseFloat (inr y)); cbn; lia. }
  unfold getPriceImpactLevel. cbv zeta.
  pose proof (atLeast_mono x y MAX_PRICE_IMPACT_BLOCK Hle) as H15.
  pose proof (atLeast_mono x y MAX_PRICE_IMPACT_DANGER Hle) as H5.
  pose proof (atLeast_mono x y MAX_PRICE_IMPACT_WARNING Hle) as H1.
  destruct (atLeast x MAX_PRICE_IMPACT_BLOCK).
  { rewrite H15 by reflexivity. cbn. lia. }
  destruct (atLeast y MAX_PRICE_IMPACT_BLOCK);
    [destruct (atLeast x _), (atLeast x _); cbn; lia|].
  destruct (atLeast x MAX_PRICE_IMPACT_DANGER).
  { rewrite H5 by reflexivity. cbn. lia. }
  destruct (atLeast y MAX_PRICE_IMPACT_DANGER); [destruct (atLeast x _); cbn; lia|].
  destruct (atLeast x MAX_PRICE_IMPACT_WARNING).
  { rewrite H1 by reflexivity. cbn. lia. }
  destruct (atLeast y MAX_PRICE_IMPACT_WARNING); cbn; lia.
Qed.

(** * Worked scenarios

    The theorems above, applied to runs on the simulated ledger. *)

Section Scenarios.
Import Demo.
#[local] Existing Instance demoSdk.

(** Splits [H : In ev tr] for a concrete [tr] into the events that can
    be [ev]. *)
Ltac run_cases H :=
  vm_compute in H;
  repeat (destruct H as [H|H]; [try discriminate H|]);
  try contradiction.

(** Finds an event in a concrete trace. *)
Ltac find_event := vm_compute; repeat (first [left; reflexivity | right]).

Example base58_of_the_program_id :
  toBase58 SQUADS_PROGRAM_ID = "SQDS4ep65T869zMMBKyuUq6aD6EgTu8psMjkvj52pCf"
  /\ toBase58 programTreasury = "5DH2e3cJmFpyi6mk65EGFediunm4ui6BiKNUNrhWtD1b".
Proof. split; vm_compute; reflexivity. Qed.

(** The allocator skips the slots 4 and 5 and returns 6. *)
Lemma allocate_skips_taken_slots :
  outcome (run ledgerEnv allocate vaultLedger) = Returned 6.
Proof.
  destruct (getNextTransactionIndex_smallest_free Ledger ledgerEnv vaultLedger
              (fun a => accounts vaultLedger !! a) multisig0
              {| owner := SQUADS_PROGRAM_ID; lamports := rentOfMultisig; data := [3] |}
              {| transactionIndex := 3 |})
    as (Hsmallest & _ & _).
  - vm_compute. reflexivity.
  - vm_compute. reflexivity.
  - intros a cm r Hin. run_cases Hin; injection Hin as <- <- <-;
      vm_compute; reflexivity.
  - apply (Hsmallest 6).
    + cbn. lia.
    + eexists. split; vm_compute; reflexivity.
    + intros j Hj. cbn in Hj. assert (j = 4 \/ j = 5) as [-> | ->] by lia;
        eexists _, _; split; vm_compute; reflexivity.
Defined.

(** A transfer of 1 SOL from a vault holding half a SOL is refused
    before anything is built or submitted. *)
Lemma transfer_beyond_the_balance :
  outcome (run ledgerEnv (transfer sol 6) vaultLedger)
    = Thrown (insufficientVaultBalance (sol / 2) sol)
  /\ noSubmission (trace (run ledgerEnv (transfer sol 6) vaultLedger)).
Proof.
  destruct (createTransferProposal_insufficient_balance Ledger ledgerEnv
              vaultLedger alice multisig0 vault0 recipient sol 6 (sol / 2))
    as (Ho & _ & Hquiet).
  - find_event.
  - vm_compute. reflexivity.
  - split; [exact Ho|]. vm_compute. reflexivity.
Defined.

(** The swap bundle has two ephemeral signers, and the vault-transaction
    creation declares two. *)
Lemma swap_declares_two_signers :
  exists args r allInstructions,
    In (ESendRawTransaction (VaultTransactionCreateTx args [alice]) proposalOpts r)
       (trace (run ledgerEnv (swap 6) vaultLedger))
    /\ assemble bundle = Resolved allInstructions
    /\ size (ephemeralSignerSet vault0 (publicKey alice) allInstructions) = 2%nat
    /\ vtc_ephemeralSigners args = 2.
Proof.
  pose (tr := trace (run ledgerEnv (swap 6) vaultLedger)).
  vm_compute in tr.
  match eval cbv delta [tr] in tr with
  | context [ESendRawTransaction (VaultTransactionCreateTx ?a ?sg) ?o ?r] =>
      assert (Hin : In (ESendRawTransaction (VaultTransactionCreateTx a sg) o r)
                       (trace (run ledgerEnv (swap 6) vaultLedger)))
        by find_event;
      destruct (createSwapProposal_ephemeral_signers Ledger ledgerEnv vaultLedger
                  alice multisig0 vault0 bundle 6 a sg o r Hin)
        as (ixs & Hassemble & Hmsg & Hcount & Hdeclared);
      exists a, r, ixs
  end.
  split; [exact Hin|]. split; [exact Hassemble|].
  assert (Htwo : vtc_ephemeralSigners
                   (mkVaultTransactionCreate
                      "EkSnNWid2cvwEVnVx9aBqawnmiCNiDgp3gUdkDPTKN1N"
                      (publicKey alice) multisig0 6 (publicKey alice) 0 2
                      (mkMessage vault0
                         "EkSnNWid2cvwEVnVx9aBqawnmiCNiDgp3gUdkDPTKN1N" ixs)
                      SQUADS_PROGRAM_ID) = 2) by reflexivity.
  split; [|reflexivity].
  apply Nat2Z.inj. rewrite <- Hdeclared. reflexivity.
Defined.


(** A first call creates the multisig of attempt 0; the next call finds
    it and reports it as recovered. *)
Lemma provision_twice_recovers :
  outcome (run ledgerEnv provision (final (run ledgerEnv provision plainLedger)))
    = Returned {| signature := "RECOVERED";
                  multisigPda := multisig0;
                  vaultPda := vault0 |}
  /\ noSubmission
       (trace (run ledgerEnv provision (final (run ledgerEnv provision plainLedger)))).
Proof.
  destruct (createSquad_second_call_recovers Ledger ledgerEnv plainLedger alice
              server 1
              {| signature := "signature-0";
                 multisigPda := multisig0;
                 vaultPda := vault0 |})
    as [_ Hsecond].
  - vm_compute. reflexivity.
  - apply (Hsecond 0).
    + lia.
    + reflexivity.
    + reflexivity.
    + intros a r Hin. run_cases Hin. injection Hin as <- <-.
      eexists. split; [reflexivity|]. lia.
    + intros j Hj. lia.
    + intros cm r Hin. run_cases Hin. injection Hin as <- <-.
      eexists. split; [reflexivity|]. vm_compute. reflexivity.
Defined.

(** Attempt 3 flips the byte at position 3 of the owner's key (4 becomes
    251), and the first call probes the address derived from attempt 0
    only. *)
Lemma create_key_of_attempt_three :
  seedOf alice 3 = <[3%nat := 251]> (publicKey alice)
  /\ probed (trace (run ledgerEnv provision plainLedger)) = [multisig0].
Proof.
  destruct (createSquad_create_key_derivation Ledger ledgerEnv plainLedger alice
              server 1) as (Hseed & _ & _ & _).
  destruct (Hseed 3) as (b & Hb & Hflip).
  - lia.
  - reflexivity.
  - vm_compute. repeat constructor; discriminate.
  - vm_compute in Hb. injection Hb as <-. split; [exact Hflip|].
    vm_compute. reflexivity.
Defined.

(** On a ledger where the address of attempt 0 is taken by a system
    account, the loop moves on to attempt 1; where the creation of
    attempt 0 is refused as already initialized and the address stays
    empty, it moves on as well, with the error kept; and the multisig
    that the first call on a plain ledger returns was created by it. *)
Lemma provision_skips_foreign_accounts :
  trace (run ledgerEnv (attemptsFrom alice server 1 10 0 None) crowdedLedger)
  = (EGetAccountInfo multisig0 None (Resolved (Some (systemAccount 1)))
     :: trace (run ledgerEnv (attemptsFrom alice server 1 9 1 None) crowdedLedger))
  /\ outcome (run ledgerEnv (attemptsFrom alice server 1 10 0 None) zombieLedger)
     = outcome (run ledgerEnv (attemptsFrom alice server 1 9 1 (Some alreadyInUse))
                  (ledgerWith (funded (publicKey alice) sol) [] None))
  /\ verifiedOrCreated alice server 1
       (trace (run ledgerEnv provision plainLedger))
       {| signature := "signature-0"; multisigPda := multisig0; vaultPda := vault0 |}.
Proof.
  destruct (createSquad_collision_skip Ledger ledgerEnv alice server 1)
    as (Hforeign & Hunverified & Hresult).
  split; [|split].
  - rewrite (Hforeign crowdedLedger 9%nat 0 None (systemAccount 1)).
    + reflexivity.
    + vm_compute. reflexivity.
    + vm_compute. reflexivity.
  - rewrite (Hunverified zombieLedger 9%nat 0 None alreadyInUse).
    + rewrite after_outcome. vm_compute. reflexivity.
    + vm_compute. reflexivity.
    + vm_compute. reflexivity.
    + vm_compute. reflexivity.
    + intros cm r Hin. run_cases Hin; injection Hin as <- <-;
        eexists; (split; [reflexivity|]); reflexivity.
  - apply Hresult. vm_compute. reflexivity.
Defined.

(** When all ten addresses are taken by foreign accounts, no attempt
    raises an error and the explicit error is thrown.  When nine
    creations meet a network error and the last address is taken by a
    foreign account, the network error of the ninth is thrown. *)
Lemma provision_without_a_result :
  outcome (run ledgerEnv provision crowdedLedger) = Thrown slotError
  /\ outcome (run ledgerEnv provision failingLedger) = Thrown networkError.
Proof.
  split.
  - destruct (createSquad_exhaustion Ledger ledgerEnv crowdedLedger alice server 1
                sol (repeat None 10) crowdedLedger) as (_ & Hnone & _ & _).
    + reflexivity.
    + vm_compute. discriminate.
    + reflexivity.
    + cbn [repeat failedAttempts].
      repeat (eexists; split;
              [ left; eexists; split; [vm_compute; reflexivity|];
                split; [vm_compute; reflexivity|]; split; reflexivity |]).
      vm_compute. reflexivity.
    + apply Hnone. intros x Hx. apply repeat_spec in Hx. exact Hx.
  - destruct (createSquad_exhaustion Ledger ledgerEnv failingLedger alice server 1
                sol (repeat (Some networkError) 9 ++ [None])
                (final (run ledgerEnv provision failingLedger)))
      as (_ & _ & Hlast & _).
    + reflexivity.
    + vm_compute. discriminate.
    + reflexivity.
    + cbn [repeat app failedAttempts].
      do 9 (eexists; split;
            [ right; eexists; split; [vm_compute; reflexivity|];
              split; [vm_compute; reflexivity|]; split; [reflexivity|];
              match goal with
              | |- if ?c then _ else _ =>
                  replace c with false by (vm_compute; reflexivity)
              end; reflexivity |]).
      eexists; split;
        [ left; eexists; split; [vm_compute; reflexivity|];
          split; [vm_compute; reflexivity|]; split; reflexivity |].
      vm_compute. reflexivity.
    + apply (Hlast (repeat (Some networkError) 8) networkError [None]).
      * reflexivity.
      * intros x [<-|[]]. reflexivity.
Defined.

(** The polling reads a confirmed status with the custom error 6024. *)
Lemma execute_reports_slippage :
  outcome (run ledgerEnv execute slippageLedger)
  = Returned (Some {| success := false;
                      resultSignature := Some "sig-AQAAAAAAAAAAAAAA";
                      error := Some "Price moved too much - slippage exceeded";
                      errorCode := Some "SLIPPAGE_EXCEEDED" |}).
Proof.
  apply (executeSwapJito_decodes_slippage Ledger ledgerEnv slippageLedger 50
           swapTx alice 1000000 "sig-AQAAAAAAAAAAAAAA"
           {| statusErr := Some slippageError;
              confirmationStatus := Some confirmed |}).
  - find_event.
  - split; [left; reflexivity|]. exists slippageError.
    split; [reflexivity|]. left. vm_compute. reflexivity.
Defined.

(** Both proposal builders, run to the end: the vault-transaction write,
    its confirmation, then the proposal write, all for index 6. *)
Example proposals_in_order :
  map (fun ev => match ev with
                 | ESendRawTransaction (VaultTransactionCreateTx a _) _ _ =>
                     Some (inl (vtc_transactionIndex a))
                 | ESendRawTransaction (ProposalCreateTx p _) _ _ =>
                     Some (inr (pc_transactionIndex p))
                 | _ => None
                 end)
      (List.filter isSubmission (trace (run ledgerEnv (transfer 1000 6) vaultLedger)))
  = [Some (inl 6); Some (inr 6)].
Proof. vm_compute. reflexivity. Qed.

(** *** The further properties at work *)

(** No multisig has been provisioned on the plain ledger. *)
Lemma allocate_without_a_multisig :
  outcome (run ledgerEnv allocate plainLedger)
  = Thrown (Error "Multisig account not found")
  /\ trace (run ledgerEnv allocate plainLedger)
     = [EGetAccountInfo multisig0 (Some "confirmed") (Resolved None)]
  /\ final (run ledgerEnv allocate plainLedger) = plainLedger.
Proof.
  apply (getNextTransactionIndex_unusable_account Ledger ledgerEnv plainLedger
           multisig0 (Error "Multisig account not found")).
  vm_compute. reflexivity.
Defined.

(** On a plain ledger the first call submits one creation; it is the one
    of an attempt, and what precedes it ends with the empty lookup of
    the address of that attempt and the blockhash read. *)
Lemma provision_creates_after_an_empty_lookup :
  exists i blockhash pre',
    0 <= i < 10
    /\ creationTx alice server 1 0 "EkSnNWid2cvwEVnVx9aBqawnmiCNiDgp3gUdkDPTKN1N"
       = creationTx alice server 1 i blockhash
    /\ createOpts = createOpts
    /\ [EGetBalance (publicKey alice) (Resolved sol);
        EGetAccountInfo multisig0 None (Resolved None);
        EGetLatestBlockhash (Resolved "EkSnNWid2cvwEVnVx9aBqawnmiCNiDgp3gUdkDPTKN1N")]
       = (pre' ++ [EGetAccountInfo (multisigPdaOf alice i) None (Resolved None);
                   EGetLatestBlockhash (Resolved blockhash)])%list.
Proof.
  apply (createSquad_creates_on_empty_address Ledger ledgerEnv plainLedger
           alice server 1
           [EGetBalance (publicKey alice) (Resolved sol);
            EGetAccountInfo multisig0 None (Resolved None);
            EGetLatestBlockhash
              (Resolved "EkSnNWid2cvwEVnVx9aBqawnmiCNiDgp3gUdkDPTKN1N")]
           [EConfirmTransaction "signature-0" "confirmed" (Resolved None);
            EGetAccountInfo multisig0 (Some "confirmed")
              (Resolved (Some {| owner := SQUADS_PROGRAM_ID;
                                 lamports := rentOfMultisig;
                                 data := [0] |}))]
           (creationTx alice server 1 0
              "EkSnNWid2cvwEVnVx9aBqawnmiCNiDgp3gUdkDPTKN1N")
           createOpts (Resolved "signature-0")).
  vm_compute. reflexivity.
Defined.

(** The cluster is lost right after the balance read: the first lookup
    rejects and createSquad throws the network error. *)
Lemma provision_on_a_dropping_connection :
  outcome (run droppingEnv provision (1%nat, plainLedger)) = Thrown networkError
  /\ exists pre,
       trace (run droppingEnv provision (1%nat, plainLedger))
       = (pre ++ [EGetAccountInfo multisig0 None (Rejected networkError)])%list.
Proof.
  apply (createSquad_lookup_rejection_aborts (nat * Ledger) droppingEnv
           (1%nat, plainLedger) alice server 1 multisig0 networkError).
  vm_compute. right. left. reflexivity.
Defined.

(** Two devices provision the same owner at once: the one that comes
    second finds its creation refused, sees the multisig of the other,
    and returns it. *)
Lemma provision_in_a_race :
  outcome (run racingEnv (attemptsFrom alice server 1 10 0 None) plainLedger)
  = Returned {| signature := "RECOVERED_6014";
                multisigPda := multisig0;
                vaultPda := vault0 |}.
Proof.
  destruct (createSquad_already_initialized racingEnv alice server 1 plainLedger
              9%nat 0 None alreadyInUse) as (_ & Hverified & _ & _).
  - reflexivity.
  - vm_compute. reflexivity.
  - vm_compute. reflexivity.
  - rewrite Hverified; [reflexivity|].
    eexists _, _. split; [find_event|vm_compute; reflexivity].
Defined.

(** No multisig is visible on the plain ledger: the transfer builder
    polls 15 times, 30 seconds in all, and then reads the vault
    balance. *)
Lemma transfer_without_a_visible_multisig :
  exists answer rest,
    trace (run ledgerEnv (transfer 0 1) plainLedger)
    = (emptyPolls multisig0 2000 15 ++ EGetBalance vault0 answer :: rest)%list.
Proof.
  destruct (proposals_go_on_unseen Ledger ledgerEnv plainLedger alice multisig0
              vault0 recipient 0 1 bundle) as [Htransfer _].
  apply Htransfer. intros cm r Hin.
  run_cases Hin; injection Hin as <- <-; eexists; split; reflexivity.
Defined.

(** The broken bundle is refused after the poll that finds the multisig,
    with the exception of the key constructor. *)
Lemma swap_with_a_broken_bundle :
  forallb isPoll (trace (run ledgerEnv
                           (createSwapProposal alice multisig0 vault0 brokenBundle 6)
                           vaultLedger)) = true
  /\ exists thrown,
       outcome (run ledgerEnv
                  (createSwapProposal alice multisig0 vault0 brokenBundle 6)
                  vaultLedger) = Thrown thrown
       /\ (noRejection
             (trace (run ledgerEnv
                       (createSwapProposal alice multisig0 vault0 brokenBundle 6)
                       vaultLedger)) ->
           thrown = Error "Non-base58 character").
Proof.
  apply (createSwapProposal_invalid_bundle Ledger ledgerEnv vaultLedger alice
           multisig0 vault0 brokenBundle 6 (Error "Non-base58 character")).
  vm_compute. reflexivity.
Defined.

(** The cluster is lost after the send: the confirmation rejects, and the
    result names no signature. *)
Lemma swap_with_a_lost_confirmation :
  trace (run droppingEnv (executeSwap swapTx alice) (1%nat, plainLedger))
  = [ESendTransaction (DeserializedTx (transaction swapTx) [alice]) swapOpts
       (Resolved "signature-0");
     EConfirmTransactionRace "signature-0"
       "EkSnNWid2cvwEVnVx9aBqawnmiCNiDgp3gUdkDPTKN1N" 250000000 90000
       (Rejected networkError)]
  /\ outcome (run droppingEnv (executeSwap swapTx alice) (1%nat, plainLedger))
     = Returned (explainError networkError)
  /\ resultSignature (explainError networkError) = None
  /\ success (explainError networkError) = false.
Proof.
  apply (executeSwap_confirmation_rejected (nat * Ledger) droppingEnv
           (1%nat, plainLedger) swapTx alice "signature-0"
           "EkSnNWid2cvwEVnVx9aBqawnmiCNiDgp3gUdkDPTKN1N" 250000000 90000
           networkError).
  find_event.
Defined.

(** A send refused with "Insufficient Funds", capitalised. *)
Lemma swap_without_funds :
  outcome (run ledgerEnv (executeSwap swapTx alice) brokeLedger)
  = Returned (failure "Insufficient SOL for transaction fees" "INSUFFICIENT_SOL").
Proof.
  apply (executeSwap_insufficient_sol Ledger ledgerEnv brokeLedger swapTx alice
           (ESendTransaction (DeserializedTx (transaction swapTx) [alice]) swapOpts
              (Rejected lackOfFunds))
           lackOfFunds "Transaction simulation failed: " "Insufficient Funds"
           " for fee").
  - find_event.
  - reflexivity.
  - reflexivity.
  - reflexivity.
  - left. reflexivity.
Defined.

(** The first relay takes the transaction; what follows is the polling
    only. *)
Lemma execute_through_the_first_relay :
  exists post,
    afterAccepted (trace (run ledgerEnv execute slippageLedger)) = Some post
    /\ noSubmission post.
Proof.
  eexists. split.
  - vm_compute. reflexivity.
  - apply (executeSwapJito_no_resubmission Ledger ledgerEnv slippageLedger 50
             swapTx alice 1000000).
    vm_compute. reflexivity.
Defined.

(** With the relays down, the five endpoints are asked, then the
    transaction is sent directly, once. *)
Lemma execute_with_the_relays_down :
  DeserializedTx (transaction swapTx) [alice]
  = DeserializedTx (transaction swapTx) [alice]
  /\ jitoOpts = jitoOpts
  /\ exists refused post,
       List.length refused = 5%nat
       /\ Forall (fun a => accepted a = false) refused
       /\ trace (run ledgerEnv execute relayDownLedger)
          = (relayed (DeserializedTx (transaction swapTx) [alice])
               JITO_TX_ENDPOINTS refused
             ++ ESendRawTransaction (DeserializedTx (transaction swapTx) [alice])
                  jitoOpts (Resolved "signature-0") :: post)%list
       /\ noSubmission post.
Proof.
  apply (executeSwapJito_direct_send Ledger ledgerEnv relayDownLedger 50 swapTx
           alice 1000000 (DeserializedTx (transaction swapTx) [alice]) jitoOpts
           (Resolved "signature-0")).
  find_event.
Defined.

(** A transaction text that does not deserialize: no call is made. *)
Lemma execute_an_empty_transaction :
  trace (run ledgerEnv (executeSwapJito 50 emptySwapTx alice 1000000) plainLedger)
  = []
  /\ outcome (run ledgerEnv (executeSwapJito 50 emptySwapTx alice 1000000)
                plainLedger)
     = Returned (Some (explainError (Error "Reached end of buffer unexpectedly")))
  /\ final (run ledgerEnv (executeSwapJito 50 emptySwapTx alice 1000000)
              plainLedger)
     = plainLedger.
Proof.
  apply (executeSwapJito_unsignable Ledger ledgerEnv plainLedger 50 emptySwapTx
           alice 1000000 (Error "Reached end of buffer unexpectedly")).
  left. reflexivity.
Defined.

(** The cluster never reports a status: after 8 seconds of polling the
    call answers success, although no read showed the transaction
    confirmed. *)
Lemma execute_answers_optimistically :
  outcome (run ledgerEnv execute plainLedger)
  = Returned (Some (succeeded "sig-AQAAAAAAAAAAAAAA"))
  /\ ~ confirmedIn "sig-AQAAAAAAAAAAAAAA" (trace (run ledgerEnv execute plainLedger))
  /\ exists pre start polls,
       trace (run ledgerEnv execute plainLedger) = (pre ++ ENow start :: polls)%list
       /\ forallb (fun ev => negb (isStatusRead ev)) pre = true
       /\ timedOut start 8000 polls.
Proof.
  assert (Hunconfirmed :
    ~ confirmedIn "sig-AQAAAAAAAAAAAAAA" (trace (run ledgerEnv execute plainLedger))).
  { intros (st & Hin & _). run_cases Hin. }
  split; [vm_compute; reflexivity|]. split; [exact Hunconfirmed|].
  destruct (executeSwapJito_success_means Ledger ledgerEnv plainLedger 50 swapTx
              alice 1000000 (succeeded "sig-AQAAAAAAAAAAAAAA"))
    as [[_ Hconfirmed]|[[_ Hout]|(sig & bh & _ & Hin)]].
  - vm_compute. reflexivity.
  - reflexivity.
  - destruct (Hunconfirmed Hconfirmed).
  - exact Hout.
  - exfalso. run_cases Hin.
Defined.

(** On the simulated ledger the clock moves with the pauses, so that the
    polling of the scenario ends within the window. *)
Lemma execute_settles_in_time :
  (exists res, outcome (run ledgerEnv execute plainLedger) = Returned (Some res))
  /\ (statusReads (trace (run ledgerEnv execute plainLedger)) <= 40)%nat.
Proof.
  apply (executeSwapJito_settles_in_time Ledger ledgerEnv time plainLedger 50
           swapTx alice 1000000).
  - split; [|split].
    + intros l. simpl. lia.
    + intros c l. destruct c; simpl; try lia.
      all: unfold submit; destruct (faults l) as [|[e|] later]; simpl; lia.
    + intros ms l. simpl. lia.
  - lia.
Defined.

(** The multisig that a first call creates passes the ownership test,
    the creator's own account does not. *)
Lemma ownership_of_a_created_multisig :
  (ownedBySquads (Some {| owner := SQUADS_PROGRAM_ID;
                          lamports := rentOfMultisig;
                          data := [0] |}) = true
   <-> SQUADS_PROGRAM_ID = SQUADS_PROGRAM_ID)
  /\ (ownedBySquads (Some (systemAccount sol)) = true
      <-> SystemProgram_programId = SQUADS_PROGRAM_ID).
Proof.
  split.
  - apply (ownedBySquads_compares_keys
             {| owner := SQUADS_PROGRAM_ID; lamports := rentOfMultisig; data := [0] |}).
    apply isBytes_forallb. vm_compute. reflexivity.
  - apply (ownedBySquads_compares_keys (systemAccount sol)).
    apply isBytes_forallb. vm_compute. reflexivity.
Defined.

(** The keys of the bundle are byte strings: the scan counts its
    distinct ephemeral signer keys. *)
Lemma swap_counts_distinct_keys :
  match assemble bundle with
  | Resolved allInstructions =>
      fst (scanSigners vault0 (publicKey alice) allInstructions)
      = Z.of_nat (size (ephemeralSignerKeys vault0 (publicKey alice)
                          allInstructions))
  | Rejected _ => False
  end.
Proof.
  destruct (assemble bundle) as [allInstructions|e] eqn:Hassemble;
    [|vm_compute in Hassemble; discriminate].
  apply (scanSigners_counts_keys vault0 (publicKey alice) allInstructions).
  vm_compute in Hassemble. injection Hassemble as <-.
  apply Forall_forall. intros key Hkey. apply list_elem_of_In in Hkey.
  apply isBytes_forallb.
  cbn [map concat keys app] in Hkey.
  repeat (destruct Hkey as [<-|Hkey]; [vm_compute; reflexivity|]).
  destruct Hkey.
Defined.

(** An impact of 3 % is not shown as more severe than one of 7 %. *)
Lemma impact_levels_in_order :
  severity (getPriceImpactLevel parseDigits (inr (Finite (inject_Z 3))))
  <= severity (getPriceImpactLevel parseDigits (inr (Finite (inject_Z 7)))).
Proof.
  apply (getPriceImpactLevel_monotone parseDigits (Finite (inject_Z 3))
           (Finite (inject_Z 7))).
  right. cbn. unfold Qle. cbn. lia.
Defined.

(** A text that spells 12 is a danger; one that holds no number is shown
    as safe. *)
Example impact_of_a_text :
  getPriceImpactLevel parseDigits (inl "12") = danger
  /\ getPriceImpactLevel parseDigits (inl "n/a") = safe.
Proof. split; reflexivity. Qed.

(** *** Where the libraries refuse *)

(** The counter of the multisig is 2^64 - 1: no further index has an
    address, and the allocator throws the exception of the derivation
    after the read of the multisig account. *)
Example allocate_after_the_last_index :
  outcome (run ledgerEnv allocate lastIndexLedger) = Thrown (outOfRange (2 ^ 64))
  /\ List.length (trace (run ledgerEnv allocate lastIndexLedger)) = 1%nat.
Proof. split; vm_compute; reflexivity. Qed.

(** A threshold that is no 16-bit number: the instruction is never built,
    every attempt raises the exception of the library, and after ten
    lookups the last of them is thrown; nothing is submitted. *)
Example provision_with_a_threshold_out_of_range :
  outcome (run ledgerEnv (createSquad alice server 70000) plainLedger)
  = Thrown (outOfRange 70000)
  /\ probed (trace (run ledgerEnv (createSquad alice server 70000) plainLedger))
     = map (fun i => multisigPdaOf alice (Z.of_nat i)) (seq 0 10)
  /\ noSubmission (trace (run ledgerEnv (createSquad alice server 70000) plainLedger)).
Proof. repeat split; vm_compute; reflexivity. Qed.

(** A negative amount passes the balance check and is refused by the
    library when the transfer instruction is built: the balance read is
    the last call. *)
Example transfer_of_a_negative_amount :
  outcome (run ledgerEnv (transfer (-1) 6) vaultLedger) = Thrown (outOfRange (-1))
  /\ last (trace (run ledgerEnv (transfer (-1) 6) vaultLedger))
     = Some (EGetBalance vault0 (Resolved (sol / 2))).
Proof. split; vm_compute; reflexivity. Qed.

(** An index beyond 64 bits is refused when its address is derived, after
    the blockhash of the message was read, and a bundle that is too large
    when the vault transaction is built, after the second blockhash was
    read; in both cases nothing is submitted. *)
Example swap_that_the_libraries_refuse :
  outcome (run ledgerEnv (swap (2 ^ 64)) vaultLedger) = Thrown (outOfRange (2 ^ 64))
  /\ noSubmission (trace (run ledgerEnv (swap (2 ^ 64)) vaultLedger))
  /\ outcome (run ledgerEnv
                (createSwapProposal alice multisig0 vault0 oversizeBundle 6)
                vaultLedger)
     = Thrown (Error "encoding overruns Uint8Array")
  /\ noSubmission
       (trace (run ledgerEnv
                 (createSwapProposal alice multisig0 vault0 oversizeBundle 6)
                 vaultLedger)).
Proof. repeat split; vm_compute; reflexivity. Qed.

(** *** Where the spec and the code part *)

(** A creator holding exactly 0.01 SOL: the first call passes the balance
    check and creates the multisig, which then exists and is owned by the
    Squads program; the creation has charged the creator, and the second
    call stops at the balance check with the insufficient funds error
    instead of returning the recovered outcome. *)
Lemma provision_twice_on_a_tight_budget :
  outcome (run ledgerEnv provision tightLedger)
    = Returned {| signature := "signature-0";
                  multisigPda := multisig0;
                  vaultPda := vault0 |}
  /\ ownedBySquads
       (accounts (final (run ledgerEnv provision tightLedger)) !! multisig0) = true
  /\ outcome (run ledgerEnv provision (final (run ledgerEnv provision tightLedger)))
     = Thrown (insufficientFunds 7495000)
  /\ trace (run ledgerEnv provision (final (run ledgerEnv provision tightLedger)))
     = [EGetBalance (publicKey alice) (Resolved 7495000)].
Proof. vm_compute. repeat split; reflexivity. Qed.

(** A network error at the first submission: the first call ends up at
    attempt 1, and the second call, finding the address of attempt 0
    still free, creates a second multisig there. *)
Example provision_twice_after_a_network_error :
  let run1 := run ledgerEnv provision flakyLedger in
  let run2 := run ledgerEnv provision (final run1) in
  outcome run1 = Returned {| signature := "signature-0";
                             multisigPda := multisigPdaOf alice 1;
                             vaultPda := vaultPdaOf alice 1 |}
  /\ outcome run2 = Returned {| signature := "signature-1";
                                multisigPda := multisigPdaOf alice 0;
                                vaultPda := vaultPdaOf alice 0 |}.
Proof. vm_compute. split; reflexivity. Qed.

(** Every submission meets a network error: all ten attempts submit and
    fail, and what createSquad throws is that network error, not the
    error that no valid vault slot was found. *)
Lemma provision_during_an_outage :
  outcome (run ledgerEnv provision downLedger) = Thrown networkError
  /\ List.length
       (List.filter isSubmission (trace (run ledgerEnv provision downLedger)))
     = 10%nat
  /\ forallb isRejected
       (List.filter isSubmission (trace (run ledgerEnv provision downLedger)))
     = true
  /\ outcome (run ledgerEnv provision downLedger) <> Thrown slotError.
Proof.
  vm_compute. repeat split; try reflexivity. discriminate.
Qed.

End Scenarios.
